(** * securitycam.py: chunked recording under a per-camera storage quota

    A shallow embedding of [src/securitycam.py]: the [VideoWriter] wrapper,
    [CameraProcess] (eviction, chunk rotation, the recording loop) and
    [MultiCameraSystem] (configuration loading, signal handling, the
    supervising loop), followed by the properties of the specification that
    concern them.

    Conventions of the embedding.
    - Python integers are [Z]; wall-clock readings ([time.time()]) are
      binary64 floats, with the subtraction of the hardware; a float
      [st_mtime] is an integer with the same order.
    - Paths are [pathlib] paths on a POSIX system; a field that holds a path
      holds its [str()].
    - Code that may raise returns a [result]; the handlers of the source
      ([try]/[except Exception]/[finally]) are pattern matches on it.
    - The file system, OpenCV, the clock and the [running] flag written by
      another thread are the environment: a directory listing with the outcome
      of [stat]/[unlink] on each entry, and one record of observations per
      loop iteration.
    - Everything a method does to the outside world is appended to a trace of
      [event]s, oldest first. *)

From Stdlib Require Import ZArith List String Ascii Bool Lia Permutation Sorted.
From Stdlib Require Import DecimalString.
From Stdlib Require Import Floats.PrimFloat Floats.SpecFloat Floats.FloatOps.
Import ListNotations.
Open Scope string_scope.
Open Scope list_scope.
Open Scope Z_scope.

(** String concatenation, as in the f-strings of the source. *)
Infix "+++" := String.append (at level 60, right associativity).

(** ** Exceptions and logging *)

Inductive exception : Type :=
| FileNotFoundError (path : string)   (* stat/unlink on a vanished file or dangling link *)
| PermissionError (path : string)     (* unlink refused *)
| AttributeError (what : string)      (* attribute access on None *)
| KeyError (key : string)             (* missing dict key *)
| IOError (path : string)             (* open()/json.load failed *)
| cv2_error (msg : string)            (* raised inside OpenCV *)
| TypeError (msg : string)            (* an operand of the wrong type *)
| Exception (msg : string)            (* raise Exception(msg) *)
| SystemExit (code : Z).              (* sys.exit(code); a BaseException *)

(** [except Exception] catches everything here but [SystemExit]. *)
Definition is_Exception (e : exception) : bool :=
  match e with SystemExit _ => false | _ => true end.

(** [str(e)], as interpolated in the log lines. *)
Definition exn_str (e : exception) : string :=
  match e with
  | FileNotFoundError p => "[Errno 2] No such file or directory: '" +++ p +++ "'"
  | PermissionError p => "[Errno 13] Permission denied: '" +++ p +++ "'"
  | AttributeError w => "'NoneType' object has no attribute '" +++ w +++ "'"
  | KeyError k => "'" +++ k +++ "'"
  | IOError p => "cannot load '" +++ p +++ "'"
  | cv2_error m => m
  | TypeError m => m
  | Exception m => m
  | SystemExit _ => ""
  end.

Inductive result (A : Type) : Type :=
| Ok (a : A)
| Raise (e : exception).
Arguments Ok {A} a.
Arguments Raise {A} e.

Definition bind {A B : Type} (r : result A) (k : A -> result B) : result B :=
  match r with
  | Ok a => k a
  | Raise e => Raise e
  end.

Notation "'let+' x ':=' r 'in' k" := (bind r (fun x => k))
  (at level 10, x name, r at level 100, k at level 200).

Inductive level : Type := INFO | ERROR.
Definition log_record : Type := level * string.

(** ** The camera's directory *)

Record stat_result : Type := mk_stat { st_mtime : Z; st_size : Z }.

(** One directory entry: its name, what [stat] answers ([None]: it raises,
    as for a link whose target is gone) and whether [unlink] is allowed. *)
Record dirent : Type := mk_dirent {
  d_name : string;
  d_stat : option stat_result;
  d_unlink_ok : bool
}.

(** The entries in the order the operating system enumerates them. *)
Definition directory : Type := list dirent.

(** *** Paths

    [pathlib.PurePosixPath]: the root, and the components below it. *)
Record PurePath : Type := mk_path {
  path_root : string;         (* '', '/' or '//' *)
  path_parts : list string
}.

(** [s.split('/')] *)
Fixpoint split_sep (s : string) : list string :=
  match s with
  | EmptyString => [EmptyString]
  | String c s' =>
      if Ascii.eqb c "/" then EmptyString :: split_sep s'
      else match split_sep s' with
           | x :: r => String c x :: r
           | [] => [String c EmptyString]
           end
  end.

(** [s.lstrip('/')] *)
Fixpoint lstrip_sep (s : string) : string :=
  match s with
  | EmptyString => EmptyString
  | String c s' => if Ascii.eqb c "/" then lstrip_sep s' else s
  end.

(** [splitroot]: the root is ['//'] for exactly two leading slashes, ['/']
    for one or for three and more. *)
Definition splitroot (part : string) : string * string :=
  let stripped_part := lstrip_sep part in
  match (String.length part - String.length stripped_part)%nat with
  | 0%nat => ("", part)
  | 2%nat => ("//", stripped_part)
  | _ => ("/", stripped_part)
  end.

(** A component that parsing keeps: not empty and not ['.']. *)
Definition is_part (x : string) : bool :=
  negb (String.eqb x "" || String.eqb x ".").

(** [Path(s)] *)
Definition Path (s : string) : PurePath :=
  let (root, rel) := splitroot s in
  {| path_root := root; path_parts := filter is_part (split_sep rel) |}.

(** [p / key] for a string [key]: a key with a root replaces [p]. *)
Definition truediv (p : PurePath) (key : string) : PurePath :=
  let k := Path key in
  if String.eqb (path_root k) ""
  then {| path_root := path_root p; path_parts := path_parts p ++ path_parts k |}
  else k.

(** [str(p)] *)
Definition str_path (p : PurePath) : string :=
  match path_root p +++ String.concat "/" (path_parts p) with
  | EmptyString => "."
  | s => s
  end.

(** [str(Path(dir) / name)] *)
Definition path_join (dir name : string) : string := str_path (truediv (Path dir) name).

Fixpoint lookup (name : string) (d : directory) : option dirent :=
  match d with
  | [] => None
  | e :: d' => if String.eqb (d_name e) name then Some e else lookup name d'
  end.

(** The pattern [*<lit>]: the star takes any leading characters; the match
    is case-sensitive, as on a POSIX path. *)
Fixpoint fnmatch_star (lit : string) (s : string) : bool :=
  if String.eqb s lit then true
  else match s with
       | EmptyString => false
       | String _ s' => fnmatch_star lit s'
       end.

Definition is_mp4 (e : dirent) : bool := fnmatch_star ".mp4" (d_name e).

(** [storage_dir.glob("*.mp4")], as names relative to [storage_dir]. *)
Definition glob_mp4 (d : directory) : list string :=
  map d_name (filter is_mp4 d).

(** [Path(name).stat()] *)
Definition stat (sdir : string) (d : directory) (name : string) : result stat_result :=
  match lookup name d with
  | None => Raise (FileNotFoundError (path_join sdir name))
  | Some e =>
      match d_stat e with
      | None => Raise (FileNotFoundError (path_join sdir name))
      | Some st => Ok st
      end
  end.

(** The directory without the entry called [name]. *)
Definition remove_entry (name : string) (d : directory) : directory :=
  filter (fun e => negb (String.eqb (d_name e) name)) d.

(** [Path(name).unlink()] *)
Definition unlink (sdir : string) (d : directory) (name : string) : result directory :=
  match lookup name d with
  | None => Raise (FileNotFoundError (path_join sdir name))
  | Some e =>
      if d_unlink_ok e
      then Ok (remove_entry name d)
      else Raise (PermissionError (path_join sdir name))
  end.

(** [sorted(xs, key=...)]: the keys are computed first, one call per element
    in list order; the sort is stable. *)
Fixpoint decorate {A K : Type} (key : A -> result K) (xs : list A) : result (list (K * A)) :=
  match xs with
  | [] => Ok []
  | x :: xs' =>
      let+ k := key x in
      let+ r := decorate key xs' in
      Ok ((k, x) :: r)
  end.

Fixpoint insert_by {A : Type} (kx : Z * A) (l : list (Z * A)) : list (Z * A) :=
  match l with
  | [] => [kx]
  | ky :: l' => if fst kx <=? fst ky then kx :: ky :: l' else ky :: insert_by kx l'
  end.

Definition sort_by {A : Type} (l : list (Z * A)) : list (Z * A) :=
  fold_right insert_by [] l.

Definition sorted {A : Type} (key : A -> result Z) (xs : list A) : result (list A) :=
  let+ ks := decorate key xs in
  Ok (map snd (sort_by ks)).

(** [sum(f(x) for x in xs)] *)
Fixpoint sum_of {A : Type} (f : A -> result Z) (xs : list A) : result Z :=
  match xs with
  | [] => Ok 0
  | x :: xs' =>
      let+ v := f x in
      let+ s := sum_of f xs' in
      Ok (v + s)
  end.

(** ** VideoWriter *)

Definition frame : Type := nat.

Inductive fourcc : Type := mp4v | MJPG.

(** A [cv2.VideoWriter] object: [cv_opened] is what [isOpened()] answers. *)
Record cv2_VideoWriter : Type := mk_cv2_writer {
  cv_filename : string;
  cv_fourcc : fourcc;
  cv_fps : Z;
  cv_frame_size : Z * Z;
  cv_opened : bool
}.

(** What [cv2.VideoWriter.write] does with a frame on an opened writer. *)
Inductive write_outcome : Type :=
| Written                   (* encoded and appended *)
| Dropped                   (* failed without raising *)
| WriteRaises (msg : string).

(** The wrapper class; [vw_id] is the identity of the Python object. *)
Record VideoWriter : Type := mk_writer {
  vw_id : nat;
  vw_writer : cv2_VideoWriter
}.

(** ** Events *)

Inductive event : Type :=
| EvCapture (device_id : Z) (opened : bool)            (* cv2.VideoCapture(device_id) *)
| EvRead (ret : bool)                                   (* cap.read() *)
| EvCapRelease                                          (* cap.release() *)
| EvCv2Writer (id : nat) (file : string) (c : fourcc) (opened : bool)
                                                        (* cv2.VideoWriter(file, fourcc, ...) *)
| EvWrite (id : nat) (f : frame) (o : write_outcome)    (* writer.write(frame) *)
| EvWriterRelease (id : nat)                            (* writer.release() *)
| EvCleanup                                             (* cleanup_old_files() entered *)
| EvUnlink (path : string) (ok : bool)                  (* Path.unlink() *)
| EvLog (r : log_record)
| EvThreadStart (camera_id : string)
| EvSleep
| EvStop (camera_id : string)                           (* camera.stop() *)
| EvJoin (camera_id : string)                           (* thread.join() *)
| EvExit (code : Z).                                    (* the interpreter exits *)

Definition trace : Type := list event.

(** ** CameraProcess *)

Record capture : Type := mk_capture {
  cap_opened : bool;
  cap_width : Z;
  cap_height : Z;
  cap_fps : Z
}.

Record CameraProcess : Type := mk_camera {
  camera_id : string;
  device_id : Z;
  storage_dir : string;
  max_storage_bytes : Z;
  chunk_duration_mins : Z;
  cap : option capture;
  writer : option VideoWriter;
  current_file : option string;
  chunk_start_time : option float;
  running : bool
}.

(** [CameraProcess.__init__]; [storage_dir] is [storage_dir / camera_id],
    the argument being the string [load_config] makes a [Path] of.
    [mkdir_ok] tells whether [mkdir(parents=True, exist_ok=True)] succeeds on
    a path. *)
Definition CameraProcess_init (mkdir_ok : string -> bool) (camera_id : string) (device_id : Z)
    (storage_dir : string) (max_storage_gb : Z) (chunk_duration_mins : Z)
    : result CameraProcess :=
  let self :=
    {| camera_id := camera_id;
       device_id := device_id;
       storage_dir := path_join storage_dir camera_id;
       max_storage_bytes := max_storage_gb * 1024 * 1024 * 1024;
       chunk_duration_mins := chunk_duration_mins;
       cap := None;
       writer := None;
       current_file := None;
       chunk_start_time := None;
       running := false |} in
  if mkdir_ok (path_join storage_dir camera_id) then Ok self
  else Raise (PermissionError (path_join storage_dir camera_id)).

(** *** cleanup_old_files *)

(** The [while] loop of [cleanup_old_files]: the locals [total_size] and
    [video_files], the directory, and the events so far. *)
Fixpoint evict_loop (self : CameraProcess) (total_size : Z) (video_files : list string)
    (d : directory) (tr : trace) : result unit * directory * trace :=
  match video_files with
  | [] => (Ok tt, d, tr)
  | oldest_file :: video_files' =>
      if total_size >? max_storage_bytes self then
        match stat (storage_dir self) d oldest_file with
        | Raise e => (Raise e, d, tr)
        | Ok st =>
            let total_size' := total_size - st_size st in
            let tr1 := tr ++ [EvLog (INFO, "Camera " +++ camera_id self
                                +++ ": Removing old file: "
                                +++ path_join (storage_dir self) oldest_file)] in
            match unlink (storage_dir self) d oldest_file with
            | Raise e =>
                (Raise e, d, tr1 ++ [EvUnlink (path_join (storage_dir self) oldest_file) false])
            | Ok d' =>
                evict_loop self total_size' video_files' d'
                  (tr1 ++ [EvUnlink (path_join (storage_dir self) oldest_file) true])
            end
        end
      else (Ok tt, d, tr)
  end.

(** The body of the [try]. *)
Definition cleanup_body (self : CameraProcess) (d : directory) (tr : trace)
    : result unit * directory * trace :=
  let st_of := stat (storage_dir self) d in
  match sorted (fun x => let+ s := st_of x in Ok (st_mtime s)) (glob_mp4 d) with
  | Raise e => (Raise e, d, tr)
  | Ok video_files =>
      match sum_of (fun f => let+ s := st_of f in Ok (st_size s)) video_files with
      | Raise e => (Raise e, d, tr)
      | Ok total_size => evict_loop self total_size video_files d tr
      end
  end.

(** [cleanup_old_files]: an exception of the body is logged and swallowed.
    The body raises only what [stat] and [unlink] raise, which
    [except Exception] catches. *)
Definition cleanup_old_files (self : CameraProcess) (d : directory) (tr : trace)
    : directory * trace :=
  match cleanup_body self d (tr ++ [EvCleanup]) with
  | (Ok _, d', tr') => (d', tr')
  | (Raise e, d', tr') =>
      (d', tr' ++ [EvLog (ERROR, "Camera " +++ camera_id self
                            +++ ": Error during cleanup: " +++ exn_str e)])
  end.

(** *** The worker's machine state *)

(** The [CameraProcess] object, the next fresh object identity, and the
    events of the worker so far. *)
Record machine : Type := mk_machine {
  self : CameraProcess;
  next_oid : nat;
  events : trace
}.

Definition emit (m : machine) (evs : trace) : machine :=
  {| self := self m; next_oid := next_oid m; events := events m ++ evs |}.

Definition set_self (m : machine) (s : CameraProcess) : machine :=
  {| self := s; next_oid := next_oid m; events := events m |}.

Definition set_cap (s : CameraProcess) (c : option capture) : CameraProcess :=
  {| camera_id := camera_id s; device_id := device_id s; storage_dir := storage_dir s;
     max_storage_bytes := max_storage_bytes s; chunk_duration_mins := chunk_duration_mins s;
     cap := c; writer := writer s; current_file := current_file s;
     chunk_start_time := chunk_start_time s; running := running s |}.

Definition set_writer (s : CameraProcess) (w : option VideoWriter) : CameraProcess :=
  {| camera_id := camera_id s; device_id := device_id s; storage_dir := storage_dir s;
     max_storage_bytes := max_storage_bytes s; chunk_duration_mins := chunk_duration_mins s;
     cap := cap s; writer := w; current_file := current_file s;
     chunk_start_time := chunk_start_time s; running := running s |}.

Definition set_current_file (s : CameraProcess) (f : option string) : CameraProcess :=
  {| camera_id := camera_id s; device_id := device_id s; storage_dir := storage_dir s;
     max_storage_bytes := max_storage_bytes s; chunk_duration_mins := chunk_duration_mins s;
     cap := cap s; writer := writer s; current_file := f;
     chunk_start_time := chunk_start_time s; running := running s |}.

Definition set_chunk_start_time (s : CameraProcess) (t : option float) : CameraProcess :=
  {| camera_id := camera_id s; device_id := device_id s; storage_dir := storage_dir s;
     max_storage_bytes := max_storage_bytes s; chunk_duration_mins := chunk_duration_mins s;
     cap := cap s; writer := writer s; current_file := current_file s;
     chunk_start_time := t; running := running s |}.

Definition set_running (s : CameraProcess) (b : bool) : CameraProcess :=
  {| camera_id := camera_id s; device_id := device_id s; storage_dir := storage_dir s;
     max_storage_bytes := max_storage_bytes s; chunk_duration_mins := chunk_duration_mins s;
     cap := cap s; writer := writer s; current_file := current_file s;
     chunk_start_time := chunk_start_time s; running := b |}.

(** *** VideoWriter methods *)

(** [VideoWriter.__init__]: mp4v first, MJPG when the first writer did not
    open. Whether a codec opens is an observation of the environment. The
    second writer is not tested. *)
Definition VideoWriter_init (id : nat) (filename : string) (fps : Z) (frame_size : Z * Z)
    (mp4v_ok mjpg_ok : bool) : VideoWriter * trace :=
  let w := mk_cv2_writer filename mp4v fps frame_size mp4v_ok in
  let ev := EvCv2Writer id filename mp4v mp4v_ok in
  if negb (cv_opened w) then
    let w' := mk_cv2_writer filename MJPG fps frame_size mjpg_ok in
    (mk_writer id w', [ev; EvCv2Writer id filename MJPG mjpg_ok])
  else (mk_writer id w, [ev]).

(** OpenCV's [write] does nothing on a writer that is not opened. *)
Definition cv2_write (w : cv2_VideoWriter) (o : write_outcome) : write_outcome :=
  if cv_opened w then o else Dropped.

(** [VideoWriter.write] *)
Definition VideoWriter_write (w : VideoWriter) (f : frame) (o : write_outcome)
    : result unit * trace :=
  let o' := cv2_write (vw_writer w) o in
  (match o' with
   | WriteRaises msg => Raise (cv2_error msg)
   | _ => Ok tt
   end, [EvWrite (vw_id w) f o']).

(** [VideoWriter.release] *)
Definition VideoWriter_release (w : VideoWriter) : trace := [EvWriterRelease (vw_id w)].

(** *** start_new_chunk *)

(** What [start_new_chunk] observes: the formatted [datetime.now()], whether
    each codec opens, and [time.time()]. *)
Record chunk_env : Type := mk_chunk_env {
  ce_timestamp : string;
  ce_mp4v_ok : bool;
  ce_mjpg_ok : bool;
  ce_now : float
}.

Definition start_new_chunk (m : machine) (env : chunk_env) : result unit * machine :=
  let m1 := match writer (self m) with
            | Some w => emit m (VideoWriter_release w)
            | None => m
            end in
  let file := path_join (storage_dir (self m1)) (ce_timestamp env +++ ".mp4") in
  let m2 := set_self m1 (set_current_file (self m1) (Some file)) in
  match cap (self m2) with
  | None => (Raise (AttributeError "get"), m2)
  | Some c =>
      let (w, evs) := VideoWriter_init (next_oid m2) file (cap_fps c)
                        (cap_width c, cap_height c) (ce_mp4v_ok env) (ce_mjpg_ok env) in
      let s3 := set_chunk_start_time (set_writer (self m2) (Some w)) (Some (ce_now env)) in
      (Ok tt, {| self := s3; next_oid := S (next_oid m2); events := events m2 ++ evs |})
  end.

(** *** record *)

(** What one iteration of the [while] loop observes. *)
Record step_env : Type := mk_step_env {
  se_running : bool;         (* self.running, as the loop test reads it *)
  se_read : option frame;    (* cap.read(); None when ret is False *)
  se_write : write_outcome;  (* what OpenCV does with the frame *)
  se_now : float;            (* time.time() in the rotation test *)
  se_chunk : chunk_env;      (* for start_new_chunk, when it is called *)
  se_dir : directory         (* the camera's directory, when cleanup_old_files is called *)
}.

(** [x > n] for a float [x] and an int [n]: Python compares the two values
    exactly, without converting the int to a float. *)
Definition float_gt_int (x : float) (n : Z) : bool :=
  match Prim2SF x with
  | S754_nan => false
  | S754_infinity s => negb s
  | S754_zero _ => n <? 0
  | S754_finite s m e =>
      let v := if s then Z.neg m else Z.pos m in
      if 0 <=? e then n <? v * 2 ^ e else n * 2 ^ (- e) <? v
  end.

(** [time.time() - self.chunk_start_time > (self.chunk_duration_mins * 60)]:
    the difference is the float difference, rounded to nearest. *)
Definition rotation_due (s : CameraProcess) (now : float) : result bool :=
  match chunk_start_time s with
  | None => Raise (TypeError "unsupported operand type(s) for -: 'float' and 'NoneType'")
  | Some t0 => Ok (float_gt_int (PrimFloat.sub now t0) (chunk_duration_mins s * 60))
  end.

(** The body of the [while] loop. *)
Definition loop_body (m : machine) (env : step_env) : result unit * machine :=
  match se_read env with
  | None => (Raise (Exception "Failed to read frame"), emit m [EvRead false])
  | Some frame =>
      let m1 := emit m [EvRead true] in
      match writer (self m1) with
      | None => (Raise (AttributeError "write"), m1)
      | Some w =>
          let (r, evs) := VideoWriter_write w frame (se_write env) in
          let m2 := emit m1 evs in
          match r with
          | Raise e => (Raise e, m2)
          | Ok _ =>
              match rotation_due (self m2) (se_now env) with
              | Raise e => (Raise e, m2)
              | Ok false => (Ok tt, m2)
              | Ok true =>
                  match start_new_chunk m2 (se_chunk env) with
                  | (Raise e, m3) => (Raise e, m3)
                  | (Ok _, m3) =>
                      let (_, tr) := cleanup_old_files (self m3) (se_dir env) (events m3) in
                      (Ok tt, {| self := self m3; next_oid := next_oid m3; events := tr |})
                  end
              end
          end
      end
  end.

(** [while self.running: ...] over the observations of the successive
    iterations. [None]: the observations are used up and the worker is still
    in the loop. *)
Fixpoint record_loop (m : machine) (envs : list step_env) : option (result unit) * machine :=
  match envs with
  | [] => (None, m)
  | env :: envs' =>
      let m0 := set_self m (set_running (self m) (se_running env)) in
      if running (self m0) then
        match loop_body m0 env with
        | (Ok _, m1) => record_loop m1 envs'
        | (Raise e, m1) => (Some (Raise e), m1)
        end
      else (Some (Ok tt), m0)
  end.

(** The [try] block of [record]. *)
Definition record_try (m : machine) (c : capture) (chunk0 : chunk_env) (envs : list step_env)
    : option (result unit) * machine :=
  let m1 := emit (set_self m (set_cap (self m) (Some c)))
                 [EvCapture (device_id (self m)) (cap_opened c)] in
  if negb (cap_opened c) then
    (Some (Raise (Exception ("Failed to open camera "
                             +++ NilZero.string_of_int (Z.to_int (device_id (self m1)))))), m1)
  else
    match start_new_chunk m1 chunk0 with
    | (Raise e, m2) => (Some (Raise e), m2)
    | (Ok _, m2) => record_loop m2 envs
    end.

(** The [finally] block of [record]. *)
Definition record_finally (m : machine) : machine :=
  let m1 := match writer (self m) with
            | Some w => emit m (VideoWriter_release w)
            | None => m
            end in
  match cap (self m1) with
  | Some _ => emit m1 [EvCapRelease]
  | None => m1
  end.

Inductive thread_status : Type :=
| InLoop                       (* the worker has not left the loop *)
| Returned                     (* record() returned *)
| Uncaught (e : exception).    (* an exception left record() *)

(** [CameraProcess.record] *)
Definition record (m : machine) (c : capture) (chunk0 : chunk_env) (envs : list step_env)
    : thread_status * machine :=
  match record_try m c chunk0 envs with
  | (None, m') => (InLoop, m')
  | (Some (Ok _), m') => (Returned, record_finally m')
  | (Some (Raise e), m') =>
      if is_Exception e then
        (Returned,
         record_finally
           (emit m' [EvLog (ERROR, "Camera " +++ camera_id (self m')
                              +++ ": Recording error: " +++ exn_str e)]))
      else (Uncaught e, record_finally m')
  end.

(** [CameraProcess.stop] *)
Definition stop (s : CameraProcess) : CameraProcess := set_running s false.

(** ** MultiCameraSystem *)

(** The parsed configuration, for files whose values have the types the
    code expects (strings for names and paths, integers elsewhere); [None] is
    an absent key. *)
Record cam_config : Type := mk_cam_config {
  cfg_id : option string;
  cfg_device_id : option Z;
  cfg_max_storage_gb : option Z;
  cfg_chunk_duration_mins : option Z
}.

Record config : Type := mk_config {
  cfg_base_storage_dir : option string;
  cfg_cameras : option (list cam_config)
}.

Record MultiCameraSystem : Type := mk_system {
  config_file : string;
  cameras : list (string * CameraProcess);   (* a dict, in insertion order *)
  sys_running : bool
}.

(** [d[k] = v] *)
Fixpoint dict_set {V : Type} (d : list (string * V)) (k : string) (v : V) : list (string * V) :=
  match d with
  | [] => [(k, v)]
  | (k', v') :: d' => if String.eqb k' k then (k, v) :: d' else (k', v') :: dict_set d' k v
  end.

Definition py_get {A : Type} (o : option A) (default : A) : A :=
  match o with Some a => a | None => default end.

Definition py_index {A : Type} (o : option A) (key : string) : result A :=
  match o with Some a => Ok a | None => Raise (KeyError key) end.

(** The [for] loop of [load_config]. *)
Fixpoint load_cameras (mkdir_ok : string -> bool) (base_dir : string)
    (cams : list (string * CameraProcess)) (entries : list cam_config)
    : result (list (string * CameraProcess)) :=
  match entries with
  | [] => Ok cams
  | cam_config :: entries' =>
      let+ camera_id := py_index (cfg_id cam_config) "id" in
      let+ device_id := py_index (cfg_device_id cam_config) "device_id" in
      let+ c := CameraProcess_init mkdir_ok camera_id device_id base_dir
                  (py_get (cfg_max_storage_gb cam_config) 50)
                  (py_get (cfg_chunk_duration_mins cam_config) 60) in
      load_cameras mkdir_ok base_dir (dict_set cams camera_id c) entries'
  end.

(** [load_config]. [file] is what [open] and [json.load] produce: [None]
    when the file is missing or is not JSON. *)
Definition load_config (s : MultiCameraSystem) (mkdir_ok : string -> bool) (home : string)
    (file : option config) : result unit * MultiCameraSystem * trace :=
  let body :=
    let+ config := match file with
                   | Some c => Ok c
                   | None => Raise (IOError (config_file s))
                   end in
    let base_dir := py_get (cfg_base_storage_dir config)
                      (path_join home "Library/Application Support/SecurityCam") in
    let+ entries := py_index (cfg_cameras config) "cameras" in
    load_cameras mkdir_ok base_dir (cameras s) entries in
  match body with
  | Ok cams =>
      (Ok tt, {| config_file := config_file s; cameras := cams; sys_running := sys_running s |}, [])
  | Raise e =>
      if is_Exception e then
        (Raise (SystemExit 1), s,
         [EvLog (ERROR, "Failed to load config: " +++ exn_str e)])
      else (Raise e, s, [])
  end.

(** [MultiCameraSystem.__init__] *)
Definition MultiCameraSystem_init (config_file : string) (mkdir_ok : string -> bool)
    (home : string) (file : option config) : result unit * MultiCameraSystem * trace :=
  load_config {| config_file := config_file; cameras := []; sys_running := false |}
    mkdir_ok home file.

(** [signal_handler] *)
Definition signal_handler (s : MultiCameraSystem) : result unit * MultiCameraSystem * trace :=
  let cams := map (fun kc => (fst kc, stop (snd kc))) (cameras s) in
  (Raise (SystemExit 0),
   {| config_file := config_file s; cameras := cams; sys_running := false |},
   [EvLog (INFO, "Received shutdown signal")] ++ map (fun kc => EvStop (fst kc)) (cameras s)).

(** [while self.running: time.sleep(1)], with a signal delivered during the
    sleep that follows [k] complete ones. [None]: the main thread stays in the
    loop. *)
Fixpoint wait_loop (s : MultiCameraSystem) (k : nat)
    : option (result unit) * MultiCameraSystem * trace :=
  if sys_running s then
    match k with
    | O =>
        match signal_handler s with
        | (Raise e, s', tr) => (Some (Raise e), s', EvSleep :: tr)
        | (Ok _, s', tr) =>
            if sys_running s' then (None, s', EvSleep :: tr)
            else (Some (Ok tt), s', EvSleep :: tr)
        end
    | S k' =>
        let '(r, s', tr) := wait_loop s k' in
        (r, s', EvSleep :: tr)
    end
  else (Some (Ok tt), s, []).

(** [run]. [signal]: [Some k] when an interrupt or terminate signal arrives
    during the sleep after [k] complete ones, [None] when none arrives. *)
Definition run (s : MultiCameraSystem) (signal : option nat)
    : option (result unit) * MultiCameraSystem * trace :=
  let s1 := {| config_file := config_file s;
               cameras := map (fun kc => (fst kc, set_running (snd kc) true)) (cameras s);
               sys_running := true |} in
  let threads := map fst (cameras s1) in
  let started := map EvThreadStart threads in
  match signal with
  | None => (None, s1, started)
  | Some k =>
      match wait_loop s1 k with
      | (Some (Ok _), s2, tr) => (Some (Ok tt), s2, started ++ tr ++ map EvJoin threads)
      | (r, s2, tr) => (r, s2, started ++ tr)
      end
  end.

Inductive process_status : Type :=
| Exited (code : Z)
| Alive.            (* the main thread is in its wait loop *)

(** The script, without [--list-cameras]: construct the system, run it. An
    uncaught [SystemExit c] ends the interpreter with status [c], any other
    uncaught exception with status 1, the end of the script with 0. *)
Definition main (config_file : string) (mkdir_ok : string -> bool) (home : string)
    (file : option config) (signal : option nat) : process_status * trace :=
  match MultiCameraSystem_init config_file mkdir_ok home file with
  | (Raise (SystemExit c), _, tr) => (Exited c, tr ++ [EvExit c])
  | (Raise _, _, tr) => (Exited 1, tr ++ [EvExit 1])
  | (Ok _, system, tr) =>
      match run system signal with
      | (None, _, tr') => (Alive, tr ++ tr')
      | (Some (Ok _), _, tr') => (Exited 0, tr ++ tr' ++ [EvExit 0])
      | (Some (Raise (SystemExit c)), _, tr') => (Exited c, tr ++ tr' ++ [EvExit c])
      | (Some (Raise _), _, tr') => (Exited 1, tr ++ tr' ++ [EvExit 1])
      end
  end.

(** ** Observables used by the properties *)

(** Bytes held by an entry, and by the [*.mp4] entries of a directory. *)
Definition entry_size (e : dirent) : Z :=
  match d_stat e with
  | Some st => st_size st
  | None => 0
  end.

Definition disk_usage (d : directory) : Z :=
  fold_right Z.add 0 (map entry_size (filter is_mp4 d)).

(** The paths unlinked with success, in the order of the trace. *)
Fixpoint unlinked (tr : trace) : list string :=
  match tr with
  | [] => []
  | EvUnlink p true :: tr' => p :: unlinked tr'
  | _ :: tr' => unlinked tr'
  end.

(** A monitor reads a trace from a state and stops at the first event it
    refuses. *)
Fixpoint monitor {S : Type} (step : S -> event -> option S) (s : S) (tr : trace) : option S :=
  match tr with
  | [] => Some s
  | ev :: tr' =>
      match step s ev with
      | Some s' => monitor step s' tr'
      | None => None
      end
  end.

(** The identities of the writers that opened and are not released. *)
Definition open_step (open : list nat) (ev : event) : list nat :=
  match ev with
  | EvCv2Writer id _ _ true => id :: open
  | EvWriterRelease id => filter (fun i => negb (Nat.eqb i id)) open
  | _ => open
  end.

Definition open_writers (tr : trace) : list nat := fold_left open_step tr [].

(** Refuses an event after which two writers are open. *)
Definition one_open_step (open : list nat) (ev : event) : option (list nat) :=
  let open' := open_step open ev in
  if (List.length open' <=? 1)%nat then Some open' else None.

Definition is_chunk_start (ev : event) : bool :=
  match ev with EvCv2Writer _ _ _ _ => true | _ => false end.

(** Refuses [EvCleanup] unless the event before it is the creation of a
    writer; the state tells whether the last event was one. *)
Definition cleanup_step (after_chunk : bool) (ev : event) : option bool :=
  match ev with
  | EvCleanup => if after_chunk then Some false else None
  | _ => Some (is_chunk_start ev)
  end.

Definition is_cap_release (ev : event) : bool :=
  match ev with EvCapRelease => true | _ => false end.

Definition is_release_of (id : nat) (ev : event) : bool :=
  match ev with EvWriterRelease id' => Nat.eqb id' id | _ => false end.

(** The first [cv2.VideoWriter] call of a [VideoWriter] object uses mp4v. *)
Definition is_creation_of (id : nat) (ev : event) : bool :=
  match ev with EvCv2Writer id' _ mp4v _ => Nat.eqb id' id | _ => false end.

Definition count (p : event -> bool) (tr : trace) : nat := List.length (filter p tr).

Definition is_thread_start (ev : event) : bool :=
  match ev with EvThreadStart _ => true | _ => false end.

Definition is_join (ev : event) : bool :=
  match ev with EvJoin _ => true | _ => false end.

(** The order of the decorated list in [sorted], and its reading on the
    elements: [a] sorts no later than [b] under [key]. *)
Definition key_le {A : Type} (a b : Z * A) : Prop := fst a <= fst b.

Definition key_before {A : Type} (key : A -> result Z) (a b : A) : Prop :=
  exists ka kb, key a = Ok ka /\ key b = Ok kb /\ ka <= kb.

(** The directory after the entries called [ns] are removed one by one. *)
Definition remove_names (ns : list string) (d : directory) : directory :=
  fold_left (fun d' n => remove_entry n d') ns d.

(** The size [stat] reports for a name. *)
Definition size_of (d : directory) (n : string) : Z :=
  match lookup n d with
  | Some e => entry_size e
  | None => 0
  end.

Definition zsum (l : list Z) : Z := fold_right Z.add 0 l.

(** A deletion that failed. *)
Definition is_failed_unlink (ev : event) : bool :=
  match ev with EvUnlink _ false => true | _ => false end.

(** The worker as [run] starts it: the object of [CameraProcess.__init__],
    no event yet. *)
Definition fresh (s : CameraProcess) : machine :=
  {| self := s; next_oid := 0; events := [] |}.


Definition is_cleanup (ev : event) : bool :=
  match ev with EvCleanup => true | _ => false end.

(** Events that create or release nothing and start no eviction. *)
Definition is_neutral (ev : event) : bool :=
  match ev with
  | EvCv2Writer _ _ _ _ | EvWriterRelease _ | EvCapRelease | EvCleanup => false
  | _ => true
  end.

(** Events of the file system and the log. *)
Definition is_fs_event (ev : event) : bool :=
  match ev with
  | EvLog _ | EvUnlink _ _ => true
  | _ => false
  end.

Definition open_of (w : option VideoWriter) : list nat :=
  match w with
  | Some w => if cv_opened (vw_writer w) then [vw_id w] else []
  | None => []
  end.

Definition is_current (id : nat) (w : option VideoWriter) : bool :=
  match w with
  | Some w => Nat.eqb (vw_id w) id
  | None => false
  end.

(** What holds of the worker between two steps of [record], from the
    creation of the capture handle to the [finally] block. *)
Record worker_inv (m : machine) : Prop := mk_worker_inv {
  inv_open : monitor one_open_step [] (events m) = Some (open_of (writer (self m)));
  inv_cleanup : exists b, monitor cleanup_step false (events m) = Some b;
  inv_cap_held : exists c, cap (self m) = Some c;
  inv_cap_release : count is_cap_release (events m) = 0%nat;
  inv_created : forall id,
      count (is_creation_of id) (events m) = if (id <? next_oid m)%nat then 1%nat else 0%nat;
  inv_released : forall id,
      count (is_release_of id) (events m)
      = if ((id <? next_oid m)%nat && negb (is_current id (writer (self m))))%bool
        then 1%nat else 0%nat;
  inv_fresh : forall w, writer (self m) = Some w -> (vw_id w < next_oid m)%nat
}.

(** ** Concrete runs *)

Definition GiB : Z := 1024 * 1024 * 1024.

(** A clock reading of a whole number of seconds. *)
Definition seconds (n : Z) : float :=
  if n <? 0 then PrimFloat.opp (PrimFloat.of_uint63 (Uint63Axioms.of_Z (- n)))
  else PrimFloat.of_uint63 (Uint63Axioms.of_Z n).

(** A camera with [max_storage_gb = 1] in the middle of a recording. *)
Definition ex_camera : CameraProcess :=
  {| camera_id := "cam1"; device_id := 0; storage_dir := "/video/cam1";
     max_storage_bytes := 1 * 1024 * 1024 * 1024; chunk_duration_mins := 60;
     cap := Some (mk_capture true 640 480 30); writer := None;
     current_file := Some "/video/cam1/2024-01-01_10-00-00.mp4";
     chunk_start_time := Some (seconds 36000); running := true |}.

Definition regular (name : string) (mtime size : Z) : dirent :=
  {| d_name := name; d_stat := Some (mk_stat mtime size); d_unlink_ok := true |}.

Definition ex_previous : dirent := regular "2024-01-01_09-00-00.mp4" 36000 (3 * GiB / 2).

(** The active chunk, larger than the quota. *)
Definition ex_active : dirent := regular "2024-01-01_10-00-00.mp4" 39600 (2 * GiB).

(** The active chunk just after a rotation. *)
Definition ex_active_small : dirent := regular "2024-01-01_10-00-00.mp4" 36001 4096.

(** The active chunk just after a rotation, with the modification time of
    the chunk that was closed the instant before. *)
Definition ex_active_tied : dirent := regular "2024-01-01_10-00-00.mp4" 36000 4096.

(** Three finalized chunks of 0.4 GiB and a file that is not a chunk. *)
Definition ex_chunks : directory :=
  [regular "c.mp4" 3 (2 * GiB / 5); regular "a.mp4" 1 (2 * GiB / 5);
   regular "notes.txt" 0 (5 * GiB); regular "b.mp4" 2 (2 * GiB / 5)].

(** Three chunks of 0.6 GiB, the oldest of which cannot be deleted. *)
Definition ex_locked : dirent :=
  {| d_name := "a.mp4"; d_stat := Some (mk_stat 1 (3 * GiB / 5)); d_unlink_ok := false |}.

Definition ex_locked_dir : directory :=
  [ex_locked; regular "b.mp4" 2 (3 * GiB / 5); regular "c.mp4" 3 (3 * GiB / 5)].

(** The worker object as [load_config] and [run] leave it. *)
Definition ex_worker : CameraProcess :=
  {| camera_id := "cam1"; device_id := 0; storage_dir := "/video/cam1";
     max_storage_bytes := 50 * 1024 * 1024 * 1024; chunk_duration_mins := 60;
     cap := None; writer := None; current_file := None;
     chunk_start_time := None; running := true |}.

Definition ex_capture : capture := mk_capture true 640 480 30.

Definition ex_chunk (timestamp : string) (mp4v_ok mjpg_ok : bool) (now : Z) : chunk_env :=
  {| ce_timestamp := timestamp; ce_mp4v_ok := mp4v_ok; ce_mjpg_ok := mjpg_ok;
     ce_now := seconds now |}.

(** An iteration that finds [running] set and reads frame [f] at time [now]. *)
Definition ex_frame (f : frame) (o : write_outcome) (now : Z) : step_env :=
  {| se_running := true; se_read := Some f; se_write := o; se_now := seconds now;
     se_chunk := ex_chunk "2024-01-01_11-00-01" true true now; se_dir := ex_chunks |}.

(** An iteration that finds [running] cleared. *)
Definition ex_stop : step_env :=
  {| se_running := false; se_read := None; se_write := Written; se_now := seconds 0;
     se_chunk := ex_chunk "" true true 0; se_dir := [] |}.

(** A worker whose writer opened, between two iterations. *)
Definition ex_machine : machine :=
  snd (start_new_chunk
         (set_self (fresh ex_worker) (set_cap ex_worker (Some ex_capture)))
         (ex_chunk "2024-01-01_10-00-00" true true 36000)).

Definition ex_config (cams : list cam_config) : option config :=
  Some {| cfg_base_storage_dir := Some "/video"; cfg_cameras := Some cams |}.

(** ** Observables of the worker's protocol *)

(** The frames handed to [writer.write], in the order of the trace. *)
Fixpoint frames_written (tr : trace) : list frame :=
  match tr with
  | [] => []
  | EvWrite _ f _ :: tr' => f :: frames_written tr'
  | _ :: tr' => frames_written tr'
  end.

Definition is_failed_read (ev : event) : bool :=
  match ev with EvRead false => true | _ => false end.

(** The creation of a [VideoWriter] object, or the release of one. *)
Definition is_writer_change (ev : event) : bool :=
  match ev with
  | EvCv2Writer _ _ mp4v _ | EvWriterRelease _ => true
  | _ => false
  end.

(** Follows the writer that is created and not released, and refuses a
    write to any other. *)
Definition write_step (cur : option nat) (ev : event) : option (option nat) :=
  match ev with
  | EvCv2Writer id _ mp4v _ => Some (Some id)
  | EvWriterRelease _ => Some None
  | EvWrite id _ _ =>
      match cur with
      | Some id' => if Nat.eqb id' id then Some cur else None
      | None => None
      end
  | _ => Some cur
  end.

(** What holds of the worker at each test of [while self.running]. *)
Record loop_inv (m : machine) : Prop := mk_loop_inv {
  li_writer : exists w, writer (self m) = Some w /\
                        monitor write_step None (events m) = Some (Some (vw_id w));
  li_cap : exists c, cap (self m) = Some c;
  li_start : exists t, chunk_start_time (self m) = Some t;
  li_reads : Forall (fun ev => is_failed_read ev = false) (events m)
}.

(** ** Reading the cameras dict *)

(** [d.get(k)] *)
Fixpoint dict_get {V : Type} (d : list (string * V)) (k : string) : option V :=
  match d with
  | [] => None
  | (k', v) :: d' => if String.eqb k' k then Some v else dict_get d' k
  end.

(** The entry carries the id [k]. *)
Definition has_id (k : string) (e : cam_config) : bool :=
  match cfg_id e with
  | Some k' => String.eqb k' k
  | None => false
  end.

(** An entry [load_config] cannot turn into a worker. *)
Definition bad_entry (mkdir_ok : string -> bool) (base_dir : string) (e : cam_config) : Prop :=
  match cfg_id e with
  | None => True
  | Some k => cfg_device_id e = None \/ mkdir_ok (path_join base_dir k) = false
  end.

(** ** list_available_cameras *)

(** What [cv2.VideoCapture(index)] gives: whether it opened, and whether a
    first [read()] returns a frame. *)
Record device : Type := mk_device {
  dev_opened : bool;
  dev_readable : bool
}.

(** The [while True] loop of [list_available_cameras], for at most [fuel]
    probes. [None]: the loop is still probing. *)
Fixpoint probe_cameras (probe : Z -> device) (fuel : nat) (index : Z)
    (available_cameras : list Z) (tr : trace) : option (list Z) * trace :=
  match fuel with
  | O => (None, tr)
  | S fuel' =>
      let cap := probe index in
      let tr1 := tr ++ [EvCapture index (dev_opened cap)] in
      if negb (dev_opened cap) then (Some available_cameras, tr1)
      else
        let tr2 := tr1 ++ [EvRead (dev_readable cap)] in
        let available_cameras' :=
          if dev_readable cap then available_cameras ++ [index] else available_cameras in
        probe_cameras probe fuel' (index + 1) available_cameras' (tr2 ++ [EvCapRelease])
  end.

Definition list_available_cameras (probe : Z -> device) (fuel : nat)
    : option (list Z) * trace :=
  probe_cameras probe fuel 0 [] [].

(** The [--list-cameras] branch of the script: the lines printed and the
    exit status. *)
Definition main_list_cameras (probe : Z -> device) (fuel : nat)
    : option (list string * Z) :=
  match fst (list_available_cameras probe fuel) with
  | None => None
  | Some cameras =>
      Some ("Available cameras:"
            :: map (fun idx => "Camera ID: " +++ NilZero.string_of_int (Z.to_int idx)) cameras,
            0)
  end.

(** The capture events of a trace, as the indices probed. *)
Fixpoint probed (tr : trace) : list Z :=
  match tr with
  | [] => []
  | EvCapture index _ :: tr' => index :: probed tr'
  | _ :: tr' => probed tr'
  end.

(** ** raspi_serial.py: the servo command *)

(** Characters are code points below 256; [str.isspace] on that range. *)
Definition isspace (c : ascii) : bool :=
  let n := nat_of_ascii c in
  ((9 <=? n) && (n <=? 13) || (28 <=? n) && (n <=? 32)
   || (n =? 133) || (n =? 160))%nat%bool.

Fixpoint lstrip (s : string) : string :=
  match s with
  | EmptyString => EmptyString
  | String c s' => if isspace c then lstrip s' else s
  end.

Fixpoint rstrip (s : string) : string :=
  match s with
  | EmptyString => EmptyString
  | String c s' =>
      match rstrip s' with
      | EmptyString => if isspace c then EmptyString else String c EmptyString
      | r => String c r
      end
  end.

(** [s.strip()] *)
Definition strip (s : string) : string := rstrip (lstrip s).

(** [n * s] for a string: empty when [n <= 0]. *)
Definition py_repeat (n : Z) (s : string) : string :=
  String.concat "" (repeat s (Z.to_nat n)).

(** [(3 - len(sub_command))*'0' + sub_command] *)
Definition zero_pad (sub_command : string) : string :=
  py_repeat (3 - Z.of_nat (String.length sub_command)) "0" +++ sub_command.

(** One pass of the [while True] loop, from the line typed for the step
    delay and the lines typed for the servos, to the command written to the
    port. *)
Definition servo_command (step_delay : string) (servos : list string) : string :=
  fold_left (fun command line => (command +++ zero_pad (strip line)) +++ " ")
    servos (strip step_delay +++ " ").

(** [command.encode('ascii')]: [None] stands for [UnicodeEncodeError]. *)
Fixpoint encode_ascii (s : string) : option (list Byte.byte) :=
  match s with
  | EmptyString => Some []
  | String c s' =>
      if (nat_of_ascii c <? 128)%nat then
        match encode_ascii s' with
        | Some bs => Some (byte_of_ascii c :: bs)
        | None => None
        end
      else None
  end.


(** Every character is below 128. *)
Fixpoint all_ascii (s : string) : bool :=
  match s with
  | EmptyString => true
  | String c s' => (nat_of_ascii c <? 128)%nat && all_ascii s'
  end.

(** ** Further concrete data *)

(** A chunk another process removed between [glob] and [stat]. *)
Definition ex_unreadable : dirent :=
  {| d_name := "gone.mp4"; d_stat := None; d_unlink_ok := true |}.

(** A camera configured with [max_storage_gb = 0]. *)
Definition ex_no_quota : CameraProcess :=
  {| camera_id := "cam1"; device_id := 0; storage_dir := "/video/cam1";
     max_storage_bytes := 0 * 1024 * 1024 * 1024; chunk_duration_mins := 60;
     cap := Some (mk_capture true 640 480 30); writer := None;
     current_file := Some "/video/cam1/2024-01-01_10-00-00.mp4";
     chunk_start_time := Some (seconds 36000); running := true |}.

(** A device that does not open. *)
Definition ex_absent : capture := mk_capture false 0 0 0.

(** An iteration that finds [running] set and whose read fails. *)
Definition ex_failed_read (now : Z) : step_env :=
  {| se_running := true; se_read := None; se_write := Written; se_now := seconds now;
     se_chunk := ex_chunk "2024-01-01_11-00-01" true true now; se_dir := ex_chunks |}.

(** An entry of the [cameras] list with the two required keys only. *)
Definition ex_entry (id : string) (device : Z) : cam_config :=
  {| cfg_id := Some id; cfg_device_id := Some device;
     cfg_max_storage_gb := None; cfg_chunk_duration_mins := None |}.

(** An entry without [device_id]. *)
Definition ex_entry_no_device (id : string) : cam_config :=
  {| cfg_id := Some id; cfg_device_id := None;
     cfg_max_storage_gb := None; cfg_chunk_duration_mins := None |}.

(** Two devices: index 0 gives frames, index 1 opens but gives none. *)
Definition ex_probe (index : Z) : device :=
  {| dev_opened := index <? 2; dev_readable := index =? 0 |}.

(** The lines typed for the command of the comment in the script. *)
Definition ex_servo_lines : list string := ["90"; "90"; "90"; "90"; "90"; "73"].

(** ** Well-formed paths *)

(** The string has no separator. *)
Fixpoint no_sep (s : string) : bool :=
  match s with
  | EmptyString => true
  | String c s' => negb (Ascii.eqb c "/") && no_sep s'
  end.

(** What a parsed path is made of: one of the three roots, and components
    that are names. *)
Definition path_wf (p : PurePath) : Prop :=
  (path_root p = "" \/ path_root p = "/" \/ path_root p = "//") /\
  Forall (fun x => is_part x = true /\ no_sep x = true) (path_parts p).
(** * Properties *)

(** ** Directories *)

Lemma lookup_some (n : string) (d : directory) (e : dirent) :
  lookup n d = Some e -> In e d /\ d_name e = n.
Proof.
  induction d as [|x d IH]; simpl; [discriminate|].
  destruct (String.eqb_spec (d_name x) n) as [E|E].
  - intros H; inversion H; subst; auto.
  - intros H; destruct (IH H); auto.
Qed.

Lemma lookup_nodup (d : directory) (e : dirent) :
  NoDup (map d_name d) -> In e d -> lookup (d_name e) d = Some e.
Proof.
  induction d as [|x d IH]; simpl; [tauto|].
  intros Hnd [->|Hin].
  - now rewrite String.eqb_refl.
  - inversion Hnd as [|? ? Hx Hd]; subst.
    destruct (String.eqb_spec (d_name x) (d_name e)) as [E|E]; [|auto].
    exfalso; apply Hx; rewrite E; now apply in_map.
Qed.

Lemma lookup_remove_other (n m : string) (d : directory) :
  m <> n -> lookup m (remove_entry n d) = lookup m d.
Proof.
  intros Hne; unfold remove_entry.
  induction d as [|x d IH]; simpl; [reflexivity|].
  destruct (String.eqb_spec (d_name x) n) as [E|E]; simpl.
  - destruct (String.eqb_spec (d_name x) m) as [E'|E']; [congruence|exact IH].
  - destruct (String.eqb (d_name x) m); [reflexivity|exact IH].
Qed.

Lemma remove_entry_in (n : string) (d : directory) (e : dirent) :
  In e (remove_entry n d) <-> In e d /\ d_name e <> n.
Proof.
  unfold remove_entry; rewrite filter_In.
  destruct (String.eqb_spec (d_name e) n); simpl; intuition congruence.
Qed.

(** Dropping entries keeps the names of a directory distinct. *)
Lemma names_nodup_filter (keep : dirent -> bool) (d : directory) :
  NoDup (map d_name d) -> NoDup (map d_name (filter keep d)).
Proof.
  induction d as [|e d IH]; intros Hnd; [exact Hnd|].
  apply NoDup_cons_iff in Hnd as [Hfresh Hrest].
  cbn [filter]. destruct (keep e); [|exact (IH Hrest)].
  cbn [map]. apply NoDup_cons; [|exact (IH Hrest)].
  contradict Hfresh.
  apply in_map_iff in Hfresh as (e' & Hname & Hin).
  apply filter_In in Hin. rewrite <- Hname. apply in_map, Hin.
Qed.

Lemma lookup_filter_mp4 (n : string) (d : directory) :
  fnmatch_star ".mp4" n = true -> lookup n (filter is_mp4 d) = lookup n d.
Proof.
  intros Hn; induction d as [|x d IH]; simpl; [reflexivity|].
  destruct (is_mp4 x) eqn:Hx; simpl.
  - now rewrite IH.
  - destruct (String.eqb_spec (d_name x) n) as [E|E]; [|exact IH].
    unfold is_mp4 in Hx; congruence.
Qed.

Lemma filter_comm {A : Type} (p q : A -> bool) (l : list A) :
  filter p (filter q l) = filter q (filter p l).
Proof.
  induction l as [|x l IH]; simpl; [reflexivity|].
  destruct (p x) eqn:Hp, (q x) eqn:Hq; simpl; rewrite ?Hp, ?Hq, IH; reflexivity.
Qed.

Lemma filter_idem {A : Type} (p : A -> bool) (l : list A) :
  filter p (filter p l) = filter p l.
Proof.
  induction l as [|x l IH]; simpl; [reflexivity|].
  destruct (p x) eqn:Hp; simpl; rewrite ?Hp, IH; reflexivity.
Qed.

(** ** Sorting *)

Lemma insert_by_perm {A : Type} (x : Z * A) (l : list (Z * A)) :
  Permutation (insert_by x l) (x :: l).
Proof.
  induction l as [|y l IH]; simpl; [reflexivity|].
  destruct (fst x <=? fst y); [reflexivity|].
  rewrite IH; apply perm_swap.
Qed.

Lemma sort_by_perm {A : Type} (l : list (Z * A)) : Permutation (sort_by l) l.
Proof.
  induction l as [|x l IH]; simpl; [reflexivity|].
  unfold sort_by in *; simpl.
  rewrite insert_by_perm; now constructor.
Qed.

Lemma insert_by_sorted {A : Type} (x : Z * A) (l : list (Z * A)) :
  StronglySorted key_le l -> StronglySorted key_le (insert_by x l).
Proof.
  induction 1 as [|y l Hl IH Hy]; simpl.
  - repeat constructor.
  - destruct (Z.leb_spec (fst x) (fst y)) as [Hle|Hgt].
    + constructor; [constructor; assumption|].
      constructor; [exact Hle|].
      eapply Forall_impl; [|exact Hy].
      unfold key_le; intros; lia.
    + constructor; [exact IH|].
      assert (Hp := insert_by_perm x l).
      eapply Permutation_Forall; [symmetry; exact Hp|].
      constructor; [unfold key_le; lia|exact Hy].
Qed.

Lemma sort_by_sorted {A : Type} (l : list (Z * A)) : StronglySorted key_le (sort_by l).
Proof.
  induction l as [|x l IH]; simpl; [constructor|].
  apply insert_by_sorted, IH.
Qed.

Lemma decorate_ok {A K : Type} (key : A -> result K) (xs : list A) (ks : list (K * A)) :
  decorate key xs = Ok ks ->
  map snd ks = xs /\ Forall (fun p => key (snd p) = Ok (fst p)) ks.
Proof.
  revert ks; induction xs as [|x xs IH]; simpl; intros ks H.
  - inversion H; auto.
  - destruct (key x) as [k|] eqn:Hk; simpl in H; [|discriminate].
    destruct (decorate key xs) as [r|]; simpl in H; [|discriminate].
    inversion H; subst; simpl.
    destruct (IH r eq_refl) as [-> HF]; auto.
Qed.

Lemma decorate_ext {A K : Type} (f g : A -> result K) (xs : list A) :
  (forall x, In x xs -> f x = g x) -> decorate f xs = decorate g xs.
Proof.
  induction xs as [|x xs IH]; simpl; intros H; [reflexivity|].
  rewrite (H x), IH by auto; reflexivity.
Qed.

Lemma sum_of_ext {A : Type} (f g : A -> result Z) (xs : list A) :
  (forall x, In x xs -> f x = g x) -> sum_of f xs = sum_of g xs.
Proof.
  induction xs as [|x xs IH]; simpl; intros H; [reflexivity|].
  rewrite (H x), IH by auto; reflexivity.
Qed.

Lemma sorted_spec {A : Type} (key : A -> result Z) (xs l : list A) :
  sorted key xs = Ok l ->
  Permutation l xs /\ StronglySorted (key_before key) l.
Proof.
  unfold sorted; intros H.
  destruct (decorate key xs) as [ks|] eqn:Hd; simpl in H; [|discriminate].
  inversion H; subst; clear H.
  destruct (decorate_ok _ _ _ Hd) as [Hm HF].
  split.
  - rewrite <- Hm; apply Permutation_map, sort_by_perm.
  - assert (HF' : Forall (fun p => key (snd p) = Ok (fst p)) (sort_by ks))
      by (eapply Permutation_Forall; [symmetry; apply sort_by_perm|exact HF]).
    assert (HS := sort_by_sorted ks).
    induction HS as [|p s Hs IH Hp]; simpl; [constructor|].
    inversion HF' as [|? ? Hkp HFs]; subst.
    constructor; [auto|].
    apply Forall_map.
    rewrite Forall_forall in *; intros q Hq.
    exists (fst p), (fst q); repeat split; auto.
    apply (Hp q Hq).
Qed.

Lemma sorted_split {A : Type} (R : A -> A -> Prop) (l1 l2 : list A) (a b : A) :
  StronglySorted R (l1 ++ l2) -> In a l1 -> In b l2 -> R a b.
Proof.
  induction l1 as [|x l1 IH]; simpl; [tauto|].
  intros HS [->|Ha] Hb; inversion HS as [|? ? Hs HF]; subst.
  - rewrite Forall_forall in HF; apply HF, in_or_app; auto.
  - auto.
Qed.

Lemma in_firstn {A : Type} (k : nat) (l : list A) (x : A) : In x (firstn k l) -> In x l.
Proof. intros H; rewrite <- (firstn_skipn k l); apply in_or_app; auto. Qed.

Lemma in_skipn {A : Type} (k : nat) (l : list A) (x : A) : In x (skipn k l) -> In x l.
Proof. intros H; rewrite <- (firstn_skipn k l); apply in_or_app; auto. Qed.

Lemma sorted_prefix {A : Type} (R : A -> A -> Prop) (l1 l2 : list A) :
  StronglySorted R (l1 ++ l2) -> StronglySorted R l1.
Proof.
  induction l1 as [|x l1 IH]; simpl; intros H; [constructor|].
  inversion H as [|? ? Hs HF]; subst.
  constructor; [auto|].
  apply Forall_app in HF; tauto.
Qed.

Lemma filter_none {A : Type} (p : A -> bool) (l : list A) :
  (forall x, In x l -> p x = false) -> filter p l = [].
Proof.
  induction l as [|x l IH]; simpl; intros H; [reflexivity|].
  rewrite (H x) by auto. apply IH; auto.
Qed.

Lemma remove_entry_absent (n : string) (d : directory) :
  ~ In n (map d_name d) -> remove_entry n d = d.
Proof.
  unfold remove_entry; induction d as [|x d IH]; simpl; intros H; [reflexivity|].
  destruct (String.eqb_spec (d_name x) n) as [E|E]; simpl.
  - exfalso; auto.
  - f_equal; apply IH; tauto.
Qed.

Lemma decorate_total {A K : Type} (key : A -> result K) (xs : list A) :
  (forall x, In x xs -> exists k, key x = Ok k) -> exists ks, decorate key xs = Ok ks.
Proof.
  induction xs as [|x xs IH]; simpl; intros H; [eauto|].
  destruct (H x (or_introl eq_refl)) as [k ->]; simpl.
  destruct IH as [ks ->]; [intros; apply H; auto|]. simpl; eauto.
Qed.

Lemma sum_of_total {A : Type} (f : A -> result Z) (xs : list A) :
  (forall x, In x xs -> exists v, f x = Ok v) -> exists t, sum_of f xs = Ok t.
Proof.
  induction xs as [|x xs IH]; simpl; intros H; [eauto|].
  destruct (H x (or_introl eq_refl)) as [v ->]; simpl.
  destruct IH as [t ->]; [intros; apply H; auto|]. simpl; eauto.
Qed.

(** ** The eviction loop *)

Lemma unlinked_app (a b : trace) : unlinked (a ++ b) = unlinked a ++ unlinked b.
Proof.
  induction a as [|ev a IH]; simpl; [reflexivity|].
  destruct ev; simpl; auto.
  destruct ok; simpl; [f_equal|]; exact IH.
Qed.

Lemma remove_names_in (ns : list string) (d : directory) (e : dirent) :
  In e (remove_names ns d) <-> In e d /\ ~ In (d_name e) ns.
Proof.
  unfold remove_names; revert d; induction ns as [|n ns IH]; simpl; intros d.
  - tauto.
  - rewrite IH, remove_entry_in. intuition congruence.
Qed.

Lemma stat_size (sd : string) (d : directory) (n : string) (st : stat_result) :
  stat sd d n = Ok st -> size_of d n = st_size st.
Proof.
  unfold stat, size_of, entry_size.
  destruct (lookup n d) as [e|]; [|discriminate].
  destruct (d_stat e); [|discriminate].
  now intros H; inversion H.
Qed.

Lemma unlink_ok (sd : string) (d d' : directory) (n : string) :
  unlink sd d n = Ok d' -> d' = remove_entry n d.
Proof.
  unfold unlink.
  destruct (lookup n d) as [e|]; [|discriminate].
  destruct (d_unlink_ok e); [|discriminate].
  now intros H; inversion H.
Qed.

(** The loop deletes a prefix of its list, in the order of the list. *)
Lemma evict_loop_prefix (self : CameraProcess) (l : list string) :
  forall total d tr out d' tr',
    evict_loop self total l d tr = (out, d', tr') ->
    exists k, (k <= List.length l)%nat /\
      d' = remove_names (firstn k l) d /\
      unlinked tr' = unlinked tr ++ map (path_join (storage_dir self)) (firstn k l).
Proof.
  induction l as [|n l IH]; simpl; intros total d tr out d' tr' H.
  - inversion H; subst. exists 0%nat; simpl. now rewrite app_nil_r.
  - destruct (total >? max_storage_bytes self).
    2:{ inversion H; subst. exists 0%nat; simpl. rewrite app_nil_r. split; [lia|auto]. }
    destruct (stat (storage_dir self) d n) as [st|e].
    2:{ inversion H; subst. exists 0%nat; simpl. rewrite app_nil_r. split; [lia|auto]. }
    destruct (unlink (storage_dir self) d n) as [d1|e] eqn:Hu.
    + apply IH in H as (k & Hk & Hd & Ht).
      apply unlink_ok in Hu; subst d1.
      exists (S k); simpl. split; [lia|]. split; [exact Hd|].
      rewrite Ht, !unlinked_app; simpl. now rewrite app_nil_r, <- app_assoc.
    + inversion H; subst. exists 0%nat; simpl.
      rewrite !unlinked_app; simpl. rewrite !app_nil_r. split; [lia|auto].
Qed.

(** What [stat] and [unlink] answer for the names of a list that has no
    duplicates is not changed by removing its head. *)
Lemma size_of_remove (n m : string) (d : directory) :
  m <> n -> size_of (remove_entry n d) m = size_of d m.
Proof. intros H; unfold size_of; now rewrite lookup_remove_other. Qed.

Lemma zsum_map_ext_in {A : Type} (f g : A -> Z) (l : list A) :
  (forall x, In x l -> f x = g x) -> zsum (map f l) = zsum (map g l).
Proof. intros H; f_equal; now apply map_ext_in. Qed.

Lemma zsum_perm (l l' : list Z) : Permutation l l' -> zsum l = zsum l'.
Proof. unfold zsum; induction 1; simpl; lia. Qed.

Lemma sum_of_sizes (sd : string) (d : directory) (l : list string) (t : Z) :
  sum_of (fun f => let+ s := stat sd d f in Ok (st_size s)) l = Ok t ->
  t = zsum (map (size_of d) l).
Proof.
  revert t; induction l as [|n l IH]; simpl; intros t H.
  - now inversion H.
  - destruct (stat sd d n) as [st|] eqn:Hs; simpl in H; [|discriminate].
    destruct (sum_of _ l) as [s|]; simpl in H; [|discriminate].
    inversion H; subst. rewrite (stat_size _ _ _ _ Hs), (IH s eq_refl). reflexivity.
Qed.

(** The last name of the list survives when its own size fits the quota:
    the running total is the size of what is left in the list. *)
Lemma evict_loop_keeps_last (self : CameraProcess) (n : string) (a : dirent) (l : list string) :
  forall total d tr,
    NoDup (l ++ [n]) ->
    total = zsum (map (size_of d) (l ++ [n])) ->
    size_of d n <= max_storage_bytes self ->
    In a d -> d_name a = n ->
    In a (snd (fst (evict_loop self total (l ++ [n]) d tr))).
Proof.
  induction l as [|x l IH]; simpl; intros total d tr Hnd Ht Hsz Ha Hn.
  - destruct (Z.gtb_spec total (max_storage_bytes self)) as [Hgt|]; [|exact Ha].
    unfold zsum in Ht; simpl in Ht; lia.
  - destruct (total >? max_storage_bytes self); [|exact Ha].
    destruct (stat (storage_dir self) d x) as [st|e] eqn:Hs; [|exact Ha].
    destruct (unlink (storage_dir self) d x) as [d1|e] eqn:Hu; [|exact Ha].
    apply unlink_ok in Hu; subst d1.
    inversion Hnd as [|? ? Hx Hl]; subst.
    assert (Hne : forall m, In m (l ++ [d_name a]) -> m <> x) by (intros m Hm ->; auto).
    apply IH; auto.
    + rewrite (zsum_map_ext_in (size_of (remove_entry x d)) (size_of d)).
      * rewrite (stat_size _ _ _ _ Hs). unfold zsum; simpl. unfold zsum. lia.
      * intros m Hm; apply size_of_remove, Hne, Hm.
    + rewrite size_of_remove; [exact Hsz|]. apply Hne, in_or_app; simpl; auto.
    + apply remove_entry_in; split; [exact Ha|]. apply Hne, in_or_app; simpl; auto.
Qed.

(** ** cleanup_old_files *)

Lemma glob_mp4_in (d : directory) (n : string) :
  In n (glob_mp4 d) <-> exists e, In e d /\ is_mp4 e = true /\ d_name e = n.
Proof.
  unfold glob_mp4; rewrite in_map_iff; split.
  - intros (e & Hn & He). apply filter_In in He as [He Hm]. eauto.
  - intros (e & He & Hm & Hn). exists e; split; [exact Hn|]. now apply filter_In.
Qed.

Lemma glob_mp4_nodup (d : directory) : NoDup (map d_name d) -> NoDup (glob_mp4 d).
Proof. apply names_nodup_filter. Qed.

Lemma mtime_key (sd : string) (d : directory) (e : dirent) (k : Z) :
  NoDup (map d_name d) -> In e d ->
  (let+ s := stat sd d (d_name e) in Ok (st_mtime s)) = Ok k ->
  exists st, d_stat e = Some st /\ st_mtime st = k.
Proof.
  intros Hnd He; unfold stat. rewrite (lookup_nodup _ _ Hnd He).
  destruct (d_stat e) as [st|]; simpl; [|discriminate].
  intros H; inversion H; eauto.
Qed.

(** A pass whose listing and sum succeed leaves what its loop leaves. *)
Lemma cleanup_run (self : CameraProcess) (d : directory) (tr : trace)
    (l : list string) (total : Z) :
  sorted (fun x => let+ s := stat (storage_dir self) d x in Ok (st_mtime s)) (glob_mp4 d) = Ok l ->
  sum_of (fun f => let+ s := stat (storage_dir self) d f in Ok (st_size s)) l = Ok total ->
  fst (cleanup_old_files self d tr)
  = snd (fst (evict_loop self total l d (tr ++ [EvCleanup]))) /\
  unlinked (snd (cleanup_old_files self d tr))
  = unlinked (snd (evict_loop self total l d (tr ++ [EvCleanup]))).
Proof.
  intros Hl Ht. unfold cleanup_old_files, cleanup_body. rewrite Hl, Ht.
  destruct (evict_loop self total l d (tr ++ [EvCleanup])) as [[[u|e] d'] tr']; simpl;
    split; try reflexivity.
  rewrite unlinked_app; simpl. now rewrite app_nil_r.
Qed.

(** Otherwise it leaves the directory as it found it. *)
Lemma cleanup_dir_cases (self : CameraProcess) (d : directory) (tr : trace) :
  fst (cleanup_old_files self d tr) = d \/
  exists l total,
    sorted (fun x => let+ s := stat (storage_dir self) d x in Ok (st_mtime s)) (glob_mp4 d) = Ok l /\
    sum_of (fun f => let+ s := stat (storage_dir self) d f in Ok (st_size s)) l = Ok total /\
    fst (cleanup_old_files self d tr)
    = snd (fst (evict_loop self total l d (tr ++ [EvCleanup]))).
Proof.
  destruct (sorted (fun x => let+ s := stat (storage_dir self) d x in Ok (st_mtime s))
              (glob_mp4 d)) as [l|e] eqn:Hl.
  - destruct (sum_of (fun f => let+ s := stat (storage_dir self) d f in Ok (st_size s)) l)
      as [total|e] eqn:Ht.
    + right; exists l, total. split; [reflexivity|]. split; [exact Ht|].
      apply (cleanup_run self d tr l total Hl Ht).
    + left. unfold cleanup_old_files, cleanup_body. now rewrite Hl, Ht.
  - left. unfold cleanup_old_files, cleanup_body. now rewrite Hl.
Qed.

(** *** C1: the active chunk *)

(** C1, amended: the eviction pass keeps the active chunk file when it is the
    newest [*.mp4] file of the directory and its own size does not exceed the
    quota. *)
Theorem cleanup_keeps_newest_within_quota
    (self : CameraProcess) (d : directory) (tr : trace) (a : dirent) (st : stat_result) :
  NoDup (map d_name d) ->
  In a d ->
  current_file self = Some (path_join (storage_dir self) (d_name a)) ->
  d_stat a = Some st ->
  st_size st <= max_storage_bytes self ->
  (forall e st', In e d -> is_mp4 e = true -> e <> a -> d_stat e = Some st' ->
                 st_mtime st' < st_mtime st) ->
  In a (fst (cleanup_old_files self d tr)).
Proof.
  intros Hnd Ha _ Hst Hsz Hnew.
  destruct (cleanup_dir_cases self d tr) as [->|(l & total & Hsort & Hsum & ->)];
    [exact Ha|].
  apply sorted_spec in Hsort as [Hperm Hsorted].
  assert (Hl : forall m, In m l <-> In m (glob_mp4 d))
    by (intros m; split; apply Permutation_in; [|symmetry]; exact Hperm).
  assert (Hndl : NoDup l)
    by (eapply Permutation_NoDup; [symmetry; exact Hperm|apply glob_mp4_nodup, Hnd]).
  destruct (is_mp4 a) eqn:Hmp4.
  - assert (Hin : In (d_name a) l) by (apply Hl, glob_mp4_in; eauto).
    apply in_split in Hin as (l1 & l2 & ->).
    destruct l2 as [|m l2].
    + apply evict_loop_keeps_last; auto.
      * now apply sum_of_sizes in Hsum.
      * unfold size_of, entry_size. now rewrite (lookup_nodup _ _ Hnd Ha), Hst.
    + exfalso.
      assert (Hm : In m (l1 ++ d_name a :: m :: l2)) by (apply in_or_app; simpl; auto).
      apply Hl, glob_mp4_in in Hm as (e & He & Hemp4 & <-).
      change (l1 ++ d_name a :: d_name e :: l2)
        with (l1 ++ [d_name a] ++ d_name e :: l2) in Hsorted, Hndl.
      rewrite app_assoc in Hsorted, Hndl.
      destruct (sorted_split _ _ _ (d_name a) (d_name e) Hsorted) as (ka & kb & Hka & Hkb & Hle).
      { apply in_or_app; simpl; auto. }
      { simpl; auto. }
      apply (mtime_key _ _ _ _ Hnd Ha) in Hka as (sa & Hsa & <-).
      apply (mtime_key _ _ _ _ Hnd He) in Hkb as (se & Hse & <-).
      assert (sa = st) by congruence; subst sa.
      assert (Hne : e <> a).
      { intros ->. apply NoDup_remove_2 in Hndl. apply Hndl, in_or_app; left.
        apply in_or_app; simpl; auto. }
      specialize (Hnew e se He Hemp4 Hne Hse). lia.
  - destruct (evict_loop self total l d (tr ++ [EvCleanup])) as [[out d'] tr'] eqn:Hloop.
    apply evict_loop_prefix in Hloop as (k & _ & -> & _); simpl.
    apply remove_names_in; split; [exact Ha|].
    intros Hk. apply in_firstn, Hl, glob_mp4_in in Hk as (e & He & Hemp4 & Hname).
    assert (e = a).
    { assert (H1 := lookup_nodup _ _ Hnd He). assert (H2 := lookup_nodup _ _ Hnd Ha).
      rewrite Hname in H1. congruence. }
    congruence.
Qed.

(** *** C2: the result of a pass *)

Lemma disk_usage_cons (x : dirent) (d : directory) :
  disk_usage (x :: d) = (if is_mp4 x then entry_size x else 0) + disk_usage d.
Proof. unfold disk_usage; simpl. destruct (is_mp4 x); reflexivity. Qed.

Lemma disk_usage_remove (d : directory) (e : dirent) :
  NoDup (map d_name d) -> In e d -> is_mp4 e = true ->
  disk_usage (remove_entry (d_name e) d) = disk_usage d - entry_size e.
Proof.
  induction d as [|x d IH]; simpl; [tauto|].
  intros Hnd Hin Hmp4; inversion Hnd as [|? ? Hx Hd]; subst.
  change (remove_entry (d_name e) (x :: d))
    with (if negb (String.eqb (d_name x) (d_name e))
          then x :: remove_entry (d_name e) d else remove_entry (d_name e) d).
  destruct Hin as [->|Hin].
  - rewrite String.eqb_refl; simpl.
    rewrite remove_entry_absent by exact Hx.
    rewrite disk_usage_cons, Hmp4. lia.
  - destruct (String.eqb_spec (d_name x) (d_name e)) as [E|E]; simpl.
    + exfalso; apply Hx; rewrite E; now apply in_map.
    + rewrite !disk_usage_cons, IH by auto. lia.
Qed.

(** When every candidate can be examined and deleted the loop ends under the
    quota or with nothing left to delete. *)
Lemma evict_loop_quota (self : CameraProcess) (l : list string) :
  forall total d tr,
    NoDup (map d_name d) -> NoDup l ->
    (forall n, In n l ->
       exists e, In e d /\ d_name e = n /\ is_mp4 e = true /\
                 d_stat e <> None /\ d_unlink_ok e = true) ->
    (forall e, In e d -> is_mp4 e = true -> In (d_name e) l) ->
    total = disk_usage d ->
    disk_usage (snd (fst (evict_loop self total l d tr))) <= max_storage_bytes self \/
    glob_mp4 (snd (fst (evict_loop self total l d tr))) = [].
Proof.
  induction l as [|n l IH]; simpl; intros total d tr Hnd Hl Hok Hall Ht.
  - right. unfold glob_mp4. rewrite filter_none; [reflexivity|].
    intros e He. destruct (is_mp4 e) eqn:E; [|reflexivity].
    destruct (Hall e He E).
  - destruct (Z.gtb_spec total (max_storage_bytes self)) as [Hgt|Hle];
      [|left; simpl; lia].
    destruct (Hok n (or_introl eq_refl)) as (e & He & <- & Hmp4 & Hst & Hun).
    unfold stat, unlink. rewrite (lookup_nodup _ _ Hnd He), Hun.
    destruct (d_stat e) as [st|] eqn:Est; [|congruence].
    inversion Hl as [|? ? Hn Hl']; subst.
    apply IH.
    + now apply names_nodup_filter.
    + exact Hl'.
    + intros m Hm. destruct (Hok m (or_intror Hm)) as (e' & He' & <- & H').
      exists e'. split; [|auto].
      apply remove_entry_in; split; [exact He'|]. now intros E; rewrite E in Hm.
    + intros e' He' Hmp4'. apply remove_entry_in in He' as [He' Hne].
      destruct (Hall e' He' Hmp4') as [E|Hin]; [congruence|exact Hin].
    + rewrite disk_usage_remove by auto. unfold entry_size; rewrite Est. reflexivity.
Qed.

(** C2: for a directory whose chunk files can all be examined and deleted,
    after the pass the [*.mp4] files hold at most the quota or none of them is
    left; every deleted file is at most as recent as every [*.mp4] file that
    is kept, and the deletions happen in ascending order of modification
    time. *)
Theorem cleanup_reaches_quota_oldest_first
    (self : CameraProcess) (d : directory) (tr : trace) :
  NoDup (map d_name d) ->
  (forall e, In e d -> is_mp4 e = true -> d_stat e <> None /\ d_unlink_ok e = true) ->
  (disk_usage (fst (cleanup_old_files self d tr)) <= max_storage_bytes self \/
   glob_mp4 (fst (cleanup_old_files self d tr)) = []) /\
  (forall e1 e2 st1 st2,
     In e1 d -> ~ In e1 (fst (cleanup_old_files self d tr)) ->
     In e2 (fst (cleanup_old_files self d tr)) -> is_mp4 e2 = true ->
     d_stat e1 = Some st1 -> d_stat e2 = Some st2 ->
     st_mtime st1 <= st_mtime st2) /\
  (exists names,
     unlinked (snd (cleanup_old_files self d tr))
     = unlinked tr ++ map (path_join (storage_dir self)) names /\
     StronglySorted
       (key_before (fun x => let+ s := stat (storage_dir self) d x in Ok (st_mtime s)))
       names).
Proof.
  intros Hnd Hok.
  set (key := fun x => let+ s := stat (storage_dir self) d x in Ok (st_mtime s)).
  assert (Hkey : forall e, In e d -> is_mp4 e = true -> exists k, key (d_name e) = Ok k).
  { intros e He Hmp4. unfold key, stat. rewrite (lookup_nodup _ _ Hnd He).
    destruct (Hok e He Hmp4) as [Hst _]. destruct (d_stat e); [simpl; eauto|congruence]. }
  assert (Hsorted : exists l, sorted key (glob_mp4 d) = Ok l).
  { unfold sorted. destruct (decorate_total key (glob_mp4 d)) as [ks ->]; [|simpl; eauto].
    intros n Hn. apply glob_mp4_in in Hn as (e & He & Hm & <-). eauto. }
  destruct Hsorted as [l Hsort].
  assert (Hperm := proj1 (sorted_spec _ _ _ Hsort)).
  assert (Hsum : exists total,
             sum_of (fun f => let+ s := stat (storage_dir self) d f in Ok (st_size s)) l
             = Ok total).
  { apply sum_of_total. intros n Hn.
    apply (Permutation_in _ Hperm), glob_mp4_in in Hn as (e & He & Hm & <-).
    destruct (Hkey e He Hm) as [k Hk]. unfold key in Hk.
    destruct (stat (storage_dir self) d (d_name e)); simpl; [eauto|discriminate]. }
  destruct Hsum as [total Hsum]. clear Hperm.
  destruct (cleanup_run self d tr l total Hsort Hsum) as [Hd Hu].
  apply sorted_spec in Hsort as [Hperm Hsorted].
  assert (Hl : forall m, In m l <-> In m (glob_mp4 d))
    by (intros m; split; apply Permutation_in; [|symmetry]; exact Hperm).
  assert (Hndl : NoDup l)
    by (eapply Permutation_NoDup; [symmetry; exact Hperm|apply glob_mp4_nodup, Hnd]).
  rewrite Hd, Hu.
  destruct (evict_loop self total l d (tr ++ [EvCleanup])) as [[out d'] tr'] eqn:Hloop.
  assert (Hq := evict_loop_quota self l total d (tr ++ [EvCleanup]) Hnd Hndl).
  rewrite Hloop in Hq; simpl in *.
  apply evict_loop_prefix in Hloop as (k & Hk & -> & Htr).
  split; [|split].
  + apply Hq.
    * intros n Hn. apply Hl, glob_mp4_in in Hn as (e & He & Hm & <-).
      exists e. destruct (Hok e He Hm). auto.
    * intros e He Hm. apply Hl, glob_mp4_in; eauto.
    * apply sum_of_sizes in Hsum. rewrite Hsum.
      rewrite (zsum_perm _ _ (Permutation_map (size_of d) Hperm)).
      unfold glob_mp4, disk_usage, zsum. rewrite map_map. f_equal.
      apply map_ext_in. intros e He. apply filter_In in He as [He _].
      unfold size_of. now rewrite (lookup_nodup _ _ Hnd He).
  + intros e1 e2 st1 st2 H1 Hdel H2 Hm2 Hs1 Hs2.
    apply remove_names_in in H2 as [H2 Hkeep].
    assert (Hin1 : In (d_name e1) (firstn k l)).
    { destruct (in_dec string_dec (d_name e1) (firstn k l)) as [H|H]; [exact H|].
      exfalso; apply Hdel, remove_names_in; auto. }
    assert (Hin2 : In (d_name e2) (skipn k l)).
    { assert (H : In (d_name e2) l) by (apply Hl, glob_mp4_in; eauto).
      rewrite <- (firstn_skipn k l) in H. apply in_app_or in H as [H|H]; tauto. }
    rewrite <- (firstn_skipn k l) in Hsorted.
    destruct (sorted_split _ _ _ _ _ Hsorted Hin1 Hin2) as (k1 & k2 & Hk1 & Hk2 & Hle).
    apply (mtime_key _ _ _ _ Hnd H1) in Hk1 as (s1 & Hs1' & <-).
    apply (mtime_key _ _ _ _ Hnd H2) in Hk2 as (s2 & Hs2' & <-).
    congruence.
  + exists (firstn k l). rewrite Htr, unlinked_app; simpl. rewrite app_nil_r.
    split; [reflexivity|].
    rewrite <- (firstn_skipn k l) in Hsorted. eapply sorted_prefix, Hsorted.
Qed.

(** *** C3: a deletion that fails *)

Lemma first_failure_unique (a b pre post : trace) (x y : event) :
  Forall (fun ev => is_failed_unlink ev = false) a ->
  Forall (fun ev => is_failed_unlink ev = false) b ->
  is_failed_unlink y = true ->
  a ++ x :: b = pre ++ y :: post ->
  pre = a /\ y = x /\ post = b.
Proof.
  intros Ha Hb Hy; revert pre; induction Ha as [|u a Hu Ha IH]; intros pre H.
  - destruct pre as [|z pre]; simpl in H; inversion H; subst; [auto|].
    rewrite Forall_forall in Hb.
    rewrite (Hb y) in Hy; [discriminate|]. apply in_or_app; simpl; auto.
  - destruct pre as [|z pre]; simpl in H; inversion H; subst.
    + congruence.
    + destruct (IH pre) as (-> & -> & ->); auto.
Qed.

(** What the loop appends to the trace: log lines and deletions, the last of
    which may have failed; then the loop has raised. *)
Lemma evict_loop_events (self : CameraProcess) (l : list string) :
  forall total d tr,
  exists new,
    snd (evict_loop self total l d tr) = tr ++ new /\
    (Forall (fun ev => is_failed_unlink ev = false) new \/
     exists new0 p e,
       new = new0 ++ [EvUnlink p false] /\
       Forall (fun ev => is_failed_unlink ev = false) new0 /\
       fst (fst (evict_loop self total l d tr)) = Raise e).
Proof.
  induction l as [|n l IH]; intros total d tr; cbn [evict_loop].
  - exists []; rewrite app_nil_r; auto.
  - destruct (total >? max_storage_bytes self); [|exists []; rewrite app_nil_r; auto].
    destruct (stat (storage_dir self) d n) as [st|e]; [|exists []; rewrite app_nil_r; auto].
    cbv zeta.
    set (info := EvLog (INFO, "Camera " +++ camera_id self +++ ": Removing old file: "
                               +++ path_join (storage_dir self) n)).
    set (p := path_join (storage_dir self) n).
    destruct (unlink (storage_dir self) d n) as [d1|e].
    + destruct (IH (total - st_size st) d1 ((tr ++ [info]) ++ [EvUnlink p true]))
        as (new & Hnew & Hcases).
      exists ([info; EvUnlink p true] ++ new). split.
      * rewrite Hnew, <- !app_assoc. reflexivity.
      * destruct Hcases as [Hall|(new0 & p' & e & -> & Hall & Hr)].
        -- left. repeat constructor. exact Hall.
        -- right. exists ([info; EvUnlink p true] ++ new0), p', e.
           split; [now rewrite <- app_assoc|]. split; [|exact Hr].
           repeat constructor. exact Hall.
    + exists ([info] ++ [EvUnlink p false]); cbn [fst snd]. split.
      * now rewrite <- app_assoc.
      * right. exists [info], p, e. repeat split. repeat constructor.
Qed.

(** C3, amended: a deletion that fails ends the pass. Its exception is logged
    as an error by the handler around the whole pass, and that log line is
    the last thing the pass does: no other candidate is tried. *)
Theorem cleanup_stops_at_failed_unlink
    (self : CameraProcess) (d : directory) (tr pre post : trace) (p : string) :
  snd (cleanup_old_files self d tr) = tr ++ EvCleanup :: pre ++ EvUnlink p false :: post ->
  exists e,
    post = [EvLog (ERROR, "Camera " +++ camera_id self
                          +++ ": Error during cleanup: " +++ exn_str e)].
Proof.
  unfold cleanup_old_files, cleanup_body.
  set (err := fun e => EvLog (ERROR, "Camera " +++ camera_id self
                                     +++ ": Error during cleanup: " +++ exn_str e)).
  assert (Hno : forall e, ~ [err e] = pre ++ EvUnlink p false :: post).
  { intros e H. destruct pre as [|z [|z' pre]]; simpl in H; inversion H. }
  destruct (sorted _ (glob_mp4 d)) as [l|e]; simpl.
  2:{ rewrite <- app_assoc; simpl. intros H. apply app_inv_head in H.
      inversion H as [H']. destruct (Hno e H'). }
  destruct (sum_of _ l) as [total|e]; simpl.
  2:{ rewrite <- app_assoc; simpl. intros H. apply app_inv_head in H.
      inversion H as [H']. destruct (Hno e H'). }
  destruct (evict_loop_events self l total d (tr ++ [EvCleanup])) as (new & Hnew & Hcases).
  destruct (evict_loop self total l d (tr ++ [EvCleanup])) as [[out d'] tr'];
    simpl in Hnew, Hcases; subst tr'.
  assert (Hok : forall new' : trace,
             Forall (fun ev => is_failed_unlink ev = false) new' ->
             ~ new' = pre ++ EvUnlink p false :: post).
  { intros new' Hall H. rewrite Forall_forall in Hall.
    specialize (Hall (EvUnlink p false)). rewrite H in Hall.
    discriminate Hall. apply in_or_app; simpl; auto. }
  destruct Hcases as [Hall|(new0 & p' & e & -> & Hall & Hr)].
  - destruct out as [u|e]; simpl; rewrite <- !app_assoc; simpl;
      intros H; apply app_inv_head in H; inversion H as [H'].
    + destruct (Hok new Hall H').
    + destruct (Hok (new ++ [err e])); [|exact H'].
      apply Forall_app; split; [exact Hall|repeat constructor].
  - subst out; simpl. rewrite <- !app_assoc; simpl.
    intros H; apply app_inv_head in H; inversion H as [H'].
    apply first_failure_unique in H' as (_ & _ & ->); auto; [|repeat constructor..].
    exists e; reflexivity.
Qed.

(** *** C10: files that are not [*.mp4] *)

Lemma filter_absorb {A : Type} (p q : A -> bool) (l : list A) :
  (forall x, q x = true -> p x = true) -> filter q (filter p l) = filter q l.
Proof.
  intros H; induction l as [|x l IH]; simpl; [reflexivity|].
  destruct (p x) eqn:Hp; simpl.
  - now rewrite IH.
  - destruct (q x) eqn:Hq; [|exact IH]. rewrite (H x Hq) in Hp; discriminate.
Qed.

Lemma others_after_remove (ns : list string) (d : directory) :
  Forall (fun n => fnmatch_star ".mp4" n = true) ns ->
  filter (fun e => negb (is_mp4 e)) (remove_names ns d)
  = filter (fun e => negb (is_mp4 e)) d.
Proof.
  unfold remove_names; intros H; revert d.
  induction H as [|n ns Hn _ IH]; simpl; intros d; [reflexivity|].
  rewrite IH. unfold remove_entry. apply filter_absorb.
  intros e He. destruct (String.eqb_spec (d_name e) n) as [E|E]; [|reflexivity].
  unfold is_mp4 in He. rewrite E, Hn in He. discriminate.
Qed.

Lemma stat_filter_mp4 (sd : string) (d : directory) (n : string) :
  fnmatch_star ".mp4" n = true -> stat sd (filter is_mp4 d) n = stat sd d n.
Proof. intros H; unfold stat; now rewrite lookup_filter_mp4. Qed.

Lemma evict_loop_filter_mp4 (self : CameraProcess) (l : list string) :
  forall total d tr,
    Forall (fun n => fnmatch_star ".mp4" n = true) l ->
    evict_loop self total l (filter is_mp4 d) tr
    = (fst (fst (evict_loop self total l d tr)),
       filter is_mp4 (snd (fst (evict_loop self total l d tr))),
       snd (evict_loop self total l d tr)).
Proof.
  induction l as [|n l IH]; intros total d tr Hl; cbn [evict_loop]; [reflexivity|].
  inversion Hl as [|? ? Hn Hl']; subst.
  destruct (total >? max_storage_bytes self); [|reflexivity].
  rewrite stat_filter_mp4 by exact Hn.
  destruct (stat (storage_dir self) d n) as [st|e]; [|reflexivity].
  cbv zeta. unfold unlink. rewrite lookup_filter_mp4 by exact Hn.
  destruct (lookup n d) as [e|]; [|reflexivity].
  destruct (d_unlink_ok e); [|reflexivity].
  unfold remove_entry at 1. rewrite filter_comm. apply IH, Hl'.
Qed.

Lemma glob_mp4_names (d : directory) :
  Forall (fun n => fnmatch_star ".mp4" n = true) (glob_mp4 d).
Proof.
  apply Forall_forall; intros n Hn.
  apply glob_mp4_in in Hn as (e & _ & He & <-). exact He.
Qed.

(** C10: a pass leaves the files that do not match [*.mp4] as they are, and
    does on the directory what it does on its [*.mp4] files alone: the same
    sizes are added, the same files are deleted, the same events happen. *)
Theorem cleanup_ignores_other_files (self : CameraProcess) (d : directory) (tr : trace) :
  filter (fun e => negb (is_mp4 e)) (fst (cleanup_old_files self d tr))
  = filter (fun e => negb (is_mp4 e)) d /\
  (forall e, In e d -> is_mp4 e = false -> In e (fst (cleanup_old_files self d tr))) /\
  cleanup_old_files self (filter is_mp4 d) tr
  = (filter is_mp4 (fst (cleanup_old_files self d tr)),
     snd (cleanup_old_files self d tr)).
Proof.
  assert (H1 : filter (fun e => negb (is_mp4 e)) (fst (cleanup_old_files self d tr))
               = filter (fun e => negb (is_mp4 e)) d).
  { destruct (cleanup_dir_cases self d tr) as [->|(l & total & Hsort & _ & ->)];
      [reflexivity|].
    destruct (evict_loop self total l d (tr ++ [EvCleanup])) as [[out d'] tr'] eqn:Hloop.
    apply evict_loop_prefix in Hloop as (k & _ & -> & _); simpl.
    apply others_after_remove.
    apply sorted_spec in Hsort as [Hperm _].
    apply Forall_forall; intros n Hn. apply in_firstn in Hn.
    apply (Permutation_in _ Hperm) in Hn.
    revert n Hn; apply Forall_forall, glob_mp4_names. }
  split; [exact H1|]. split.
  - intros e He Hm.
    assert (H : In e (filter (fun e => negb (is_mp4 e)) d))
      by (apply filter_In; rewrite Hm; auto).
    rewrite <- H1 in H. now apply filter_In in H.
  - remember (cleanup_old_files self d tr) as R eqn:HR.
    unfold cleanup_old_files, cleanup_body in *. cbv zeta in *.
    set (key := fun x => let+ s := stat (storage_dir self) d x in Ok (st_mtime s)) in *.
    set (size := fun f => let+ s := stat (storage_dir self) d f in Ok (st_size s)) in *.
    assert (Hg : glob_mp4 (filter is_mp4 d) = glob_mp4 d)
      by (unfold glob_mp4; now rewrite filter_idem).
    rewrite Hg.
    assert (Hs : sorted (fun x => let+ s := stat (storage_dir self) (filter is_mp4 d) x in
                                  Ok (st_mtime s)) (glob_mp4 d)
                 = sorted key (glob_mp4 d)).
    { unfold sorted. f_equal. apply decorate_ext. intros n Hn. unfold key.
      rewrite stat_filter_mp4; [reflexivity|].
      revert n Hn; apply Forall_forall, glob_mp4_names. }
    rewrite Hs.
    destruct (sorted key (glob_mp4 d)) as [l|e] eqn:Hsort; [|subst R; reflexivity].
    assert (Hl : Forall (fun n => fnmatch_star ".mp4" n = true) l).
    { apply sorted_spec in Hsort as [Hperm _].
      eapply Permutation_Forall; [symmetry; exact Hperm|apply glob_mp4_names]. }
    rewrite (sum_of_ext
               (fun f => let+ s := stat (storage_dir self) (filter is_mp4 d) f in
                         Ok (st_size s)) size).
    2:{ intros n Hn. unfold size. rewrite stat_filter_mp4; [reflexivity|].
        revert n Hn; apply Forall_forall, Hl. }
    destruct (sum_of size l) as [total|e]; [|subst R; reflexivity].
    rewrite evict_loop_filter_mp4 by exact Hl.
    destruct (evict_loop self total l d (tr ++ [EvCleanup])) as [[[u|e] d'] tr'];
      subst R; reflexivity.
Qed.

(** ** Traces *)

Lemma monitor_app {S : Type} (step : S -> event -> option S) (s : S) (a b : trace) :
  monitor step s (a ++ b)
  = match monitor step s a with
    | Some s' => monitor step s' b
    | None => None
    end.
Proof.
  revert s; induction a as [|ev a IH]; simpl; intros s; [reflexivity|].
  destruct (step s ev); [apply IH|reflexivity].
Qed.

Lemma count_app (p : event -> bool) (a b : trace) :
  count p (a ++ b) = (count p a + count p b)%nat.
Proof. unfold count. now rewrite filter_app, length_app. Qed.

Lemma count_none (p : event -> bool) (a : trace) :
  Forall (fun ev => p ev = false) a -> count p a = 0%nat.
Proof.
  unfold count; intros H. rewrite filter_none; [reflexivity|].
  now apply Forall_forall.
Qed.

Lemma open_step_neutral (open : list nat) (ev : event) :
  is_neutral ev = true -> open_step open ev = open.
Proof. destruct ev; simpl; try discriminate; reflexivity. Qed.

Lemma monitor_open_neutral (open : list nat) (a : trace) :
  (List.length open <= 1)%nat -> Forall (fun ev => is_neutral ev = true) a ->
  monitor one_open_step open a = Some open.
Proof.
  intros Hlen; induction 1 as [|ev a Hev _ IH]; simpl; [reflexivity|].
  unfold one_open_step. rewrite open_step_neutral by exact Hev.
  destruct (Nat.leb_spec (List.length open) 1); [exact IH|lia].
Qed.

Lemma monitor_cleanup_neutral (b : bool) (a : trace) :
  Forall (fun ev => is_neutral ev = true) a ->
  exists b', monitor cleanup_step b a = Some b'.
Proof.
  intros H; revert b; induction H as [|ev a Hev _ IH]; simpl; intros b; [eauto|].
  destruct ev; simpl in *; try discriminate; apply IH.
Qed.

Lemma open_of_length (w : option VideoWriter) : (List.length (open_of w) <= 1)%nat.
Proof. destruct w as [w|]; simpl; [destruct (cv_opened (vw_writer w))|]; simpl; lia. Qed.

Lemma neutral_counts (a : trace) :
  Forall (fun ev => is_neutral ev = true) a ->
  count is_cap_release a = 0%nat /\
  (forall id, count (is_creation_of id) a = 0%nat) /\
  (forall id, count (is_release_of id) a = 0%nat).
Proof.
  intros H. repeat split; intros; apply count_none;
    (eapply Forall_impl; [|exact H]); intros ev Hev;
    destruct ev; simpl in *; try discriminate; reflexivity.
Qed.

Lemma fs_events_neutral (a : trace) :
  Forall (fun ev => is_fs_event ev = true) a -> Forall (fun ev => is_neutral ev = true) a.
Proof.
  apply Forall_impl. intros ev; destruct ev; simpl; try discriminate; reflexivity.
Qed.

(** The monitor of open writers computes [open_writers]. *)
Lemma monitor_open_writers (tr : trace) (s s' : list nat) :
  monitor one_open_step s tr = Some s' -> fold_left open_step tr s = s'.
Proof.
  revert s; induction tr as [|ev tr IH]; simpl; intros s H.
  - now inversion H.
  - unfold one_open_step in H at 1.
    destruct (List.length (open_step s ev) <=? 1)%nat; [|discriminate].
    apply IH, H.
Qed.



(** The events of a pass: [EvCleanup], then log lines and deletions. *)
Lemma evict_loop_fs_events (self : CameraProcess) (l : list string) :
  forall total d tr,
  exists new, snd (evict_loop self total l d tr) = tr ++ new /\
              Forall (fun ev => is_fs_event ev = true) new.
Proof.
  induction l as [|n l IH]; intros total d tr; cbn [evict_loop].
  - exists []; rewrite app_nil_r; auto.
  - destruct (total >? max_storage_bytes self); [|exists []; rewrite app_nil_r; auto].
    destruct (stat (storage_dir self) d n) as [st|e]; [|exists []; rewrite app_nil_r; auto].
    cbv zeta.
    destruct (unlink (storage_dir self) d n) as [d1|e].
    + match goal with
      | |- context [evict_loop self ?t l d1 ((tr ++ [?i]) ++ [?u])] =>
          destruct (IH t d1 ((tr ++ [i]) ++ [u])) as (new & Hnew & Hall);
          exists ([i; u] ++ new)
      end.
      split; [rewrite Hnew, <- !app_assoc; reflexivity|].
      repeat constructor. exact Hall.
    + match goal with
      | |- context [(tr ++ [?i]) ++ [?u]] => exists [i; u]
      end.
      cbn [fst snd]. split; [now rewrite <- app_assoc|repeat constructor].
Qed.

Lemma cleanup_events (self : CameraProcess) (d : directory) (tr : trace) :
  exists new, snd (cleanup_old_files self d tr) = tr ++ EvCleanup :: new /\
              Forall (fun ev => is_fs_event ev = true) new.
Proof.
  unfold cleanup_old_files, cleanup_body. cbv zeta.
  destruct (sorted _ (glob_mp4 d)) as [l|e].
  2:{ eexists; cbn [snd]; rewrite <- app_assoc; split; [reflexivity|repeat constructor]. }
  destruct (sum_of _ l) as [total|e].
  2:{ eexists; cbn [snd]; rewrite <- app_assoc; split; [reflexivity|repeat constructor]. }
  destruct (evict_loop_fs_events self l total d (tr ++ [EvCleanup])) as (new & Hnew & Hall).
  destruct (evict_loop self total l d (tr ++ [EvCleanup])) as [[[u|e] d'] tr'];
    cbn [snd] in *; subst tr'.
  - exists new. rewrite <- app_assoc. auto.
  - eexists (new ++ [_]). rewrite <- !app_assoc. split; [reflexivity|].
    apply Forall_app; split; [exact Hall|repeat constructor].
Qed.

(** ** The worker's invariant *)

Lemma inv_emit_neutral (m : machine) (evs : trace) :
  worker_inv m -> Forall (fun ev => is_neutral ev = true) evs -> worker_inv (emit m evs).
Proof.
  intros [Ho [b Hc] Hh Hr Hcr Hrl Hf] Hn.
  destruct (neutral_counts evs Hn) as (N1 & N2 & N3).
  constructor; simpl; auto.
  - rewrite monitor_app, Ho. apply monitor_open_neutral; [apply open_of_length|exact Hn].
  - rewrite monitor_app, Hc. apply monitor_cleanup_neutral, Hn.
  - rewrite count_app, Hr, N1. reflexivity.
  - intros id. rewrite count_app, Hcr, N2. lia.
  - intros id. rewrite count_app, Hrl, N3. lia.
Qed.

Lemma inv_set_running (m : machine) (b : bool) :
  worker_inv m -> worker_inv (set_self m (set_running (self m) b)).
Proof. intros [Ho Hc Hh Hr Hcr Hrl Hf]. constructor; simpl; auto. Qed.

Lemma writer_init_events (id : nat) (file : string) (fps : Z) (size : Z * Z) (a b : bool) :
  VideoWriter_init id file fps size a b
  = (mk_writer id (mk_cv2_writer file (if a then mp4v else MJPG) fps size (a || b)),
     EvCv2Writer id file mp4v a :: (if a then [] else [EvCv2Writer id file MJPG b])).
Proof. unfold VideoWriter_init; destruct a; reflexivity. Qed.

(** [start_new_chunk] keeps the invariant and cannot raise once the capture
    handle exists; its last event is the creation of a writer. *)
Lemma start_new_chunk_inv (m : machine) (env : chunk_env) :
  worker_inv m ->
  exists m', start_new_chunk m env = (Ok tt, m') /\ worker_inv m' /\
             monitor cleanup_step false (events m') = Some true.
Proof.
  intros [Ho [b Hc] [c Hh] Hr Hcr Hrl Hf].
  unfold start_new_chunk.
  set (m1 := match writer (self m) with
             | Some w => emit m (VideoWriter_release w)
             | None => m
             end).
  assert (Hself : self m1 = self m) by (unfold m1; destruct (writer (self m)); reflexivity).
  assert (Hoid : next_oid m1 = next_oid m)
    by (unfold m1; destruct (writer (self m)); reflexivity).
  assert (Ho1 : monitor one_open_step [] (events m1) = Some []).
  { unfold m1. destruct (writer (self m)) as [w|]; [|exact Ho].
    simpl. rewrite monitor_app, Ho. simpl. unfold one_open_step.
    destruct (cv_opened (vw_writer w)); simpl; [rewrite Nat.eqb_refl|]; reflexivity. }
  assert (Hc1 : exists b1, monitor cleanup_step false (events m1) = Some b1).
  { unfold m1. destruct (writer (self m)) as [w|]; [|eauto].
    simpl. rewrite monitor_app, Hc. simpl. eauto. }
  assert (Hr1 : count is_cap_release (events m1) = 0%nat).
  { unfold m1. destruct (writer (self m)) as [w|]; [|exact Hr].
    simpl. rewrite count_app, Hr. reflexivity. }
  assert (Hcr1 : forall id, count (is_creation_of id) (events m1)
                            = if (id <? next_oid m)%nat then 1%nat else 0%nat).
  { intros id. unfold m1. destruct (writer (self m)) as [w|]; [|apply Hcr].
    simpl. rewrite count_app, Hcr. unfold count; simpl.
    destruct (id <? next_oid m)%nat; lia. }
  assert (Hrl1 : forall id, count (is_release_of id) (events m1)
                            = if (id <? next_oid m)%nat then 1%nat else 0%nat).
  { intros id. unfold m1. specialize (Hrl id). specialize (Hf).
    destruct (writer (self m)) as [w|]; simpl in *.
    - specialize (Hf w eq_refl). rewrite count_app, Hrl. unfold count; simpl.
      destruct (Nat.eqb_spec (vw_id w) id) as [E|E];
        destruct (Nat.ltb_spec id (next_oid m)); simpl; lia.
    - rewrite Hrl. destruct (id <? next_oid m)%nat; reflexivity. }
  clearbody m1. simpl. rewrite Hself, Hh, Hoid, writer_init_events.
  eexists; split; [reflexivity|].
  destruct Hc1 as [b1 Hc1].
  split; [constructor|]; simpl.
  - rewrite monitor_app, Ho1.
    destruct (ce_mp4v_ok env), (ce_mjpg_ok env); reflexivity.
  - rewrite monitor_app, Hc1. destruct (ce_mp4v_ok env); simpl; eauto.
  - eauto.
  - rewrite count_app, Hr1. destruct (ce_mp4v_ok env); reflexivity.
  - intros id. rewrite count_app, Hcr1. unfold count.
    destruct (ce_mp4v_ok env); simpl;
      destruct (Nat.eqb_spec (next_oid m) id);
      destruct (Nat.ltb_spec id (next_oid m));
      destruct (Nat.ltb_spec id (S (next_oid m))); simpl; lia.
  - intros id. rewrite count_app, Hrl1. unfold count.
    destruct (ce_mp4v_ok env); simpl;
      destruct (Nat.eqb_spec (next_oid m) id);
      destruct (Nat.ltb_spec id (next_oid m));
      destruct (Nat.ltb_spec id (S (next_oid m))); simpl; lia.
  - intros w H; inversion H; simpl; lia.
  - rewrite monitor_app, Hc1. destruct (ce_mp4v_ok env); reflexivity.
Qed.

(** An eviction pass that follows the creation of a writer keeps the
    invariant. *)
Lemma cleanup_inv (m : machine) (d : directory) :
  worker_inv m -> monitor cleanup_step false (events m) = Some true ->
  worker_inv {| self := self m; next_oid := next_oid m;
                events := snd (cleanup_old_files (self m) d (events m)) |}.
Proof.
  intros [Ho _ Hh Hr Hcr Hrl Hf] Hc.
  destruct (cleanup_events (self m) d (events m)) as (new & -> & Hfs).
  apply fs_events_neutral in Hfs.
  destruct (neutral_counts new Hfs) as (N1 & N2 & N3).
  change (events m ++ EvCleanup :: new) with (events m ++ [EvCleanup] ++ new).
  constructor; simpl; auto.
  - rewrite monitor_app, Ho. simpl. unfold one_open_step at 1. simpl.
    destruct (Nat.leb_spec (List.length (open_of (writer (self m)))) 1) as [_|H].
    + apply monitor_open_neutral; [apply open_of_length|exact Hfs].
    + pose proof (open_of_length (writer (self m))). lia.
  - rewrite monitor_app, Hc. simpl. apply monitor_cleanup_neutral, Hfs.
  - rewrite count_app, Hr. unfold count in *; simpl. exact N1.
  - intros id. rewrite count_app, Hcr. unfold count in *; simpl. rewrite N2. lia.
  - intros id. rewrite count_app, Hrl. unfold count in *; simpl. rewrite N3. lia.
Qed.

Lemma loop_body_inv (m : machine) (env : step_env) :
  worker_inv m -> worker_inv (snd (loop_body m env)).
Proof.
  intros Hm. unfold loop_body.
  destruct (se_read env) as [f|].
  2:{ apply inv_emit_neutral; [exact Hm|repeat constructor]. }
  assert (H1 : worker_inv (emit m [EvRead true]))
    by (apply inv_emit_neutral; [exact Hm|repeat constructor]).
  simpl self. destruct (writer (self m)) as [w|] eqn:Hw; [|exact H1].
  unfold VideoWriter_write.
  set (o := cv2_write (vw_writer w) (se_write env)).
  assert (H2 : worker_inv (emit (emit m [EvRead true]) [EvWrite (vw_id w) f o]))
    by (apply inv_emit_neutral; [exact H1|repeat constructor]).
  set (m2 := emit (emit m [EvRead true]) [EvWrite (vw_id w) f o]) in *.
  assert (Hcases :
            worker_inv (snd (match rotation_due (self m2) (se_now env) with
                             | Raise e => (Raise e, m2)
                             | Ok false => (Ok tt, m2)
                             | Ok true =>
                                 match start_new_chunk m2 (se_chunk env) with
                                 | (Raise e, m3) => (Raise e, m3)
                                 | (Ok _, m3) =>
                                     let (_, tr) := cleanup_old_files (self m3) (se_dir env)
                                                      (events m3) in
                                     (Ok tt, {| self := self m3; next_oid := next_oid m3;
                                                events := tr |})
                                 end
                             end))).
  { destruct (rotation_due (self m2) (se_now env)) as [[|]|e]; [|exact H2|exact H2].
    destruct (start_new_chunk_inv m2 (se_chunk env) H2) as (m3 & -> & H3 & Hc3).
    assert (H4 := cleanup_inv m3 (se_dir env) H3 Hc3).
    destruct (cleanup_old_files (self m3) (se_dir env) (events m3)); exact H4. }
  destruct o; try exact Hcases. exact H2.
Qed.

Lemma record_loop_inv (envs : list step_env) :
  forall m, worker_inv m -> worker_inv (snd (record_loop m envs)).
Proof.
  induction envs as [|env envs IH]; intros m Hm; cbn [record_loop snd]; [exact Hm|].
  assert (H0 := inv_set_running m (se_running env) Hm).
  set (m0 := set_self m (set_running (self m) (se_running env))) in *.
  destruct (running (self m0)); [|exact H0].
  assert (H1 := loop_body_inv m0 env H0).
  destruct (loop_body m0 env) as [[u|e] m1]; simpl in H1; [apply IH, H1|exact H1].
Qed.

Lemma record_try_inv (s : CameraProcess) (c : capture) (chunk0 : chunk_env)
    (envs : list step_env) :
  writer s = None -> worker_inv (snd (record_try (fresh s) c chunk0 envs)).
Proof.
  intros Hw. unfold record_try.
  set (m1 := emit (set_self (fresh s) (set_cap (self (fresh s)) (Some c)))
                  [EvCapture (device_id (self (fresh s))) (cap_opened c)]).
  assert (H1 : worker_inv m1).
  { constructor; simpl; try rewrite Hw; simpl; eauto; intros; discriminate. }
  destruct (cap_opened c); simpl; [|exact H1].
  destruct (start_new_chunk_inv m1 chunk0 H1) as (m2 & -> & H2 & _).
  apply record_loop_inv, H2.
Qed.

(** *** C9: writers that fail to open *)

(** C9: [VideoWriter.__init__] asks for mp4v, then for MJPG when mp4v did not
    open, and returns its object whatever MJPG answers. On an object whose two
    codecs failed, [write] drops the frame without raising and [release]
    returns; [start_new_chunk] succeeds whatever the codecs answer. *)
Theorem VideoWriter_init_never_fails
    (id : nat) (file : string) (fps : Z) (size : Z * Z) (a b : bool) :
  snd (VideoWriter_init id file fps size a b)
  = EvCv2Writer id file mp4v a :: (if a then [] else [EvCv2Writer id file MJPG b]) /\
  cv_opened (vw_writer (fst (VideoWriter_init id file fps size a b))) = (a || b)%bool /\
  cv_fourcc (vw_writer (fst (VideoWriter_init id file fps size a b)))
  = (if a then mp4v else MJPG) /\
  (forall f o,
     VideoWriter_write (fst (VideoWriter_init id file fps size false false)) f o
     = (Ok tt, [EvWrite id f Dropped])) /\
  VideoWriter_release (fst (VideoWriter_init id file fps size false false))
  = [EvWriterRelease id] /\
  (forall m env c,
     let m' := set_self m (set_cap (self m) (Some c)) in
     fst (start_new_chunk m' env) = Ok tt /\
     exists w, writer (self (snd (start_new_chunk m' env))) = Some w /\
               cv_opened (vw_writer w) = (ce_mp4v_ok env || ce_mjpg_ok env)%bool).
Proof.
  rewrite writer_init_events. repeat split.
  - unfold start_new_chunk. cbv zeta.
    destruct (writer (self (set_self m (set_cap (self m) (Some c))))); simpl;
      rewrite writer_init_events; reflexivity.
  - unfold start_new_chunk. cbv zeta.
    destruct (writer (self (set_self m (set_cap (self m) (Some c))))); simpl;
      rewrite writer_init_events; simpl; eauto.
Qed.

(** *** C4: a write that fails *)

(** C4, amended: in an iteration that reads a frame, a write that fails
    without raising is not logged and the loop goes on with the next
    iteration; a write that raises ends the loop with that exception, which
    the handler of [record] logs once before the cleanup path runs. *)
Theorem write_failure_in_loop
    (m : machine) (env : step_env) (envs : list step_env) (f : frame) (w : VideoWriter) :
  se_running env = true ->
  se_read env = Some f ->
  writer (self m) = Some w ->
  (forall msg,
     cv2_write (vw_writer w) (se_write env) = WriteRaises msg ->
     record_loop m (env :: envs)
     = (Some (Raise (cv2_error msg)),
        emit (emit (set_self m (set_running (self m) true)) [EvRead true])
             [EvWrite (vw_id w) f (WriteRaises msg)]) /\
     is_Exception (cv2_error msg) = true) /\
  (cv2_write (vw_writer w) (se_write env) = Dropped ->
   rotation_due (self m) (se_now env) = Ok false ->
   record_loop m (env :: envs)
   = record_loop (emit (emit (set_self m (set_running (self m) true)) [EvRead true])
                       [EvWrite (vw_id w) f Dropped]) envs) /\
  (forall s c chunk0 e m',
     record_try (fresh s) c chunk0 (env :: envs) = (Some (Raise e), m') ->
     is_Exception e = true ->
     record (fresh s) c chunk0 (env :: envs)
     = (Returned,
        record_finally
          (emit m' [EvLog (ERROR, "Camera " +++ camera_id (self m')
                                  +++ ": Recording error: " +++ exn_str e)]))).
Proof.
  intros Hrun Hread Hw. split; [|split].
  - intros msg Hraise. split; [|reflexivity].
    cbn [record_loop]. rewrite Hrun. cbn [set_self set_running self running].
    unfold loop_body. rewrite Hread. cbn [emit self]. cbn [set_self self set_running writer].
    rewrite Hw. unfold VideoWriter_write. rewrite Hraise. reflexivity.
  - intros Hd Hrot. cbn [record_loop]. rewrite Hrun. cbn [set_self set_running self running].
    unfold loop_body. rewrite Hread. cbn [emit self]. cbn [set_self self set_running writer].
    rewrite Hw. unfold VideoWriter_write. rewrite Hd.
    change (rotation_due _ (se_now env)) with (rotation_due (self m) (se_now env)).
    rewrite Hrot. reflexivity.
  - intros s c chunk0 e m' Htry He. unfold record. rewrite Htry, He. reflexivity.
Qed.

(** *** C7: the cleanup path of record *)

(** The [finally] block after a state that satisfies the invariant. *)
Lemma record_finally_spec (m : machine) :
  worker_inv m ->
  count is_cap_release (events (record_finally m)) = 1%nat /\
  (forall id, count (is_release_of id) (events (record_finally m))
              = count (is_creation_of id) (events (record_finally m)) /\
              (count (is_creation_of id) (events (record_finally m)) <= 1)%nat) /\
  open_writers (events (record_finally m)) = [] /\
  (exists pre, events (record_finally m) = pre ++ [EvCapRelease]) /\
  (exists o, monitor one_open_step [] (events (record_finally m)) = Some o) /\
  (exists b, monitor cleanup_step false (events (record_finally m)) = Some b).
Proof.
  intros [Ho [b Hc] [c Hh] Hr Hcr Hrl Hf].
  unfold record_finally.
  set (m1 := match writer (self m) with
             | Some w => emit m (VideoWriter_release w)
             | None => m
             end).
  assert (Hself : cap (self m1) = Some c)
    by (unfold m1; destruct (writer (self m)); exact Hh).
  assert (Ho1 : monitor one_open_step [] (events m1) = Some []).
  { unfold m1. destruct (writer (self m)) as [w|]; [|exact Ho].
    simpl. rewrite monitor_app, Ho. simpl. unfold one_open_step.
    destruct (cv_opened (vw_writer w)); simpl; [rewrite Nat.eqb_refl|]; reflexivity. }
  assert (Hc1 : exists b1, monitor cleanup_step false (events m1) = Some b1).
  { unfold m1. destruct (writer (self m)) as [w|]; [|eauto].
    simpl. rewrite monitor_app, Hc. simpl. eauto. }
  assert (Hr1 : count is_cap_release (events m1) = 0%nat).
  { unfold m1. destruct (writer (self m)) as [w|]; [|exact Hr].
    simpl. rewrite count_app, Hr. reflexivity. }
  assert (Hcr1 : forall id, count (is_creation_of id) (events m1)
                            = if (id <? next_oid m)%nat then 1%nat else 0%nat).
  { intros id. unfold m1. destruct (writer (self m)) as [w|]; [|apply Hcr].
    simpl. rewrite count_app, Hcr. unfold count; simpl.
    destruct (id <? next_oid m)%nat; lia. }
  assert (Hrl1 : forall id, count (is_release_of id) (events m1)
                            = if (id <? next_oid m)%nat then 1%nat else 0%nat).
  { intros id. unfold m1. specialize (Hrl id).
    destruct (writer (self m)) as [w|]; simpl in *.
    - specialize (Hf w eq_refl). rewrite count_app, Hrl. unfold count; simpl.
      destruct (Nat.eqb_spec (vw_id w) id) as [E|E];
        destruct (Nat.ltb_spec id (next_oid m)); simpl; lia.
    - rewrite Hrl. destruct (id <? next_oid m)%nat; reflexivity. }
  clearbody m1. rewrite Hself. simpl. destruct Hc1 as [b1 Hc1].
  repeat split.
  - rewrite count_app, Hr1. reflexivity.
  - rewrite !count_app, Hrl1, Hcr1. unfold count; simpl. lia.
  - rewrite count_app, Hcr1. unfold count; simpl.
    destruct (id <? next_oid m)%nat; lia.
  - unfold open_writers. rewrite fold_left_app.
    rewrite (monitor_open_writers _ _ _ Ho1). reflexivity.
  - eauto.
  - rewrite monitor_app, Ho1. simpl. eauto.
  - rewrite monitor_app, Hc1. simpl. eauto.
Qed.

(** The state [record] hands to its [finally] block satisfies the
    invariant. *)
Lemma record_cases (s : CameraProcess) (c : capture) (chunk0 : chunk_env)
    (envs : list step_env) :
  writer s = None ->
  (fst (record (fresh s) c chunk0 envs) = InLoop /\
   worker_inv (snd (record (fresh s) c chunk0 envs))) \/
  (fst (record (fresh s) c chunk0 envs) <> InLoop /\
   exists m, worker_inv m /\ snd (record (fresh s) c chunk0 envs) = record_finally m).
Proof.
  intros Hw. assert (Hinv := record_try_inv s c chunk0 envs Hw).
  unfold record.
  destruct (record_try (fresh s) c chunk0 envs) as [[[u|e]|] m']; simpl in *.
  - right. split; [discriminate|eauto].
  - right. destruct (is_Exception e); simpl; (split; [discriminate|]).
    + eexists; split; [|reflexivity].
      apply inv_emit_neutral; [exact Hinv|repeat constructor].
    + eauto.
  - left; auto.
Qed.

(** The worker leaves the loop when it reads a cleared [running] flag or
    fails to read a frame, and does not enter it without a capture handle. *)
Lemma record_loop_exits (envs : list step_env) :
  forall m,
    Exists (fun env => se_running env = false \/ se_read env = None) envs ->
    fst (record_loop m envs) <> None.
Proof.
  induction envs as [|env envs IH]; intros m H; [inversion H|].
  cbn [record_loop].
  destruct (se_running env) eqn:Hrun; cbn [set_self set_running self running];
    [|discriminate].
  destruct (loop_body _ env) as [[u|e] m1] eqn:Hbody; [|discriminate].
  inversion H as [? ? [Hr|Hr]|]; subst.
  - congruence.
  - unfold loop_body in Hbody. rewrite Hr in Hbody. discriminate.
  - apply IH; assumption.
Qed.

Lemma record_exits (s : CameraProcess) (c : capture) (chunk0 : chunk_env)
    (envs : list step_env) :
  cap_opened c = false \/
  Exists (fun env => se_running env = false \/ se_read env = None) envs ->
  fst (record (fresh s) c chunk0 envs) <> InLoop.
Proof.
  intros H. unfold record, record_try.
  destruct (cap_opened c) eqn:Hc; simpl.
  - destruct H as [H|H]; [discriminate|].
    destruct (start_new_chunk _ chunk0) as [[u|e] m2];
      [|simpl; destruct (is_Exception e); discriminate].
    assert (Hl := record_loop_exits envs m2 H).
    destruct (record_loop m2 envs) as [[[u'|e]|] m']; simpl in *;
      try discriminate; [|congruence].
    destruct (is_Exception e); discriminate.
  - discriminate.
Qed.

(** C7: whenever [record] leaves its loop or never enters it, by a failed
    open, a failed read, a cleared [running] flag or any exception, the
    capture handle is released exactly once, as the last action, and every
    writer that was created has been released exactly once, so that none is
    open. *)
Theorem record_releases_exactly_once
    (s : CameraProcess) (c : capture) (chunk0 : chunk_env) (envs : list step_env) :
  writer s = None ->
  fst (record (fresh s) c chunk0 envs) <> InLoop ->
  count is_cap_release (events (snd (record (fresh s) c chunk0 envs))) = 1%nat /\
  (forall id,
     count (is_release_of id) (events (snd (record (fresh s) c chunk0 envs)))
     = count (is_creation_of id) (events (snd (record (fresh s) c chunk0 envs))) /\
     (count (is_creation_of id) (events (snd (record (fresh s) c chunk0 envs))) <= 1)%nat) /\
  open_writers (events (snd (record (fresh s) c chunk0 envs))) = [] /\
  (exists pre, events (snd (record (fresh s) c chunk0 envs)) = pre ++ [EvCapRelease]).
Proof.
  intros Hw Hexit.
  destruct (record_cases s c chunk0 envs Hw) as [[H _]|[_ (m & Hm & ->)]];
    [contradiction|].
  destruct (record_finally_spec m Hm) as (H1 & H2 & H3 & H4 & _).
  auto.
Qed.

(** *** C8: rotation *)





(** ** The supervisor *)

Lemma wait_loop_signal (s : MultiCameraSystem) (k : nat) :
  sys_running s = true ->
  wait_loop s k
  = (Some (Raise (SystemExit 0)),
     snd (fst (signal_handler s)),
     repeat EvSleep (S k) ++
     EvLog (INFO, "Received shutdown signal") :: map EvStop (map fst (cameras s))).
Proof.
  intros Hr. induction k as [|k IH]; cbn [wait_loop]; rewrite Hr.
  - unfold signal_handler. cbn [fst snd repeat app]. now rewrite map_map.
  - rewrite IH. reflexivity.
Qed.

Lemma run_signal (s : MultiCameraSystem) (k : nat) :
  fst (fst (run s (Some k))) = Some (Raise (SystemExit 0)) /\
  snd (run s (Some k))
  = map EvThreadStart (map fst (cameras s)) ++
    repeat EvSleep (S k) ++
    EvLog (INFO, "Received shutdown signal") :: map EvStop (map fst (cameras s)).
Proof.
  unfold run. rewrite wait_loop_signal by reflexivity.
  cbn [fst snd cameras]. rewrite !map_map. cbn [fst]. auto.
Qed.

Lemma run_no_signal (s : MultiCameraSystem) :
  fst (fst (run s None)) = None /\
  snd (run s None) = map EvThreadStart (map fst (cameras s)).
Proof. unfold run. cbn [fst snd cameras]. rewrite !map_map. cbn [fst]. auto. Qed.

Lemma load_config_cases (s : MultiCameraSystem) (mk : string -> bool) (home : string)
    (file : option config) :
  (exists s', load_config s mk home file = (Ok tt, s', [])) \/
  (exists e, load_config s mk home file
             = (Raise (SystemExit 1), s,
                [EvLog (ERROR, "Failed to load config: " +++ exn_str e)])).
Proof.
  unfold load_config.
  match goal with |- context [match ?b with Ok _ => _ | Raise _ => _ end] =>
    assert (Hb : (exists cams, b = Ok cams) \/ (exists e, b = Raise e /\ is_Exception e = true))
  end.
  { destruct file as [cfg|]; cbn [bind]; [|right; eexists; split; reflexivity].
    destruct (cfg_cameras cfg) as [entries|]; cbn [py_index bind];
      [|right; eexists; split; reflexivity].
    generalize (cameras s). generalize (py_get (cfg_base_storage_dir cfg)
                 (path_join home "Library/Application Support/SecurityCam")).
    induction entries as [|x entries IH]; intros base cams; cbn [load_cameras];
      [left; eauto|].
    destruct (cfg_id x); cbn [py_index bind]; [|right; eexists; split; reflexivity].
    destruct (cfg_device_id x); cbn [py_index bind]; [|right; eexists; split; reflexivity].
    unfold CameraProcess_init.
    destruct (mk _); cbn [bind]; [apply IH|right; eexists; split; reflexivity]. }
  destruct Hb as [[cams ->]|(e & -> & He)]; [left; eauto|right].
  rewrite He. eauto.
Qed.

Lemma count_map_none {A : Type} (p : event -> bool) (f : A -> event) (l : list A) :
  (forall x, p (f x) = false) -> count p (map f l) = 0%nat.
Proof.
  intros H. apply count_none, Forall_forall. intros ev Hev.
  apply in_map_iff in Hev as (x & <- & _). apply H.
Qed.

Lemma count_repeat_none (p : event -> bool) (ev : event) (n : nat) :
  p ev = false -> count p (repeat ev n) = 0%nat.
Proof.
  intros H. apply count_none, Forall_forall. intros ev' Hev.
  apply repeat_spec in Hev. now subst.
Qed.

(** What [main] does, by the outcome of loading and the signal. *)
Lemma main_cases (cf : string) (mk : string -> bool) (home : string)
    (file : option config) (signal : option nat) :
  (exists e, main cf mk home file signal
             = (Exited 1, [EvLog (ERROR, "Failed to load config: " +++ exn_str e);
                           EvExit 1])) \/
  (exists s, fst (fst (MultiCameraSystem_init cf mk home file)) = Ok tt /\
     main cf mk home file signal
     = match signal with
       | None => (Alive, map EvThreadStart (map fst (cameras s)))
       | Some k =>
           (Exited 0,
            map EvThreadStart (map fst (cameras s)) ++
            repeat EvSleep (S k) ++
            EvLog (INFO, "Received shutdown signal") :: map EvStop (map fst (cameras s)) ++
            [EvExit 0])
       end).
Proof.
  unfold main, MultiCameraSystem_init.
  destruct (load_config_cases {| config_file := cf; cameras := []; sys_running := false |}
              mk home file) as [[s' ->]|[e ->]].
  - right. exists s'. split; [reflexivity|].
    destruct signal as [k|].
    + destruct (run_signal s' k) as [Hr Ht].
      destruct (run s' (Some k)) as [[r s2] tr]. cbn [fst snd] in *. subst r tr.
      cbn [app]. rewrite <- !app_assoc. reflexivity.
    + destruct (run_no_signal s') as [Hr Ht].
      destruct (run s' None) as [[r s2] tr]. cbn [fst snd] in *. subst r tr. reflexivity.
  - left. exists e. reflexivity.
Qed.

(** *** C5: shutdown *)

(** C5, as the code has it: on a signal the handler stops every worker and
    leaves the interpreter with status 0 at once. [thread.join()] is never
    called, on a signal or otherwise: the loop of [run] that precedes the
    joins ends only by the handler, and the handler raises [SystemExit]. *)
Theorem signal_exits_without_join
    (cf : string) (mk : string -> bool) (home : string) (file : option config) :
  (forall signal, count is_join (snd (main cf mk home file signal)) = 0%nat) /\
  (forall s k,
     fst (fst (run s (Some k))) = Some (Raise (SystemExit 0)) /\
     snd (run s (Some k))
     = map EvThreadStart (map fst (cameras s)) ++
       repeat EvSleep (S k) ++
       EvLog (INFO, "Received shutdown signal") :: map EvStop (map fst (cameras s))).
Proof.
  split; [|apply run_signal].
  intros signal.
  destruct (main_cases cf mk home file signal) as [[e ->]|(s & _ & ->)]; [reflexivity|].
  destruct signal as [k|]; cbn [snd].
  - rewrite !count_app. change (EvLog ?r :: ?l ++ ?t) with ([EvLog r] ++ l ++ t).
    rewrite !count_app.
    rewrite !count_map_none by reflexivity.
    rewrite count_repeat_none by reflexivity. reflexivity.
  - apply count_map_none. reflexivity.
Qed.

(** *** C6: startup *)

(** C6, amended: a configuration file that is missing, is not JSON or has no
    [cameras] key ends the process with status 1 after one error line; no
    exit with a non-zero status comes after a worker was started. An empty
    list of cameras is accepted: the process starts no worker and stays in
    its wait loop until a signal ends it with status 0. *)
Theorem startup_failure_exits_before_workers
    (cf : string) (mk : string -> bool) (home : string) (signal : option nat) :
  main cf mk home None signal
  = (Exited 1, [EvLog (ERROR, "Failed to load config: " +++ exn_str (IOError cf));
                EvExit 1]) /\
  (forall base,
     main cf mk home (Some (mk_config base None)) signal
     = (Exited 1, [EvLog (ERROR, "Failed to load config: " +++ exn_str (KeyError "cameras"));
                   EvExit 1])) /\
  (forall file code,
     fst (main cf mk home file signal) = Exited code -> code <> 0 ->
     count is_thread_start (snd (main cf mk home file signal)) = 0%nat) /\
  (forall base,
     main cf mk home (Some (mk_config base (Some []))) signal
     = match signal with
       | None => (Alive, [])
       | Some k =>
           (Exited 0,
            repeat EvSleep (S k) ++ [EvLog (INFO, "Received shutdown signal"); EvExit 0])
       end).
Proof.
  split; [reflexivity|]. split; [reflexivity|]. split.
  - intros file code Hcode Hnz.
    destruct (main_cases cf mk home file signal) as [[e ->]|(s & _ & H)]; [reflexivity|].
    rewrite H in Hcode. destruct signal; cbn [fst] in Hcode; [|discriminate].
    inversion Hcode; subst. contradiction.
  - intros base. unfold main, MultiCameraSystem_init, load_config.
    cbn [bind py_index cfg_cameras load_cameras cameras].
    destruct signal as [k|].
    + destruct (run_signal {| config_file := cf; cameras := []; sys_running := false |} k)
        as [Hr Ht].
      destruct (run _ (Some k)) as [[r s2] tr]. cbn [fst snd cameras map app] in *.
      subst r tr. cbn [app]. rewrite <- app_assoc. reflexivity.
    + reflexivity.
Qed.

(** ** The claims on concrete runs *)

(** C1 fails as stated: with a quota of 1 GiB, a finalized chunk of 1.5 GiB
    and an active chunk of 2 GiB, the pass deletes the active chunk too. So
    it does with a small active chunk that has the modification time of the
    finalized one and is enumerated before it. *)
Lemma active_chunk_deleted :
  current_file ex_camera = Some (path_join (storage_dir ex_camera) (d_name ex_active)) /\
  In ex_active [ex_previous; ex_active] /\
  ~ In ex_active (fst (cleanup_old_files ex_camera [ex_previous; ex_active] [])) /\
  d_name ex_active_tied = d_name ex_active /\
  ~ In ex_active_tied (fst (cleanup_old_files ex_camera [ex_active_tied; ex_previous] [])).
Proof.
  split; [reflexivity|]. split; [simpl; auto|].
  split; [|split; [reflexivity|]]; vm_compute; intros H; exact H.
Qed.

Lemma cleanup_keeps_newest_within_quota_witness :
  In ex_active_small (fst (cleanup_old_files ex_camera [ex_previous; ex_active_small] [])).
Proof.
  apply (cleanup_keeps_newest_within_quota ex_camera [ex_previous; ex_active_small] []
           ex_active_small (mk_stat 36001 4096)).
  - repeat constructor; simpl; intuition discriminate.
  - simpl; auto.
  - reflexivity.
  - reflexivity.
  - vm_compute; discriminate.
  - intros e st' [<-|[<-|[]]] _ Hne Hst.
    + inversion Hst; subst; simpl; lia.
    + congruence.
Defined.

Lemma cleanup_reaches_quota_oldest_first_witness :
  disk_usage (fst (cleanup_old_files ex_camera ex_chunks [])) <= max_storage_bytes ex_camera \/
  glob_mp4 (fst (cleanup_old_files ex_camera ex_chunks [])) = [].
Proof.
  apply (cleanup_reaches_quota_oldest_first ex_camera ex_chunks []).
  - repeat constructor; simpl; intuition discriminate.
  - intros e [<-|[<-|[<-|[<-|[]]]]] _; split; (discriminate || reflexivity).
Defined.

(** C3 fails as stated: the oldest chunk cannot be deleted, the next one
    can, and the quota is exceeded without the oldest; the pass ends at the
    failure and leaves the directory as it was. *)
Lemma failed_unlink_ends_pass :
  cleanup_old_files ex_camera ex_locked_dir []
  = (ex_locked_dir,
     [EvCleanup;
      EvLog (INFO, "Camera cam1: Removing old file: /video/cam1/a.mp4");
      EvUnlink "/video/cam1/a.mp4" false;
      EvLog (ERROR, "Camera cam1: Error during cleanup: "
                    +++ "[Errno 13] Permission denied: '/video/cam1/a.mp4'")]) /\
  lookup "b.mp4" ex_locked_dir = Some (regular "b.mp4" 2 (3 * GiB / 5)) /\
  disk_usage (remove_entry "a.mp4" ex_locked_dir) > max_storage_bytes ex_camera.
Proof. vm_compute. repeat split. Qed.

Lemma cleanup_stops_at_failed_unlink_witness :
  exists e,
    [EvLog (ERROR, "Camera cam1: Error during cleanup: "
                   +++ "[Errno 13] Permission denied: '/video/cam1/a.mp4'")]
    = [EvLog (ERROR, "Camera " +++ camera_id ex_camera
                     +++ ": Error during cleanup: " +++ exn_str e)].
Proof.
  apply (cleanup_stops_at_failed_unlink ex_camera ex_locked_dir []
           [EvLog (INFO, "Camera cam1: Removing old file: /video/cam1/a.mp4")]
           _ "/video/cam1/a.mp4").
  vm_compute. reflexivity.
Defined.

(** C4 fails as stated. With a writer that opened under neither codec the
    frames are dropped and nothing is logged; with a write that raises, the
    loop ends although the read succeeded, and the next frame is not read. *)
Lemma write_failures_unlogged_or_fatal :
  events (snd (record (fresh ex_worker) ex_capture
                 (ex_chunk "2024-01-01_10-00-00" false false 36000)
                 [ex_frame 1%nat Written 36001; ex_frame 2%nat Written 36002; ex_stop]))
  = [EvCapture 0 true;
     EvCv2Writer 0 "/video/cam1/2024-01-01_10-00-00.mp4" mp4v false;
     EvCv2Writer 0 "/video/cam1/2024-01-01_10-00-00.mp4" MJPG false;
     EvRead true; EvWrite 0 1%nat Dropped;
     EvRead true; EvWrite 0 2%nat Dropped;
     EvWriterRelease 0; EvCapRelease] /\
  fst (record (fresh ex_worker) ex_capture
         (ex_chunk "2024-01-01_10-00-00" true true 36000)
         [ex_frame 1%nat (WriteRaises "encoder error") 36001;
          ex_frame 2%nat Written 36002; ex_stop]) = Returned /\
  events (snd (record (fresh ex_worker) ex_capture
                 (ex_chunk "2024-01-01_10-00-00" true true 36000)
                 [ex_frame 1%nat (WriteRaises "encoder error") 36001;
                  ex_frame 2%nat Written 36002; ex_stop]))
  = [EvCapture 0 true;
     EvCv2Writer 0 "/video/cam1/2024-01-01_10-00-00.mp4" mp4v true;
     EvRead true; EvWrite 0 1%nat (WriteRaises "encoder error");
     EvLog (ERROR, "Camera cam1: Recording error: encoder error");
     EvWriterRelease 0; EvCapRelease].
Proof. vm_compute. repeat split. Qed.

Lemma write_failure_in_loop_witness :
  record_loop ex_machine [ex_frame 1%nat Dropped 36001; ex_stop]
  = record_loop
      (emit (emit (set_self ex_machine (set_running (self ex_machine) true)) [EvRead true])
            [EvWrite 0 1%nat Dropped])
      [ex_stop].
Proof.
  refine (proj1 (proj2 (write_failure_in_loop ex_machine (ex_frame 1%nat Dropped 36001)
                          [ex_stop] 1%nat
                          (mk_writer 0 (mk_cv2_writer "/video/cam1/2024-01-01_10-00-00.mp4"
                                          mp4v 30 (640, 480) true))
                          _ _ _)) _ _);
    reflexivity.
Defined.

Lemma record_releases_exactly_once_witness :
  count is_cap_release
    (events (snd (record (fresh ex_worker) ex_capture
                    (ex_chunk "2024-01-01_10-00-00" true true 36000)
                    [ex_frame 1%nat Written 36001; ex_frame 2%nat Written 39601; ex_stop])))
  = 1%nat.
Proof.
  refine (proj1 (record_releases_exactly_once ex_worker ex_capture
                   (ex_chunk "2024-01-01_10-00-00" true true 36000)
                   [ex_frame 1%nat Written 36001; ex_frame 2%nat Written 39601; ex_stop]
                   _ _)).
  - reflexivity.
  - vm_compute. discriminate.
Defined.


(** C6 fails as stated: with an empty list of cameras the process does not
    abort; it waits, and a signal ends it with status 0. *)
Lemma empty_camera_list_accepted :
  main "cfg.json" (fun _ => true) "/Users/u" (ex_config []) None = (Alive, []) /\
  main "cfg.json" (fun _ => true) "/Users/u" (ex_config []) (Some 0%nat)
  = (Exited 0, [EvSleep; EvLog (INFO, "Received shutdown signal"); EvExit 0]).
Proof. split; reflexivity. Qed.

Lemma startup_failure_exits_before_workers_witness :
  count is_thread_start (snd (main "cfg.json" (fun _ => true) "/Users/u" None None)) = 0%nat.
Proof.
  refine (proj1 (proj2 (proj2 (startup_failure_exits_before_workers
                                 "cfg.json" (fun _ => true) "/Users/u" None)))
            None 1 _ _).
  - reflexivity.
  - discriminate.
Defined.

Lemma cleanup_ignores_other_files_witness :
  In (regular "notes.txt" 0 (5 * GiB)) (fst (cleanup_old_files ex_camera ex_chunks [])).
Proof.
  refine (proj1 (proj2 (cleanup_ignores_other_files ex_camera ex_chunks []))
            (regular "notes.txt" 0 (5 * GiB)) _ _).
  - simpl; auto.
  - reflexivity.
Defined.

(** C5 at a concrete input: two cameras, a signal during the second sleep.
    The workers are stopped and the process exits; no thread is joined. *)
Example shutdown_with_two_cameras :
  main "cfg.json" (fun _ => true) "/Users/u"
    (ex_config [mk_cam_config (Some "cam1") (Some 0) None None;
                mk_cam_config (Some "cam2") (Some 1) (Some 10) (Some 30)])
    (Some 1%nat)
  = (Exited 0,
     [EvThreadStart "cam1"; EvThreadStart "cam2"; EvSleep; EvSleep;
      EvLog (INFO, "Received shutdown signal");
      EvStop "cam1"; EvStop "cam2"; EvExit 0]).
Proof. reflexivity. Qed.

(** ** More on the eviction pass *)

Lemma decorate_fails {A K : Type} (key : A -> result K) (xs : list A) (x : A) (e0 : exception) :
  In x xs -> key x = Raise e0 -> exists e, decorate key xs = Raise e.
Proof.
  induction xs as [|y xs IH]; simpl; [tauto|].
  intros [->|Hin] Hx.
  - rewrite Hx. simpl. eauto.
  - destruct (key y); simpl; [|eauto].
    destruct (IH Hin Hx) as [e ->]. simpl. eauto.
Qed.

(** A pass whose listing or sum raises leaves the directory and logs. *)
Lemma cleanup_outcome (self : CameraProcess) (d : directory) (tr : trace) :
  (exists e,
     cleanup_old_files self d tr
     = (d, tr ++ [EvCleanup;
                  EvLog (ERROR, "Camera " +++ camera_id self
                                +++ ": Error during cleanup: " +++ exn_str e)])) \/
  (exists l total,
     sorted (fun x => let+ s := stat (storage_dir self) d x in Ok (st_mtime s)) (glob_mp4 d)
     = Ok l /\
     sum_of (fun f => let+ s := stat (storage_dir self) d f in Ok (st_size s)) l = Ok total /\
     fst (cleanup_old_files self d tr)
     = snd (fst (evict_loop self total l d (tr ++ [EvCleanup]))) /\
     unlinked (snd (cleanup_old_files self d tr))
     = unlinked (snd (evict_loop self total l d (tr ++ [EvCleanup])))).
Proof.
  destruct (sorted (fun x => let+ s := stat (storage_dir self) d x in Ok (st_mtime s))
              (glob_mp4 d)) as [l|e] eqn:Hl.
  - destruct (sum_of (fun f => let+ s := stat (storage_dir self) d f in Ok (st_size s)) l)
      as [total|e] eqn:Ht.
    + right; exists l, total. split; [reflexivity|]. split; [exact Ht|].
      apply (cleanup_run self d tr l total Hl Ht).
    + left; exists e. unfold cleanup_old_files, cleanup_body. rewrite Hl, Ht.
      now rewrite <- app_assoc.
  - left; exists e. unfold cleanup_old_files, cleanup_body. rewrite Hl.
    now rewrite <- app_assoc.
Qed.

Lemma sizes_are_disk_usage (d : directory) (l : list string) :
  NoDup (map d_name d) -> Permutation l (glob_mp4 d) ->
  zsum (map (size_of d) l) = disk_usage d.
Proof.
  intros Hnd Hperm.
  rewrite (zsum_perm _ _ (Permutation_map (size_of d) Hperm)).
  unfold glob_mp4, disk_usage, zsum. rewrite map_map. f_equal.
  apply map_ext_in. intros e He. apply filter_In in He as [He _].
  unfold size_of. now rewrite (lookup_nodup _ _ Hnd He).
Qed.

(** The listing and the sum of a pass, when they succeed. *)
Lemma listing_spec (self : CameraProcess) (d : directory) (l : list string) (total : Z) :
  NoDup (map d_name d) ->
  sorted (fun x => let+ s := stat (storage_dir self) d x in Ok (st_mtime s)) (glob_mp4 d)
  = Ok l ->
  sum_of (fun f => let+ s := stat (storage_dir self) d f in Ok (st_size s)) l = Ok total ->
  total = disk_usage d /\ NoDup l /\
  (forall n, In n l -> exists e, In e d /\ d_name e = n /\ is_mp4 e = true).
Proof.
  intros Hnd Hsort Hsum. apply sorted_spec in Hsort as [Hperm _].
  split; [|split].
  - apply sum_of_sizes in Hsum. rewrite Hsum. now apply sizes_are_disk_usage.
  - eapply Permutation_NoDup; [symmetry; exact Hperm|apply glob_mp4_nodup, Hnd].
  - intros n Hn. apply (Permutation_in _ Hperm), glob_mp4_in in Hn as (e & He & Hm & Hname).
    eauto.
Qed.

Lemma remove_names_nil (d : directory) : remove_names [] d = d.
Proof. reflexivity. Qed.

(** Every deletion of the loop is made on a directory that holds more than
    the quota. *)
Lemma evict_loop_over_quota (self : CameraProcess) (l : list string) :
  forall total d tr,
    total = disk_usage d -> NoDup (map d_name d) ->
    (forall n, In n l -> exists e, In e d /\ d_name e = n /\ is_mp4 e = true) ->
    NoDup l ->
    exists k,
      snd (fst (evict_loop self total l d tr)) = remove_names (firstn k l) d /\
      unlinked (snd (evict_loop self total l d tr))
      = unlinked tr ++ map (path_join (storage_dir self)) (firstn k l) /\
      forall j, (j < k)%nat ->
        disk_usage (remove_names (firstn j l) d) > max_storage_bytes self.
Proof.
  induction l as [|n l IH]; intros total d tr Ht Hnd Hl Hndl; cbn [evict_loop].
  - exists 0%nat. cbn. rewrite app_nil_r. repeat split; try reflexivity; intros; lia.
  - assert (Hstop : forall tr',
               exists k,
                 d = remove_names (firstn k (n :: l)) d /\
                 unlinked tr' = unlinked tr' ++ map (path_join (storage_dir self))
                                                  (firstn k (n :: l)) /\
                 forall j, (j < k)%nat ->
                   disk_usage (remove_names (firstn j (n :: l)) d) > max_storage_bytes self).
    { intros tr'. exists 0%nat. cbn. rewrite app_nil_r. repeat split; try reflexivity; intros; lia. }
    destruct (Z.gtb_spec total (max_storage_bytes self)) as [Hgt|Hle]; [|apply Hstop].
    destruct (stat (storage_dir self) d n) as [st|e] eqn:Hst; [|apply Hstop].
    cbv zeta.
    destruct (unlink (storage_dir self) d n) as [d1|e] eqn:Hu.
    2:{ cbn [fst snd]. destruct (Hstop tr) as (k & H1 & H2 & H3).
        exists 0%nat. cbn. rewrite !unlinked_app. cbn. rewrite !app_nil_r.
        repeat split; try reflexivity; intros; lia. }
    apply unlink_ok in Hu; subst d1.
    destruct (Hl n (or_introl eq_refl)) as (e & He & Hname & Hmp4).
    assert (Hsz : st_size st = entry_size e).
    { unfold stat in Hst. rewrite <- Hname, (lookup_nodup _ _ Hnd He) in Hst.
      unfold entry_size. destruct (d_stat e); [|discriminate]. now inversion Hst. }
    inversion Hndl as [|? ? Hn Hndl']; subst.
    match goal with
    | |- context [evict_loop self ?t l ?d1 ?tr1] =>
        destruct (IH t d1 tr1) as (k & Hd & Hun & Hover)
    end.
    + rewrite disk_usage_remove by auto. lia.
    + now apply names_nodup_filter.
    + intros m Hm. destruct (Hl m (or_intror Hm)) as (e' & He' & Hn' & Hm').
      exists e'. repeat split; auto. apply remove_entry_in. split; [exact He'|].
      intros E. apply Hn. rewrite <- E, Hn'. exact Hm.
    + exact Hndl'.
    + exists (S k). split; [exact Hd|]. split.
      * rewrite Hun, !unlinked_app. cbn. now rewrite app_nil_r, <- app_assoc.
      * intros [|j] Hj; [cbn [firstn]; rewrite remove_names_nil; lia|].
        cbn [firstn]. apply Hover. lia.
Qed.

(** X1: a pass reports what it deletes and deletes nothing else. *)
Theorem cleanup_deletes_what_it_logs (self : CameraProcess) (d : directory) (tr : trace) :
  exists names,
    unlinked (snd (cleanup_old_files self d tr))
    = unlinked tr ++ map (path_join (storage_dir self)) names /\
    fst (cleanup_old_files self d tr) = remove_names names d /\
    incl names (glob_mp4 d) /\
    incl (fst (cleanup_old_files self d tr)) d.
Proof.
  assert (Hincl : forall names, incl (remove_names names d) d)
    by (intros names e He; now apply remove_names_in in He).
  destruct (cleanup_outcome self d tr) as [[e ->]|(l & total & Hsort & _ & -> & ->)].
  - exists []. cbn [fst snd map]. rewrite unlinked_app. cbn. rewrite !app_nil_r.
    repeat split; try apply incl_refl. intros x [].
  - destruct (evict_loop self total l d (tr ++ [EvCleanup])) as [[out d'] tr'] eqn:Hloop.
    apply evict_loop_prefix in Hloop as (k & _ & -> & Htr). cbn [fst snd].
    exists (firstn k l). rewrite Htr, unlinked_app. cbn. rewrite app_nil_r.
    repeat split; auto.
    intros n Hn. apply in_firstn in Hn.
    apply sorted_spec in Hsort as [Hperm _]. now apply (Permutation_in _ Hperm).
Qed.

(** X2: no file is deleted while the directory is within the quota. *)
Theorem cleanup_deletes_only_over_quota (self : CameraProcess) (d : directory) (tr : trace) :
  NoDup (map d_name d) ->
  exists names,
    unlinked (snd (cleanup_old_files self d tr))
    = unlinked tr ++ map (path_join (storage_dir self)) names /\
    fst (cleanup_old_files self d tr) = remove_names names d /\
    forall j, (j < List.length names)%nat ->
      disk_usage (remove_names (firstn j names) d) > max_storage_bytes self.
Proof.
  intros Hnd.
  destruct (cleanup_outcome self d tr) as [[e ->]|(l & total & Hsort & Hsum & -> & ->)].
  - exists []. cbn [fst snd map]. rewrite unlinked_app. cbn. rewrite !app_nil_r.
    repeat split. intros j Hj; cbn in Hj; lia.
  - destruct (listing_spec self d l total Hnd Hsort Hsum) as (Ht & Hndl & Hl).
    destruct (evict_loop_over_quota self l total d (tr ++ [EvCleanup]) Ht Hnd Hl Hndl)
      as (k & Hd & Hun & Hover).
    exists (firstn k l). rewrite Hd, Hun, unlinked_app. cbn. rewrite app_nil_r.
    repeat split. intros j Hj.
    assert (Hjk : (j < k)%nat).
    { rewrite length_firstn in Hj. lia. }
    rewrite firstn_firstn, Nat.min_l by lia. apply Hover, Hjk.
Qed.

Lemma evict_loop_within_quota (self : CameraProcess) (l : list string)
    (total : Z) (d : directory) (tr : trace) :
  total <= max_storage_bytes self -> evict_loop self total l d tr = (Ok tt, d, tr).
Proof.
  intros Hle. destruct l as [|n l]; cbn [evict_loop]; [reflexivity|].
  destruct (Z.gtb_spec total (max_storage_bytes self)); [lia|reflexivity].
Qed.

(** The listing and the sum succeed when every [*.mp4] entry answers
    [stat]. *)
Lemma listing_total (self : CameraProcess) (d : directory) :
  NoDup (map d_name d) ->
  (forall e, In e d -> is_mp4 e = true -> d_stat e <> None) ->
  exists l total,
    sorted (fun x => let+ s := stat (storage_dir self) d x in Ok (st_mtime s)) (glob_mp4 d)
    = Ok l /\
    sum_of (fun f => let+ s := stat (storage_dir self) d f in Ok (st_size s)) l = Ok total.
Proof.
  intros Hnd Hok.
  assert (Hstat : forall n, In n (glob_mp4 d) ->
                            exists st, stat (storage_dir self) d n = Ok st).
  { intros n Hn. apply glob_mp4_in in Hn as (e & He & Hm & <-).
    unfold stat. rewrite (lookup_nodup _ _ Hnd He).
    specialize (Hok e He Hm). destruct (d_stat e); [eauto|congruence]. }
  destruct (decorate_total
              (fun x => let+ s := stat (storage_dir self) d x in Ok (st_mtime s))
              (glob_mp4 d)) as [ks Hks].
  { intros n Hn. destruct (Hstat n Hn) as [st ->]. cbn. eauto. }
  assert (Hsort : sorted (fun x => let+ s := stat (storage_dir self) d x in Ok (st_mtime s))
                    (glob_mp4 d) = Ok (map snd (sort_by ks)))
    by (unfold sorted; now rewrite Hks).
  exists (map snd (sort_by ks)). 
  destruct (sum_of_total
              (fun f => let+ s := stat (storage_dir self) d f in Ok (st_size s))
              (map snd (sort_by ks))) as [total Htotal].
  { intros n Hn. apply sorted_spec in Hsort as [Hperm _].
    apply (Permutation_in _ Hperm) in Hn. destruct (Hstat n Hn) as [st ->]. cbn. eauto. }
  exists total. auto.
Qed.

(** X3: a pass over a directory within the quota does nothing but start. *)
Theorem cleanup_within_quota_is_noop (self : CameraProcess) (d : directory) (tr : trace) :
  NoDup (map d_name d) ->
  (forall e, In e d -> is_mp4 e = true -> d_stat e <> None) ->
  disk_usage d <= max_storage_bytes self ->
  cleanup_old_files self d tr = (d, tr ++ [EvCleanup]).
Proof.
  intros Hnd Hok Hle.
  destruct (listing_total self d Hnd Hok) as (l & total & Hsort & Hsum).
  destruct (listing_spec self d l total Hnd Hsort Hsum) as (Ht & _).
  unfold cleanup_old_files, cleanup_body. rewrite Hsort, Hsum.
  rewrite evict_loop_within_quota by lia. reflexivity.
Qed.

(** X4: one [*.mp4] entry that does not answer [stat] stops every pass before
    its first deletion, whatever the directory holds. *)
Theorem cleanup_unreadable_entry_disables_eviction
    (self : CameraProcess) (d : directory) (tr : trace) (e : dirent) :
  NoDup (map d_name d) ->
  In e d -> is_mp4 e = true -> d_stat e = None ->
  exists err,
    cleanup_old_files self d tr
    = (d, tr ++ [EvCleanup;
                 EvLog (ERROR, "Camera " +++ camera_id self
                               +++ ": Error during cleanup: " +++ exn_str err)]).
Proof.
  intros Hnd He Hm Hst.
  destruct (decorate_fails
              (fun x => let+ s := stat (storage_dir self) d x in Ok (st_mtime s))
              (glob_mp4 d) (d_name e)
              (FileNotFoundError (path_join (storage_dir self) (d_name e))))
    as [err Herr].
  - apply glob_mp4_in; eauto.
  - unfold stat. rewrite (lookup_nodup _ _ Hnd He), Hst. reflexivity.
  - exists err. unfold cleanup_old_files, cleanup_body, sorted. rewrite Herr.
    cbn [bind]. now rewrite <- app_assoc.
Qed.

Lemma disk_usage_positive (d : directory) :
  (forall e, In e d -> is_mp4 e = true -> 0 < entry_size e) ->
  glob_mp4 d <> [] -> 0 < disk_usage d.
Proof.
  induction d as [|x d IH]; intros Hpos Hne; [now destruct Hne|].
  rewrite disk_usage_cons.
  destruct (is_mp4 x) eqn:Hx.
  - assert (0 < entry_size x) by (apply Hpos; simpl; auto).
    destruct (glob_mp4 d) eqn:Hg.
    + assert (disk_usage d = 0).
      { unfold disk_usage, glob_mp4 in *. apply map_eq_nil in Hg. now rewrite Hg. }
      lia.
    + assert (0 < disk_usage d) by (apply IH; [intros; apply Hpos; simpl; auto|congruence]).
      lia.
  - assert (0 < disk_usage d).
    { apply IH; [intros; apply Hpos; simpl; auto|].
      unfold glob_mp4 in *. cbn [filter] in Hne. now rewrite Hx in Hne. }
    lia.
Qed.

(** X5: with a quota of zero or less, a pass that can delete deletes every
    [*.mp4] file that is not empty, the active chunk among them. *)
Theorem cleanup_without_quota_deletes_all (self : CameraProcess) (d : directory) (tr : trace) :
  NoDup (map d_name d) ->
  (forall e, In e d -> is_mp4 e = true ->
             d_stat e <> None /\ d_unlink_ok e = true /\ 0 < entry_size e) ->
  max_storage_bytes self <= 0 ->
  glob_mp4 (fst (cleanup_old_files self d tr)) = [].
Proof.
  intros Hnd Hok Hq.
  destruct (listing_total self d Hnd) as (l & total & Hsort & Hsum).
  { intros e He Hm. now destruct (Hok e He Hm). }
  destruct (listing_spec self d l total Hnd Hsort Hsum) as (Ht & Hndl & Hl).
  destruct (cleanup_run self d tr l total Hsort Hsum) as [Hd _].
  assert (Hperm := proj1 (sorted_spec _ _ _ Hsort)).
  destruct (evict_loop_quota self l total d (tr ++ [EvCleanup]) Hnd Hndl) as [Hle|Hnone].
  - intros n Hn. destruct (Hl n Hn) as (e & He & Hname & Hm).
    exists e. destruct (Hok e He Hm) as (H1 & H2 & _). auto.
  - intros e He Hm. apply (Permutation_in _ (Permutation_sym Hperm)), glob_mp4_in. eauto.
  - exact Ht.
  - rewrite <- Hd in Hle.
    destruct (glob_mp4 (fst (cleanup_old_files self d tr))) eqn:Hg; [reflexivity|].
    assert (0 < disk_usage (fst (cleanup_old_files self d tr))).
    { apply disk_usage_positive; [|congruence].
      intros e He Hm.
      destruct (cleanup_dir_cases self d tr) as [E|(l' & t' & _ & _ & E)];
        rewrite E in He.
      - now destruct (Hok e He Hm) as (_ & _ & H).
      - destruct (evict_loop self t' l' d (tr ++ [EvCleanup])) as [[out d'] tr'] eqn:Hloop.
        apply evict_loop_prefix in Hloop as (k & _ & -> & _). cbn in He.
        apply remove_names_in in He as [He _].
        now destruct (Hok e He Hm) as (_ & _ & H). }
    lia.
  - now rewrite Hd.
Qed.

(** ** More on the recording loop *)

Lemma fnmatch_star_suffix (lit s : string) : fnmatch_star lit (s +++ lit) = true.
Proof.
  induction s as [|ch s IH]; cbn [String.append].
  - destruct lit; cbn [fnmatch_star]; now rewrite String.eqb_refl.
  - cbn [fnmatch_star]. rewrite IH. now destruct (String.eqb _ lit).
Qed.

(** [start_new_chunk] on a worker that holds a capture handle. *)
Lemma start_new_chunk_result (m : machine) (env : chunk_env) (c : capture) :
  cap (self m) = Some c ->
  start_new_chunk m env
  = (Ok tt,
     {| self :=
          set_chunk_start_time
            (set_writer
               (set_current_file (self m)
                  (Some (path_join (storage_dir (self m)) (ce_timestamp env +++ ".mp4"))))
               (Some (mk_writer (next_oid m)
                        (mk_cv2_writer
                           (path_join (storage_dir (self m)) (ce_timestamp env +++ ".mp4"))
                           (if ce_mp4v_ok env then mp4v else MJPG)
                           (cap_fps c) (cap_width c, cap_height c)
                           (ce_mp4v_ok env || ce_mjpg_ok env)))))
            (Some (ce_now env));
        next_oid := S (next_oid m);
        events :=
          (events m ++
           match writer (self m) with
           | Some w => [EvWriterRelease (vw_id w)]
           | None => []
           end) ++
          EvCv2Writer (next_oid m)
            (path_join (storage_dir (self m)) (ce_timestamp env +++ ".mp4"))
            mp4v (ce_mp4v_ok env) ::
          (if ce_mp4v_ok env then []
           else [EvCv2Writer (next_oid m)
                   (path_join (storage_dir (self m)) (ce_timestamp env +++ ".mp4"))
                   MJPG (ce_mjpg_ok env)]) |}).
Proof.
  intros Hc. unfold start_new_chunk.
  destruct (writer (self m)) as [w|] eqn:Hw; cbv zeta;
    cbn [emit set_self self set_current_file cap storage_dir next_oid events
         VideoWriter_release];
    rewrite Hc, writer_init_events; cbn [set_writer set_chunk_start_time writer];
    rewrite ?app_nil_r; reflexivity.
Qed.

(** X6: the file a new chunk is written to is the one [current_file] names,
    in the camera's directory, under a name the eviction pass lists. *)
Theorem chunk_file_is_eviction_candidate (m : machine) (env : chunk_env) (c : capture) :
  cap (self m) = Some c ->
  exists w name,
    writer (self (snd (start_new_chunk m env))) = Some w /\
    current_file (self (snd (start_new_chunk m env))) = Some (cv_filename (vw_writer w)) /\
    cv_filename (vw_writer w) = path_join (storage_dir (self m)) name /\
    fnmatch_star ".mp4" name = true /\
    storage_dir (self (snd (start_new_chunk m env))) = storage_dir (self m).
Proof.
  intros Hc. rewrite (start_new_chunk_result m env c Hc). cbn.
  eexists; eexists. split; [reflexivity|]. split; [reflexivity|].
  split; [reflexivity|]. split; [apply fnmatch_star_suffix|reflexivity].
Qed.

Lemma frames_written_app (a b : trace) :
  frames_written (a ++ b) = frames_written a ++ frames_written b.
Proof.
  induction a as [|ev a IH]; cbn; [reflexivity|].
  destruct ev; cbn; rewrite ?IH; reflexivity.
Qed.

(** Events of the file system and the log concern no writer, frame or
    read. *)
Lemma fs_events_quiet (evs : trace) :
  Forall (fun ev => is_fs_event ev = true) evs ->
  (forall cur, monitor write_step cur evs = Some cur) /\
  frames_written evs = [] /\
  Forall (fun ev => is_failed_read ev = false) evs /\
  count is_cleanup evs = 0%nat.
Proof.
  induction 1 as [|ev evs Hev _ (IH1 & IH2 & IH3 & IH4)].
  - repeat split; constructor.
  - destruct ev; try discriminate; repeat split; cbn; auto.
Qed.

(** One iteration from a state of the loop: the frame it read is handed to
    the writer once; the iteration ends in a state of the loop, or raises
    for a failed read or a raising write and leaves the writer as it was. *)
Lemma loop_body_step (m : machine) (env : step_env) :
  loop_inv m ->
  frames_written (events (snd (loop_body m env)))
  = frames_written (events m) ++
    match se_read env with Some f => [f] | None => [] end /\
  match fst (loop_body m env) with
  | Ok _ => loop_inv (snd (loop_body m env))
  | Raise e =>
      self (snd (loop_body m env)) = self m /\
      (exists w, writer (self m) = Some w /\
                 monitor write_step None (events (snd (loop_body m env)))
                 = Some (Some (vw_id w))) /\
      ((e = Exception "Failed to read frame" /\
        events (snd (loop_body m env)) = events m ++ [EvRead false]) \/
       ((exists msg, e = cv2_error msg) /\
        Forall (fun ev => is_failed_read ev = false) (events (snd (loop_body m env)))))
  end.
Proof.
  intros [(w & Hw & Hmon) [c Hc] [t Ht] Hreads].
  unfold loop_body.
  destruct (se_read env) as [f|].
  2:{ cbn [fst snd emit events self]. rewrite frames_written_app. split; [reflexivity|].
      split; [reflexivity|]. split; [|left; auto].
      exists w. split; [exact Hw|]. rewrite monitor_app, Hmon. reflexivity. }
  cbn [emit self]. rewrite Hw. unfold VideoWriter_write.
  set (o := cv2_write (vw_writer w) (se_write env)).
  set (m2 := emit (emit m [EvRead true]) [EvWrite (vw_id w) f o]).
  assert (Hev2 : events m2 = events m ++ [EvRead true; EvWrite (vw_id w) f o])
    by (unfold m2; cbn; now rewrite <- app_assoc).
  assert (Hmon2 : monitor write_step None (events m2) = Some (Some (vw_id w))).
  { rewrite Hev2, monitor_app, Hmon. cbn. now rewrite Nat.eqb_refl. }
  assert (Hfr2 : frames_written (events m2) = frames_written (events m) ++ [f])
    by (rewrite Hev2, frames_written_app; reflexivity).
  assert (Hrd2 : Forall (fun ev => is_failed_read ev = false) (events m2))
    by (rewrite Hev2; apply Forall_app; split; [exact Hreads|repeat constructor]).
  assert (Hrest :
    frames_written
      (events (snd (match rotation_due (self m2) (se_now env) with
                    | Raise e => (Raise e, m2)
                    | Ok false => (Ok tt, m2)
                    | Ok true =>
                        match start_new_chunk m2 (se_chunk env) with
                        | (Raise e, m3) => (Raise e, m3)
                        | (Ok _, m3) =>
                            let (_, tr) := cleanup_old_files (self m3) (se_dir env)
                                             (events m3) in
                            (Ok tt, {| self := self m3; next_oid := next_oid m3;
                                       events := tr |})
                        end
                    end)))
    = frames_written (events m) ++ [f] /\
    exists m', (match rotation_due (self m2) (se_now env) with
                | Raise e => (Raise e, m2)
                | Ok false => (Ok tt, m2)
                | Ok true =>
                    match start_new_chunk m2 (se_chunk env) with
                    | (Raise e, m3) => (Raise e, m3)
                    | (Ok _, m3) =>
                        let (_, tr) := cleanup_old_files (self m3) (se_dir env)
                                         (events m3) in
                        (Ok tt, {| self := self m3; next_oid := next_oid m3;
                                   events := tr |})
                    end
                end) = (Ok tt, m') /\ loop_inv m').
  { unfold rotation_due. change (self m2) with (self m). rewrite Ht.
    destruct (float_gt_int _ _).
    - rewrite (start_new_chunk_result m2 (se_chunk env) c Hc).
      change (writer (self m2)) with (writer (self m)). rewrite Hw.
      match goal with
      | |- context [cleanup_old_files ?s ?d ?tr] =>
          destruct (cleanup_events s d tr) as (new & Hnew & Hfs);
          destruct (cleanup_old_files s d tr) as [d' tr'] eqn:Hcl
      end.
      cbn [snd events self next_oid] in *. subst tr'.
      destruct (fs_events_quiet new Hfs) as (Q1 & Q2 & Q3 & _).
      change (EvCleanup :: new) with ([EvCleanup] ++ new).
      split.
      + rewrite !frames_written_app, Hfr2, Q2.
        destruct (ce_mp4v_ok (se_chunk env)); cbn; now rewrite !app_nil_r.
      + eexists; split; [reflexivity|].
        constructor; cbn [self events cap chunk_start_time writer
                          set_chunk_start_time set_writer set_current_file].
        * eexists; split; [reflexivity|]. cbn [vw_id].
          rewrite !monitor_app, Hmon2. cbn [monitor write_step].
          destruct (ce_mp4v_ok (se_chunk env)); cbn [monitor write_step]; apply Q1.
        * change (cap (self m2)) with (cap (self m)). eauto.
        * eauto.
        * repeat (apply Forall_app; split); auto;
            destruct (ce_mp4v_ok (se_chunk env)); repeat constructor; auto.
    - cbn [snd]. split; [exact Hfr2|].
      exists m2. split; [reflexivity|].
      constructor; try change (self m2) with (self m); eauto. }
  destruct Hrest as (Hfr & m' & Hm' & Hinv').
  change (self m2) with (self m) in Hm', Hfr.
  destruct o as [| |msg] eqn:Ho; cbv beta iota zeta; fold m2.
  - rewrite Hm' in *. cbn [fst snd] in *. auto.
  - rewrite Hm' in *. cbn [fst snd] in *. auto.
  - cbn [fst snd]. split; [exact Hfr2|]. split; [reflexivity|]. split.
    + exists w. split; [reflexivity|exact Hmon2].
    + right. split; [eauto|exact Hrd2].
Qed.

Lemma loop_inv_set_running (m : machine) (b : bool) :
  loop_inv m -> loop_inv (set_self m (set_running (self m) b)).
Proof. intros [Hw Hc Ht Hr]. constructor; cbn; auto. Qed.

(** The loop from one of its states: the frames of the iterations it runs
    are handed to the writer in order; it ends with the writer of its last
    chunk still held, and a read that failed is the last event. *)
Lemma record_loop_spec (envs : list step_env) :
  forall m,
    loop_inv m ->
    (exists fs,
       frames_written (events (snd (record_loop m envs)))
       = frames_written (events m) ++ fs /\
       map Some fs = firstn (List.length fs) (map se_read envs)) /\
    (exists w, writer (self (snd (record_loop m envs))) = Some w /\
               monitor write_step None (events (snd (record_loop m envs)))
               = Some (Some (vw_id w))) /\
    (exists c, cap (self (snd (record_loop m envs))) = Some c) /\
    match fst (record_loop m envs) with
    | Some (Raise e) =>
        (e = Exception "Failed to read frame" /\
         exists pre, events (snd (record_loop m envs)) = pre ++ [EvRead false] /\
                     Forall (fun ev => is_failed_read ev = false) pre) \/
        ((exists msg, e = cv2_error msg) /\
         Forall (fun ev => is_failed_read ev = false) (events (snd (record_loop m envs))))
    | _ => Forall (fun ev => is_failed_read ev = false) (events (snd (record_loop m envs)))
    end.
Proof.
  induction envs as [|env envs IH]; intros m Hm; cbn [record_loop].
  - destruct Hm as [Hw Hc Ht Hr]. cbn [fst snd]. repeat split; auto.
    exists []. now rewrite app_nil_r.
  - assert (H0 := loop_inv_set_running m (se_running env) Hm).
    set (m0 := set_self m (set_running (self m) (se_running env))) in *.
    destruct (running (self m0)).
    2:{ destruct H0 as [Hw Hc Ht Hr]. cbn [fst snd]. repeat split; auto.
        exists []. now rewrite app_nil_r. }
    destruct (loop_body_step m0 env H0) as [Hfr Hres].
    destruct (loop_body m0 env) as [[u|e] m1] eqn:Hbody; cbn [fst snd] in *.
    + destruct (se_read env) as [f|] eqn:Hread.
      2:{ unfold loop_body in Hbody. rewrite Hread in Hbody. discriminate. }
      destruct (IH m1 Hres) as ((fs & Hfs & Hmap) & Hrest).
      split; [|exact Hrest].
      exists (f :: fs). rewrite Hfs, Hfr. change (events m0) with (events m).
      rewrite <- app_assoc. split; [reflexivity|].
      cbn [map List.length firstn]. now rewrite Hread, Hmap.
    + destruct Hres as (Hself & Hw & Hcases). rewrite Hself.
      destruct H0 as [_ Hc _ Hr0].
      split; [|split; [exact Hw|split; [exact Hc|]]].
      * eexists. split; [exact Hfr|].
        destruct (se_read env) eqn:E; cbn [map List.length firstn]; now rewrite ?E.
      * destruct Hcases as [[-> Hev]|[Hmsg Hall]].
        -- left. split; [reflexivity|]. exists (events m0). auto.
        -- right. auto.
Qed.

(** The [try] block of [record], up to the loop. *)
Lemma record_try_cases (s : CameraProcess) (c : capture) (chunk0 : chunk_env)
    (envs : list step_env) :
  writer s = None ->
  (cap_opened c = false /\
   record_try (fresh s) c chunk0 envs
   = (Some (Raise (Exception ("Failed to open camera "
                              +++ NilZero.string_of_int (Z.to_int (device_id s))))),
      {| self := set_cap s (Some c); next_oid := 0;
         events := [EvCapture (device_id s) false] |})) \/
  (cap_opened c = true /\
   exists m, loop_inv m /\ frames_written (events m) = [] /\
             (count is_cleanup (events m) = 0%nat /\ unlinked (events m) = []) /\
             chunk_start_time (self m) = Some (ce_now chunk0) /\
             chunk_duration_mins (self m) = chunk_duration_mins s /\
             record_try (fresh s) c chunk0 envs = record_loop m envs).
Proof.
  intros Hw. unfold record_try.
  destruct (cap_opened c) eqn:Hc; cbn [negb].
  - right. split; [reflexivity|].
    match goal with
    | |- context [start_new_chunk ?m1 chunk0] =>
        rewrite (start_new_chunk_result m1 chunk0 c eq_refl)
    end.
    cbn [emit set_self fresh self set_cap writer events next_oid]. rewrite Hw.
    eexists. split; [|split; [|split; [|split; [|split; [|reflexivity]]]]].
    + constructor; cbn [self events writer cap chunk_start_time set_chunk_start_time
                        set_writer set_current_file set_cap].
      * eexists. split; [reflexivity|].
        destruct (ce_mp4v_ok chunk0); reflexivity.
      * eauto.
      * eauto.
      * destruct (ce_mp4v_ok chunk0); repeat constructor.
    + cbn [events]. destruct (ce_mp4v_ok chunk0); reflexivity.
    + cbn [events]. destruct (ce_mp4v_ok chunk0); split; reflexivity.
    + reflexivity.
    + reflexivity.
  - left. split; [reflexivity|]. reflexivity.
Qed.

Lemma record_finally_events (m : machine) (w : VideoWriter) (c : capture) :
  writer (self m) = Some w -> cap (self m) = Some c ->
  events (record_finally m) = events m ++ [EvWriterRelease (vw_id w); EvCapRelease].
Proof.
  intros Hw Hc. unfold record_finally. rewrite Hw. cbn [emit self]. rewrite Hc.
  cbn [emit events VideoWriter_release]. now rewrite <- app_assoc.
Qed.

(** The trace of [record]: what the loop left, then the error line if the
    loop raised, then the two releases. *)
Lemma record_trace (s : CameraProcess) (c : capture) (chunk0 : chunk_env)
    (envs : list step_env) :
  writer s = None ->
  (cap_opened c = false /\
   record (fresh s) c chunk0 envs
   = (Returned,
      {| self := set_cap s (Some c); next_oid := 0;
         events := [EvCapture (device_id s) false;
                    EvLog (ERROR, "Camera " +++ camera_id s +++ ": Recording error: "
                                  +++ "Failed to open camera "
                                  +++ NilZero.string_of_int (Z.to_int (device_id s)));
                    EvCapRelease] |})) \/
  (cap_opened c = true /\
   exists m m' w tail,
     loop_inv m /\ frames_written (events m) = [] /\
     (count is_cleanup (events m) = 0%nat /\ unlinked (events m) = []) /\
     chunk_start_time (self m) = Some (ce_now chunk0) /\
     chunk_duration_mins (self m) = chunk_duration_mins s /\
     snd (record_loop m envs) = m' /\
     writer (self m') = Some w /\
     events (snd (record (fresh s) c chunk0 envs)) = events m' ++ tail /\
     match fst (record_loop m envs) with
     | None => fst (record (fresh s) c chunk0 envs) = InLoop /\ tail = []
     | Some (Ok _) =>
         fst (record (fresh s) c chunk0 envs) = Returned /\
         tail = [EvWriterRelease (vw_id w); EvCapRelease]
     | Some (Raise e) =>
         fst (record (fresh s) c chunk0 envs) = Returned /\
         tail = [EvLog (ERROR, "Camera " +++ camera_id (self m')
                               +++ ": Recording error: " +++ exn_str e);
                 EvWriterRelease (vw_id w); EvCapRelease]
     end).
Proof.
  intros Hw.
  destruct (record_try_cases s c chunk0 envs Hw)
    as [[Hc Htry]|[Hc (m & Hm & Hfr & Hcl & Ht & Hd & Htry)]].
  - left. split; [exact Hc|]. unfold record. rewrite Htry.
    cbn [is_Exception]. unfold record_finally.
    cbn [emit self writer set_cap cap events camera_id]. rewrite Hw.
    cbn [self cap set_cap emit events exn_str]. reflexivity.
  - right. split; [exact Hc|].
    destruct (record_loop_spec envs m Hm) as (_ & (w & Hw' & _) & (c' & Hc') & Hcases).
    unfold record. rewrite Htry.
    destruct (record_loop m envs) as [[[u|e]|] m'] eqn:Hloop; cbn [fst snd] in *.
    + exists m, m', w. eexists. rewrite Hloop. cbn [fst snd].
      repeat (split; [eassumption || reflexivity|]).
      split; [apply (record_finally_events m' w c' Hw' Hc')|]. auto.
    + assert (He : is_Exception e = true)
        by (destruct Hcases as [[-> _]|[[msg ->] _]]; reflexivity).
      rewrite He. cbn [snd fst].
      exists m, m', w. eexists. rewrite Hloop. cbn [fst snd].
      repeat (split; [eassumption || reflexivity|]).
      split; [|split; reflexivity].
      rewrite (record_finally_events _ w c'); [|exact Hw'|exact Hc'].
      cbn [emit events]. now rewrite <- app_assoc.
    + exists m, m', w, []. rewrite Hloop. cbn [fst snd].
      repeat (split; [eassumption || reflexivity|]).
      split; [now rewrite app_nil_r|]. auto.
Qed.

(** X7: a camera that does not open gives no recording: [record] returns
    after one error line and the release of the handle; it creates no
    writer and reads nothing. *)
Theorem record_open_failure (s : CameraProcess) (c : capture) (chunk0 : chunk_env)
    (envs : list step_env) :
  writer s = None -> cap_opened c = false ->
  record (fresh s) c chunk0 envs
  = (Returned,
     {| self := set_cap s (Some c); next_oid := 0;
        events := [EvCapture (device_id s) false;
                   EvLog (ERROR, "Camera " +++ camera_id s +++ ": Recording error: "
                                 +++ "Failed to open camera "
                                 +++ NilZero.string_of_int (Z.to_int (device_id s)));
                   EvCapRelease] |}).
Proof.
  intros Hw Hc.
  destruct (record_trace s c chunk0 envs Hw) as [[_ H]|[Hc' _]]; [exact H|congruence].
Qed.

(** X8: the frames handed to the writer are the frames read, one write per
    read, in the order of the reads. *)
Theorem frames_written_in_read_order (s : CameraProcess) (c : capture) (chunk0 : chunk_env)
    (envs : list step_env) :
  writer s = None ->
  map Some (frames_written (events (snd (record (fresh s) c chunk0 envs))))
  = firstn (List.length (frames_written (events (snd (record (fresh s) c chunk0 envs)))))
      (map se_read envs).
Proof.
  intros Hw.
  destruct (record_trace s c chunk0 envs Hw)
    as [[_ ->]|[_ (m & m' & w & tail & Hm & Hfr & _ & _ & _ & Hm' & _ & -> & Htail)]];
    [reflexivity|].
  destruct (record_loop_spec envs m Hm) as ((fs & Hfs & Hmap) & _).
  rewrite Hm', Hfr in Hfs. cbn [app] in Hfs.
  assert (Ht : frames_written tail = []).
  { destruct (fst (record_loop m envs)) as [[u|e]|]; destruct Htail as [_ ->]; reflexivity. }
  rewrite frames_written_app, Ht, app_nil_r, Hfs. exact Hmap.
Qed.

(** An accepted trace writes only to the writer created last and not
    released since. *)
Lemma monitor_write_sound (tr : trace) :
  forall cur st,
    monitor write_step cur tr = Some st ->
    forall p id f o q,
      tr = p ++ EvWrite id f o :: q ->
      (cur = Some id /\ Forall (fun ev => is_writer_change ev = false) p) \/
      exists p1 file ok p2,
        p = p1 ++ EvCv2Writer id file mp4v ok :: p2 /\
        Forall (fun ev => is_writer_change ev = false) p2.
Proof.
  induction tr as [|ev tr IH]; intros cur st Hmon p id f o q Hpq.
  - destruct p; discriminate.
  - cbn [monitor] in Hmon.
    destruct (write_step cur ev) as [cur'|] eqn:Hstep; [|discriminate].
    destruct p as [|ev' p]; cbn [app] in Hpq; inversion Hpq; subst.
    + left. split; [|constructor]. cbn in Hstep.
      destruct cur as [id'|]; [|discriminate].
      destruct (Nat.eqb_spec id' id); [congruence|discriminate].
    + destruct (IH cur' st Hmon p id f o q eq_refl)
        as [[Hcur Hquiet]|(p1 & file & ok & p2 & -> & Hquiet)].
      * assert (Hkeep : cur' = cur -> is_writer_change ev' = false ->
                        cur = Some id /\
                        Forall (fun ev => is_writer_change ev = false) (ev' :: p))
          by (intros <- Hq; split; [exact Hcur|constructor; [exact Hq|exact Hquiet]]).
        destruct ev' as [dev op|ret| |wid wfile wc wok|wid wf wo|rid| |path uok|r|cid| |cid|cid|code];
          cbn in Hstep; try (left; apply Hkeep; [congruence|reflexivity]).
        -- destruct wc; [|left; apply Hkeep; [congruence|reflexivity]].
           right. exists [], wfile, wok, p. split; [|exact Hquiet].
           cbn. repeat f_equal. congruence.
        -- destruct cur as [id'|]; [|discriminate].
           destruct (Nat.eqb id' wid); [|discriminate].
           left; apply Hkeep; [congruence|reflexivity].
        -- congruence.
      * right. exists (ev' :: p1), file, ok, p2. auto.
Qed.

(** X9: every write goes to the writer that was created last; no frame is
    written to a writer that was released or before one exists. *)
Theorem writes_go_to_the_open_writer (s : CameraProcess) (c : capture) (chunk0 : chunk_env)
    (envs : list step_env) :
  writer s = None ->
  forall p id f o q,
    events (snd (record (fresh s) c chunk0 envs)) = p ++ EvWrite id f o :: q ->
    exists p1 file ok p2,
      p = p1 ++ EvCv2Writer id file mp4v ok :: p2 /\
      Forall (fun ev => is_writer_change ev = false) p2.
Proof.
  intros Hw p id f o q Hpq.
  assert (Hmon : exists st,
             monitor write_step None (events (snd (record (fresh s) c chunk0 envs)))
             = Some st).
  { destruct (record_trace s c chunk0 envs Hw)
      as [[_ ->]|[_ (m & m' & w & tail & Hm & _ & _ & _ & _ & Hm' & Hw' & -> & Htail)]];
      [cbn; eauto|].
    destruct (record_loop_spec envs m Hm) as (_ & (w' & Hw'' & Hmon) & _).
    rewrite Hm' in *. rewrite monitor_app, Hmon.
    destruct (fst (record_loop m envs)) as [[u|e]|]; destruct Htail as [_ ->]; cbn; eauto. }
  destruct Hmon as [st Hmon].
  destruct (monitor_write_sound _ _ _ Hmon p id f o q Hpq) as [[H _]|H];
    [discriminate|exact H].
Qed.

Lemma first_match_unique (test : event -> bool) (a b pre post : trace) (x y : event) :
  Forall (fun ev => test ev = false) a ->
  Forall (fun ev => test ev = false) b ->
  test y = true ->
  a ++ x :: b = pre ++ y :: post ->
  pre = a /\ y = x /\ post = b.
Proof.
  intros Ha Hb Hy; revert pre; induction Ha as [|u a Hu Ha IH]; intros pre H.
  - destruct pre as [|z pre]; cbn in H; inversion H; subst; [auto|].
    rewrite Forall_forall in Hb.
    rewrite (Hb y) in Hy; [discriminate|]. apply in_or_app; cbn; auto.
  - destruct pre as [|z pre]; cbn in H; inversion H; subst.
    + congruence.
    + destruct (IH pre) as (-> & -> & ->); auto.
Qed.

(** X10: a read that fails is the last thing the worker does with its camera:
    after it come the error line and the two releases, nothing else. *)
Theorem failed_read_is_terminal (s : CameraProcess) (c : capture) (chunk0 : chunk_env)
    (envs : list step_env) :
  writer s = None ->
  forall p q,
    events (snd (record (fresh s) c chunk0 envs)) = p ++ EvRead false :: q ->
    exists msg id, q = [EvLog (ERROR, msg); EvWriterRelease id; EvCapRelease].
Proof.
  intros Hw p q Hpq.
  assert (Hnone : forall tr : trace,
             Forall (fun ev => is_failed_read ev = false) tr ->
             tr <> p ++ EvRead false :: q).
  { intros tr Hall H. rewrite Forall_forall in Hall.
    specialize (Hall (EvRead false)). rewrite H in Hall.
    discriminate Hall. apply in_or_app; cbn; auto. }
  destruct (record_trace s c chunk0 envs Hw)
    as [[_ H]|[_ (m & m' & w & tail & Hm & _ & _ & _ & _ & Hm' & Hw' & Hev & Htail)]].
  - rewrite H in Hpq. cbn [snd events] in Hpq.
    exfalso. eapply Hnone; [|exact Hpq]. repeat constructor.
  - destruct (record_loop_spec envs m Hm) as (_ & _ & _ & Hcases).
    rewrite Hm' in *. rewrite Hev in Hpq.
    destruct (fst (record_loop m envs)) as [[u|e]|]; destruct Htail as [_ ->].
    + exfalso. eapply Hnone; [|exact Hpq].
      apply Forall_app; split; [exact Hcases|repeat constructor].
    + destruct Hcases as [[-> (pre & Hpre & Hall)]|[_ Hall]].
      * rewrite Hpre, <- app_assoc in Hpq. cbn [app] in Hpq.
        apply first_match_unique with (test := is_failed_read) in Hpq
          as (_ & _ & ->); auto; [|repeat constructor..].
        eauto.
      * exfalso. eapply Hnone; [|exact Hpq].
        apply Forall_app; split; [exact Hall|repeat constructor].
    + exfalso. eapply Hnone; [|exact Hpq]. now rewrite app_nil_r.
Qed.

(** X11: no exception leaves [record]. The loop ends with an error only for a
    camera that does not open, a read that fails or a write that raises. *)
Theorem record_contains_its_errors (s : CameraProcess) (c : capture) (chunk0 : chunk_env)
    (envs : list step_env) :
  writer s = None ->
  (fst (record (fresh s) c chunk0 envs) = InLoop \/
   fst (record (fresh s) c chunk0 envs) = Returned) /\
  forall e m',
    record_try (fresh s) c chunk0 envs = (Some (Raise e), m') ->
    e = Exception ("Failed to open camera "
                   +++ NilZero.string_of_int (Z.to_int (device_id s))) \/
    e = Exception "Failed to read frame" \/
    exists msg, e = cv2_error msg.
Proof.
  intros Hw. split.
  - destruct (record_trace s c chunk0 envs Hw)
      as [[_ ->]|[_ (m & m' & w & tail & _ & _ & _ & _ & _ & _ & _ & _ & Htail)]];
      [auto|].
    destruct (fst (record_loop m envs)) as [[u|e]|]; destruct Htail as [-> _]; auto.
  - intros e m' Htry.
    destruct (record_try_cases s c chunk0 envs Hw)
      as [[_ H]|[_ (m & Hm & _ & _ & _ & _ & H)]]; rewrite H in Htry.
    + inversion Htry; auto.
    + destruct (record_loop_spec envs m Hm) as (_ & _ & _ & Hcases).
      rewrite Htry in Hcases. cbn [fst] in Hcases.
      destruct Hcases as [[-> _]|[Hmsg _]]; auto.
Qed.

(** An iteration before the rotation is due reads, writes, and leaves the
    worker object as it was. *)
Lemma loop_body_before_rotation (m : machine) (env : step_env) (t0 : float) :
  chunk_start_time (self m) = Some t0 ->
  float_gt_int (PrimFloat.sub (se_now env) t0) (chunk_duration_mins (self m) * 60) = false ->
  self (snd (loop_body m env)) = self m /\
  exists X, events (snd (loop_body m env)) = events m ++ X /\
            Forall (fun ev => is_neutral ev = true) X /\ unlinked X = [].
Proof.
  intros Ht Hle.
  unfold loop_body.
  destruct (se_read env) as [f|];
    [|split; [reflexivity|]; eexists; split; [reflexivity|]; split;
      [repeat constructor|reflexivity]].
  cbn [emit self].
  destruct (writer (self m)) as [w|];
    [|split; [reflexivity|]; eexists; split; [reflexivity|]; split;
      [repeat constructor|reflexivity]].
  unfold VideoWriter_write, rotation_due. cbn [emit self events].
  rewrite Ht, Hle.
  destruct (cv2_write (vw_writer w) (se_write env)); cbn [fst snd events self];
    (split; [reflexivity|]; eexists; split; [symmetry; apply app_assoc|]; split;
     [repeat constructor|reflexivity]).
Qed.

Lemma record_loop_before_rotation (envs : list step_env) (t0 : float) (D : Z) :
  forall m,
    chunk_start_time (self m) = Some t0 -> chunk_duration_mins (self m) = D ->
    Forall (fun env => float_gt_int (PrimFloat.sub (se_now env) t0) (D * 60) = false) envs ->
    count is_cleanup (events (snd (record_loop m envs))) = count is_cleanup (events m) /\
    unlinked (events (snd (record_loop m envs))) = unlinked (events m).
Proof.
  induction envs as [|env envs IH]; intros m Ht HD Hall; cbn [record_loop];
    [auto|].
  inversion Hall as [|? ? Henv Hall']; subst.
  set (m0 := set_self m (set_running (self m) (se_running env))).
  destruct (running (self m0)); [|auto].
  destruct (loop_body_before_rotation m0 env t0 Ht Henv) as (Hself & X & HX & Hn & Hu).
  assert (Hc : count is_cleanup (events (snd (loop_body m0 env))) = count is_cleanup (events m)).
  { rewrite HX, count_app. change (events m0) with (events m).
    rewrite (count_none is_cleanup X); [lia|].
    eapply Forall_impl; [|exact Hn]. intros ev; destruct ev; cbn; congruence. }
  assert (Hun : unlinked (events (snd (loop_body m0 env))) = unlinked (events m)).
  { rewrite HX, unlinked_app, Hu, app_nil_r. reflexivity. }
  destruct (loop_body m0 env) as [[u|e] m1]; cbn [fst snd] in *; [|auto].
  destruct (IH m1) as [H1 H2]; auto.
  - now rewrite Hself.
  - now rewrite Hself.
  - rewrite H1, H2. auto.
Qed.

(** X12: nothing is deleted before the first rotation: while the float
    difference of the clock and the start of the first chunk is not greater
    than [chunk_duration_mins * 60], no eviction pass runs, whatever the
    directory holds. *)
Theorem no_eviction_before_first_rotation
    (s : CameraProcess) (c : capture) (chunk0 : chunk_env) (envs : list step_env) :
  writer s = None ->
  Forall (fun env =>
            float_gt_int (PrimFloat.sub (se_now env) (ce_now chunk0))
              (chunk_duration_mins s * 60) = false) envs ->
  count is_cleanup (events (snd (record (fresh s) c chunk0 envs))) = 0%nat /\
  unlinked (events (snd (record (fresh s) c chunk0 envs))) = [].
Proof.
  intros Hw Hall.
  destruct (record_trace s c chunk0 envs Hw)
    as [[_ ->]|[_ (m & m' & w & tail & Hm & _ & [Hcl Hu] & Ht & HD & Hm' & _ & -> & Htail)]];
    [split; reflexivity|].
  destruct (record_loop_before_rotation envs (ce_now chunk0) (chunk_duration_mins s) m
              Ht HD Hall) as [H1 H2].
  rewrite Hm' in *.
  assert (Htl : count is_cleanup tail = 0%nat /\ unlinked tail = []).
  { destruct (fst (record_loop m envs)) as [[u|e]|]; destruct Htail as [_ ->];
      split; reflexivity. }
  destruct Htl as [T1 T2].
  rewrite count_app, unlinked_app, H1, H2, Hcl, Hu, T1, T2. auto.
Qed.

(** ** Paths *)

Lemma split_sep_no_sep (s : string) : Forall (fun x => no_sep x = true) (split_sep s).
Proof.
  induction s as [|c s IH]; cbn [split_sep]; [repeat constructor|].
  destruct (Ascii.eqb c "/") eqn:Hc; [constructor; [reflexivity|exact IH]|].
  destruct (split_sep s) as [|x r]; [repeat constructor; cbn; now rewrite Hc|].
  inversion IH; subst. constructor; [cbn [no_sep]; now rewrite Hc|assumption].
Qed.

Lemma lstrip_sep_length (s : string) :
  (String.length (lstrip_sep s) <= String.length s)%nat.
Proof.
  induction s as [|c s IH]; cbn [lstrip_sep String.length]; [lia|].
  destruct (Ascii.eqb c "/"); cbn [String.length]; lia.
Qed.

Lemma splitroot_root (s : string) :
  fst (splitroot s) = "" \/ fst (splitroot s) = "/" \/ fst (splitroot s) = "//".
Proof.
  unfold splitroot.
  destruct (String.length s - String.length (lstrip_sep s))%nat as [|[|[|n]]]; cbn; auto.
Qed.

(** Parsing gives a well-formed path, and so does joining. *)
Lemma Path_wf (s : string) : path_wf (Path s).
Proof.
  unfold Path. pose proof (splitroot_root s) as Hroot.
  destruct (splitroot s) as [root rel]. split; [exact Hroot|].
  cbn [path_parts]. apply Forall_forall. intros x Hx. apply filter_In in Hx as [Hx Hp].
  split; [exact Hp|].
  exact (proj1 (Forall_forall _ _) (split_sep_no_sep rel) x Hx).
Qed.

Lemma truediv_wf (p : PurePath) (key : string) : path_wf p -> path_wf (truediv p key).
Proof.
  intros [Hroot Hparts]. unfold truediv. pose proof (Path_wf key) as [Hr Hp].
  destruct (String.eqb (path_root (Path key)) ""); [|split; assumption].
  split; [exact Hroot|]. cbn [path_parts]. apply Forall_app. split; assumption.
Qed.

(** A key that starts with a separator has a root: the path it is joined
    to is discarded. *)
Lemma truediv_absolute (p : PurePath) (rest : string) :
  truediv p (String "/" rest) = Path (String "/" rest).
Proof.
  unfold truediv.
  assert (H : path_root (Path (String "/" rest)) <> "").
  { unfold Path, splitroot. cbn [lstrip_sep Ascii.eqb Bool.eqb String.length].
    pose proof (lstrip_sep_length rest).
    destruct (S (String.length rest) - String.length (lstrip_sep rest))%nat
      as [|[|[|n]]] eqn:E; cbn [path_root]; [lia|discriminate..]. }
  destruct (String.eqb_spec (path_root (Path (String "/" rest))) ""); [contradiction|].
  reflexivity.
Qed.

Lemma split_sep_name (x : string) : no_sep x = true -> split_sep x = [x].
Proof.
  induction x as [|c x IH]; cbn [no_sep split_sep]; [reflexivity|].
  intros H. apply andb_prop in H as [Hc Hx]. apply negb_true_iff in Hc.
  now rewrite Hc, (IH Hx).
Qed.

Lemma split_sep_cons (x t : string) :
  no_sep x = true -> split_sep (x +++ String "/" t) = x :: split_sep t.
Proof.
  induction x as [|c x IH]; cbn [no_sep split_sep String.append]; [reflexivity|].
  intros H. apply andb_prop in H as [Hc Hx]. apply negb_true_iff in Hc.
  now rewrite Hc, (IH Hx).
Qed.

Lemma split_sep_concat (names : list string) :
  names <> [] -> Forall (fun x => no_sep x = true) names ->
  split_sep (String.concat "/" names) = names.
Proof.
  induction names as [|x names IH]; [congruence|]. intros _ Hall.
  inversion Hall as [|? ? Hx Hrest]; subst. cbn [String.concat].
  destruct names as [|y names]; [apply split_sep_name, Hx|].
  change ("/" +++ String.concat "/" (y :: names))
    with (String "/" (String.concat "/" (y :: names))).
  rewrite (split_sep_cons _ _ Hx), IH; [reflexivity|discriminate|exact Hrest].
Qed.

(** The rendering of components starts with the first of them. *)
Lemma concat_names_head (x : string) (names : list string) :
  is_part x = true -> no_sep x = true ->
  exists c rest, String.concat "/" (x :: names) = String c rest /\ Ascii.eqb c "/" = false.
Proof.
  intros Hp Hn. destruct x as [|c x]; [discriminate|].
  cbn [no_sep] in Hn. apply andb_prop in Hn as [Hc _]. apply negb_true_iff in Hc.
  cbn [String.concat]. destruct names; cbn [String.append]; eauto.
Qed.

(** [Path(str(p)) == p]: a field that holds the string of a path holds the
    path. *)
Lemma Path_str_path (p : PurePath) : path_wf p -> Path (str_path p) = p.
Proof.
  destruct p as [root names]. intros [Hroot Hparts]. cbn [path_root path_parts] in *.
  assert (Hkeep : filter is_part names = names).
  { clear Hroot. induction Hparts as [|x names [Hx _] _ IH]; [reflexivity|].
    cbn [filter]. now rewrite Hx, IH. }
  assert (Hno : Forall (fun x => no_sep x = true) names)
    by (eapply Forall_impl; [|exact Hparts]; cbn; tauto).
  unfold str_path. cbn [path_root path_parts].
  destruct names as [|x names].
  - destruct Hroot as [->|[->| ->]]; reflexivity.
  - inversion Hparts as [|? ? [Hx Hnx] _]; subst.
    destruct (concat_names_head x names Hx Hnx) as (c & rest & Hs & Hc).
    assert (Hsplit : filter is_part (split_sep (String c rest)) = x :: names)
      by (rewrite <- Hs, split_sep_concat, Hkeep; [reflexivity|discriminate|exact Hno]).
    rewrite Hs.
    destruct Hroot as [->|[->| ->]]; cbn [String.append]; unfold Path, splitroot;
      cbn [lstrip_sep Ascii.eqb Bool.eqb String.length]; rewrite ?Hc;
      cbn [String.length].
    + rewrite Nat.sub_diag. now rewrite Hsplit.
    + replace (S (S (String.length rest)) - S (String.length rest))%nat with 1%nat by lia.
      now rewrite Hsplit.
    + replace (S (S (S (String.length rest))) - S (String.length rest))%nat
        with 2%nat by lia.
      now rewrite Hsplit.
Qed.

(** Joining the string of a joined path is joining the path. *)
Lemma path_join_path_join (dir name name' : string) :
  path_join (path_join dir name) name'
  = str_path (truediv (truediv (Path dir) name) name').
Proof.
  unfold path_join. now rewrite Path_str_path by apply truediv_wf, Path_wf.
Qed.

(** ** More on the supervisor *)

Lemma dict_get_set {V : Type} (d : list (string * V)) (k k' : string) (v : V) :
  dict_get (dict_set d k v) k' = if String.eqb k k' then Some v else dict_get d k'.
Proof.
  induction d as [|[k0 v0] d IH]; cbn [dict_set dict_get].
  - reflexivity.
  - destruct (String.eqb_spec k0 k) as [->|Hne]; cbn [dict_get].
    + destruct (String.eqb k k'); reflexivity.
    + rewrite IH. destruct (String.eqb_spec k0 k') as [->|Hne'].
      * destruct (String.eqb_spec k k'); [congruence|reflexivity].
      * reflexivity.
Qed.

Lemma dict_set_keys {V : Type} (d : list (string * V)) (k : string) (v : V) :
  (In k (map fst d) /\ map fst (dict_set d k v) = map fst d) \/
  (~ In k (map fst d) /\ map fst (dict_set d k v) = map fst d ++ [k]).
Proof.
  induction d as [|[k0 v0] d IH]; cbn [dict_set map fst].
  - right. split; [intros []|reflexivity].
  - destruct (String.eqb_spec k0 k) as [->|Hne]; cbn [map fst].
    + left. split; [cbn; auto|reflexivity].
    + destruct IH as [[Hin ->]|[Hout ->]].
      * left. split; [cbn; auto|reflexivity].
      * right. split; [cbn; intuition congruence|reflexivity].
Qed.

Lemma dict_set_nodup {V : Type} (d : list (string * V)) (k : string) (v : V) :
  NoDup (map fst d) -> NoDup (map fst (dict_set d k v)).
Proof.
  intros Hnd. destruct (dict_set_keys d k v) as [[_ ->]|[Hout ->]]; [exact Hnd|].
  apply NoDup_app; [exact Hnd|repeat constructor; intros []|].
  intros a Ha [<-|[]]. exact (Hout Ha).
Qed.

Lemma dict_get_in {V : Type} (d : list (string * V)) (k : string) (v : V) :
  dict_get d k = Some v -> In (k, v) d.
Proof.
  induction d as [|[k0 v0] d IH]; cbn [dict_get]; [discriminate|].
  destruct (String.eqb_spec k0 k) as [->|Hne].
  - intros H; inversion H; subst. cbn; auto.
  - intros H; right; auto.
Qed.

Lemma dict_in_get {V : Type} (d : list (string * V)) (k : string) (v : V) :
  NoDup (map fst d) -> In (k, v) d -> dict_get d k = Some v.
Proof.
  induction d as [|[k0 v0] d IH]; cbn [dict_get map fst]; [intros _ []|].
  intros Hnd [H|H]; inversion Hnd as [|? ? Hk Hd]; subst.
  - inversion H; subst. now rewrite String.eqb_refl.
  - destruct (String.eqb_spec k0 k) as [->|Hne]; [|auto].
    exfalso. apply Hk. change k with (fst (k, v)). now apply in_map.
Qed.

Lemma find_snoc {A : Type} (test : A -> bool) (l : list A) (x : A) :
  find test (l ++ [x])
  = match find test l with
    | Some y => Some y
    | None => if test x then Some x else None
    end.
Proof.
  induction l as [|y l IH]; cbn [app find]; [reflexivity|].
  destruct (test y); [reflexivity|exact IH].
Qed.

(** The dict after the [for] loop: under each id the worker of the last
    entry with that id; the other keys as they were. *)
Lemma load_cameras_spec (mk : string -> bool) (base : string) (entries : list cam_config) :
  forall cams cams',
    load_cameras mk base cams entries = Ok cams' ->
    (NoDup (map fst cams) -> NoDup (map fst cams')) /\
    forall k,
      match find (has_id k) (rev entries) with
      | Some e =>
          exists dev c,
            cfg_device_id e = Some dev /\
            CameraProcess_init mk k dev base
              (py_get (cfg_max_storage_gb e) 50) (py_get (cfg_chunk_duration_mins e) 60)
            = Ok c /\
            dict_get cams' k = Some c
      | None => dict_get cams' k = dict_get cams k
      end.
Proof.
  induction entries as [|x entries IH]; intros cams cams' Hload; cbn [load_cameras] in Hload.
  - inversion Hload; subst. split; [auto|]. intros k. reflexivity.
  - destruct (cfg_id x) as [kid|] eqn:Hid; cbn [py_index bind] in Hload; [|discriminate].
    destruct (cfg_device_id x) as [d0|] eqn:Hdev; cbn [py_index bind] in Hload;
      [|discriminate].
    destruct (CameraProcess_init mk kid d0 base _ _) as [c0|] eqn:Hinit;
      cbn [bind] in Hload; [|discriminate].
    destruct (IH _ _ Hload) as [Hnd Hget].
    split; [intros H; apply Hnd, dict_set_nodup, H|].
    intros k. specialize (Hget k). cbn [rev]. rewrite find_snoc.
    destruct (find (has_id k) (rev entries)) as [e|]; [exact Hget|].
    rewrite Hget, dict_get_set. unfold has_id. rewrite Hid.
    destruct (String.eqb_spec kid k) as [<-|Hne]; [|reflexivity].
    exists d0, c0. auto.
Qed.

Lemma init_loads (cf : string) (mk : string -> bool) (home : string)
    (base : option string) (entries : list cam_config) (s' : MultiCameraSystem) (tr : trace) :
  MultiCameraSystem_init cf mk home (Some (mk_config base (Some entries))) = (Ok tt, s', tr) ->
  load_cameras mk (py_get base (path_join home "Library/Application Support/SecurityCam"))
    [] entries = Ok (cameras s').
Proof.
  unfold MultiCameraSystem_init, load_config.
  cbn [bind cfg_base_storage_dir cfg_cameras py_index cameras].
  destruct (load_cameras mk _ [] entries) as [cams|e].
  - intros H; inversion H; subst. reflexivity.
  - destruct (is_Exception e); discriminate.
Qed.

(** X13: [load_config] keeps one worker per id: when several entries carry
    the same id, the worker is built from the last of them; an id no entry
    carries has no worker. *)
Theorem load_config_last_entry_wins (cf : string) (mk : string -> bool) (home : string)
    (base : option string) (entries : list cam_config) (s' : MultiCameraSystem) (tr : trace) :
  MultiCameraSystem_init cf mk home (Some (mk_config base (Some entries))) = (Ok tt, s', tr) ->
  NoDup (map fst (cameras s')) /\
  forall k,
    match find (has_id k) (rev entries) with
    | Some e =>
        exists dev c,
          cfg_device_id e = Some dev /\
          CameraProcess_init mk k dev
            (py_get base (path_join home "Library/Application Support/SecurityCam"))
            (py_get (cfg_max_storage_gb e) 50) (py_get (cfg_chunk_duration_mins e) 60)
          = Ok c /\
          dict_get (cameras s') k = Some c
    | None => dict_get (cameras s') k = None
    end.
Proof.
  intros Hinit. apply init_loads in Hinit.
  destruct (load_cameras_spec _ _ _ _ _ Hinit) as [Hnd Hget].
  split; [apply Hnd; constructor|exact Hget].
Qed.

(** X14: every worker [load_config] builds is idle and rooted: keyed by its
    own id, recording under [Path(base_dir) / id], with the quota and the
    chunk duration of its entry or the defaults 50 and 60, and with no
    capture handle, no writer and [running] cleared. The directory is the
    join of [pathlib]: an id that starts with a separator replaces
    [base_dir], so that the worker records under the id itself; and the
    files the worker names under [storage_dir] are those of the path
    [Path(base_dir) / id]. *)
Theorem loaded_workers_are_idle (cf : string) (mk : string -> bool) (home : string)
    (base : option string) (entries : list cam_config) (s' : MultiCameraSystem) (tr : trace) :
  MultiCameraSystem_init cf mk home (Some (mk_config base (Some entries))) = (Ok tt, s', tr) ->
  forall k c,
    In (k, c) (cameras s') ->
    camera_id c = k /\
    storage_dir c
    = path_join (py_get base (path_join home "Library/Application Support/SecurityCam")) k /\
    (forall rest, k = String "/" rest -> storage_dir c = str_path (Path k)) /\
    (forall name,
       path_join (storage_dir c) name
       = str_path
           (truediv
              (truediv
                 (Path (py_get base
                          (path_join home "Library/Application Support/SecurityCam"))) k)
              name)) /\
    cap c = None /\ writer c = None /\ current_file c = None /\
    chunk_start_time c = None /\ running c = false /\
    exists e,
      In e entries /\ cfg_id e = Some k /\ cfg_device_id e = Some (device_id c) /\
      max_storage_bytes c = py_get (cfg_max_storage_gb e) 50 * 1024 * 1024 * 1024 /\
      chunk_duration_mins c = py_get (cfg_chunk_duration_mins e) 60.
Proof.
  intros Hinit k c Hin. apply init_loads in Hinit.
  destruct (load_cameras_spec _ _ _ _ _ Hinit) as [Hnd Hget].
  specialize (Hnd (NoDup_nil _)). specialize (Hget k).
  rewrite (dict_in_get _ _ _ Hnd Hin) in Hget.
  destruct (find (has_id k) (rev entries)) as [e|] eqn:Hfind; [|discriminate].
  destruct Hget as (dev & c' & Hdev & Hc' & Heq). inversion Heq; subst c'.
  apply find_some in Hfind as [He Hid]. apply in_rev in He.
  unfold has_id in Hid. destruct (cfg_id e) as [k'|] eqn:Hk; [|discriminate].
  apply String.eqb_eq in Hid. subst k'.
  unfold CameraProcess_init in Hc'. destruct (mk _); inversion Hc'; subst c.
  cbn [camera_id storage_dir cap writer current_file chunk_start_time running
       device_id max_storage_bytes chunk_duration_mins].
  split; [reflexivity|]. split; [reflexivity|]. split.
  { intros rest ->. unfold path_join. now rewrite truediv_absolute. }
  split; [intros name; apply path_join_path_join|].
  repeat split; try reflexivity. exists e. repeat split; auto.
Qed.

Lemma load_cameras_bad_entry (mk : string -> bool) (base : string)
    (entries : list cam_config) :
  Exists (bad_entry mk base) entries ->
  forall cams, exists e, load_cameras mk base cams entries = Raise e /\ is_Exception e = true.
Proof.
  induction entries as [|x entries IH]; intros Hbad cams; [inversion Hbad|].
  cbn [load_cameras].
  destruct (cfg_id x) as [kid|] eqn:Hid; cbn [py_index bind];
    [|eexists; split; reflexivity].
  destruct (cfg_device_id x) as [d0|] eqn:Hdev; cbn [py_index bind];
    [|eexists; split; reflexivity].
  unfold CameraProcess_init.
  destruct (mk (path_join base kid)) eqn:Hmk; cbn [bind];
    [|eexists; split; reflexivity].
  apply IH. inversion Hbad as [? ? Hx|]; subst; [|assumption].
  unfold bad_entry in Hx. rewrite Hid in Hx. destruct Hx; congruence.
Qed.

(** X15: one entry without [id] or [device_id], or whose directory cannot be
    created, aborts the start: the process exits with status 1 and starts no
    worker, whatever the other entries are. *)
Theorem bad_entry_aborts_startup (cf : string) (mk : string -> bool) (home : string)
    (base : option string) (entries : list cam_config) (signal : option nat) :
  Exists (bad_entry mk (py_get base (path_join home "Library/Application Support/SecurityCam")))
    entries ->
  fst (main cf mk home (Some (mk_config base (Some entries))) signal) = Exited 1 /\
  count is_thread_start (snd (main cf mk home (Some (mk_config base (Some entries))) signal))
  = 0%nat.
Proof.
  intros Hbad.
  destruct (load_cameras_bad_entry mk _ entries Hbad []) as (e & Hload & He).
  unfold main, MultiCameraSystem_init, load_config.
  cbn [bind cfg_base_storage_dir cfg_cameras py_index cameras].
  rewrite Hload, He. cbn. auto.
Qed.

(** X16: the exit status of the script. It is 1 exactly when the
    configuration does not load, 0 exactly when it loads and a signal
    arrives; without a signal the process does not end, whether its workers
    record or not. *)
Theorem main_exit_status (cf : string) (mk : string -> bool) (home : string)
    (file : option config) (signal : option nat) :
  (fst (main cf mk home file signal) = Exited 1 <->
   fst (fst (MultiCameraSystem_init cf mk home file)) <> Ok tt) /\
  (fst (main cf mk home file signal) = Exited 0 <->
   fst (fst (MultiCameraSystem_init cf mk home file)) = Ok tt /\ signal <> None) /\
  (fst (main cf mk home file signal) = Alive <->
   fst (fst (MultiCameraSystem_init cf mk home file)) = Ok tt /\ signal = None).
Proof.
  unfold main, MultiCameraSystem_init.
  destruct (load_config_cases {| config_file := cf; cameras := []; sys_running := false |}
              mk home file) as [[s' ->]|[e ->]]; cbn [fst snd].
  - destruct signal as [k|].
    + destruct (run_signal s' k) as [Hr _].
      destruct (run s' (Some k)) as [[r s2] tr]. cbn [fst] in Hr. subst r. cbn [fst].
      repeat split; intros; try discriminate; try tauto; intuition congruence.
    + destruct (run_no_signal s') as [Hr _].
      destruct (run s' None) as [[r s2] tr]. cbn [fst] in Hr. subst r. cbn [fst].
      repeat split; intros; try discriminate; try tauto; intuition congruence.
  - repeat split; intros; try discriminate; try tauto; intuition congruence.
Qed.

(** X17: [run] sets the [running] flag of every worker before its wait loop,
    and the signal handler clears the flag of every worker and of the
    system; neither adds, drops or reorders a worker. *)
Theorem run_sets_and_signal_clears_running (s : MultiCameraSystem) (k : nat) :
  map fst (cameras (snd (fst (run s None)))) = map fst (cameras s) /\
  Forall (fun kc => running (snd kc) = true) (cameras (snd (fst (run s None)))) /\
  sys_running (snd (fst (run s None))) = true /\
  map fst (cameras (snd (fst (run s (Some k))))) = map fst (cameras s) /\
  Forall (fun kc => running (snd kc) = false) (cameras (snd (fst (run s (Some k))))) /\
  sys_running (snd (fst (run s (Some k)))) = false.
Proof.
  unfold run. rewrite wait_loop_signal by reflexivity.
  cbn [fst snd cameras sys_running signal_handler].
  rewrite !map_map. cbn [fst].
  repeat split; try reflexivity; apply Forall_forall; intros kc H;
    repeat (apply in_map_iff in H as (? & <- & H)); reflexivity.
Qed.

(** ** list_available_cameras *)

Lemma probed_app (a b : trace) : probed (a ++ b) = probed a ++ probed b.
Proof.
  induction a as [|ev a IH]; cbn; [reflexivity|].
  destruct ev; cbn; rewrite ?IH; reflexivity.
Qed.

Lemma probe_cameras_spec (probe : Z -> device) (n : nat) :
  forall fuel index available tr,
    (forall i, (i < n)%nat -> dev_opened (probe (index + Z.of_nat i)) = true) ->
    dev_opened (probe (index + Z.of_nat n)) = false ->
    (n < fuel)%nat ->
    fst (probe_cameras probe fuel index available tr)
    = Some (available ++
            filter (fun i => dev_readable (probe i))
              (map (fun i => index + Z.of_nat i) (seq 0 n))) /\
    probed (snd (probe_cameras probe fuel index available tr))
    = probed tr ++ map (fun i => index + Z.of_nat i) (seq 0 (S n)) /\
    count is_cap_release (snd (probe_cameras probe fuel index available tr))
    = (count is_cap_release tr + n)%nat.
Proof.
  induction n as [|n IH]; intros fuel index available tr Hopen Hgap Hfuel;
    (destruct fuel as [|fuel]; [lia|]); cbn [probe_cameras].
  - rewrite Z.add_0_r in Hgap. rewrite Hgap. cbn [negb fst snd seq map filter].
    rewrite app_nil_r, probed_app, count_app, Z.add_0_r. cbn. auto.
  - assert (H0 : dev_opened (probe index) = true).
    { specialize (Hopen 0%nat). rewrite Z.add_0_r in Hopen. apply Hopen. lia. }
    rewrite H0. cbn [negb].
    match goal with
    | |- context [probe_cameras probe fuel (index + 1) ?av ?t] =>
        destruct (IH fuel (index + 1) av t) as (R1 & R2 & R3)
    end.
    + intros i Hi. replace (index + 1 + Z.of_nat i) with (index + Z.of_nat (S i)) by lia.
      apply Hopen. lia.
    + replace (index + 1 + Z.of_nat n) with (index + Z.of_nat (S n)) by lia. exact Hgap.
    + lia.
    + assert (Hshift : forall len,
                 map (fun i => index + Z.of_nat i) (seq 0 (S len))
                 = index :: map (fun i => index + 1 + Z.of_nat i) (seq 0 len)).
      { intros len. change (seq 0 (S len)) with (0%nat :: seq 1 len).
        cbn [map]. rewrite Z.add_0_r. f_equal.
        rewrite <- seq_shift, map_map. apply map_ext. intros; lia. }
      split; [|split].
      * rewrite R1, Hshift. cbn [filter].
        destruct (dev_readable (probe index)); [now rewrite <- app_assoc|reflexivity].
      * rewrite R2, (Hshift (S n)), !probed_app. cbn [probed app].
        now rewrite <- !app_assoc.
      * rewrite R3, !count_app. unfold count; cbn. lia.
Qed.

(** X18: [list_available_cameras] probes the indices from 0 up to the first
    one that does not open and no further; it returns, in ascending order,
    those of them that gave a frame, and releases every handle that opened.
    The [--list-cameras] branch prints one line for each and exits with
    status 0. *)
Theorem list_available_cameras_spec (probe : Z -> device) (n fuel : nat) :
  (forall i, (i < n)%nat -> dev_opened (probe (Z.of_nat i)) = true) ->
  dev_opened (probe (Z.of_nat n)) = false ->
  (n < fuel)%nat ->
  fst (list_available_cameras probe fuel)
  = Some (filter (fun i => dev_readable (probe i)) (map Z.of_nat (seq 0 n))) /\
  probed (snd (list_available_cameras probe fuel)) = map Z.of_nat (seq 0 (S n)) /\
  count is_cap_release (snd (list_available_cameras probe fuel)) = n /\
  main_list_cameras probe fuel
  = Some ("Available cameras:"
          :: map (fun idx => "Camera ID: " +++ NilZero.string_of_int (Z.to_int idx))
               (filter (fun i => dev_readable (probe i)) (map Z.of_nat (seq 0 n))),
          0).
Proof.
  intros Hopen Hgap Hfuel.
  destruct (probe_cameras_spec probe n fuel 0 [] []) as (R1 & R2 & R3); auto.
  assert (R1' : fst (list_available_cameras probe fuel)
                = Some (filter (fun i => dev_readable (probe i)) (map Z.of_nat (seq 0 n))))
    by exact R1.
  split; [exact R1'|]. split; [exact R2|]. split; [exact R3|].
  unfold main_list_cameras. now rewrite R1'.
Qed.

(** ** raspi_serial.py *)

Lemma length_append (a b : string) :
  String.length (a +++ b) = (String.length a + String.length b)%nat.
Proof. induction a as [|c a IH]; cbn; [reflexivity|now rewrite IH]. Qed.

Lemma length_zeros (n : nat) : String.length (String.concat "" (repeat "0" n)) = n.
Proof.
  induction n as [|n IH]; [reflexivity|].
  cbn [repeat String.concat]. destruct (repeat "0" n) eqn:E.
  - destruct n; [reflexivity|discriminate].
  - rewrite length_append, length_append. cbn [String.length]. rewrite <- E in *.
    cbn in IH |- *. lia.
Qed.

Lemma zero_pad_length (sub_command : string) :
  String.length (zero_pad sub_command) = Nat.max 3 (String.length sub_command).
Proof.
  unfold zero_pad, py_repeat.
  replace (Z.to_nat (3 - Z.of_nat (String.length sub_command)))
    with (3 - String.length sub_command)%nat by lia.
  rewrite length_append, length_zeros. lia.
Qed.

(** X19: [zero_pad] fills a field to three characters with leading zeros and
    leaves a field of three characters or more as it is, so that a longer
    line makes a longer field. *)
Theorem zero_pad_width (sub_command : string) :
  String.length (zero_pad sub_command) = Nat.max 3 (String.length sub_command) /\
  ((3 <= String.length sub_command)%nat -> zero_pad sub_command = sub_command) /\
  exists zeros,
    zero_pad sub_command = String.concat "" (repeat "0" zeros) +++ sub_command /\
    zeros = (3 - String.length sub_command)%nat.
Proof.
  unfold zero_pad, py_repeat.
  replace (Z.to_nat (3 - Z.of_nat (String.length sub_command)))
    with (3 - String.length sub_command)%nat by lia.
  split; [|split].
  - rewrite length_append, length_zeros. lia.
  - intros H. replace (3 - String.length sub_command)%nat with 0%nat by lia. reflexivity.
  - eauto.
Qed.

Lemma servo_command_fold (servos : list string) :
  forall command,
    fold_left (fun command line => (command +++ zero_pad (strip line)) +++ " ") servos command
    = command +++ String.concat "" (map (fun line => zero_pad (strip line) +++ " ") servos).
Proof.
  assert (Hnil : forall s : string, s +++ "" = s)
    by (induction s as [|c s IH]; cbn; [reflexivity|now rewrite IH]).
  assert (Hassoc : forall a b c : string, (a +++ b) +++ c = a +++ b +++ c)
    by (induction a as [|ch a IH]; intros; cbn; [reflexivity|now rewrite IH]).
  induction servos as [|line servos IH]; intros command; cbn [fold_left map String.concat].
  - now rewrite Hnil.
  - rewrite IH. destruct (map _ servos) eqn:E.
    + destruct servos; [|discriminate]. cbn [map String.concat].
      now rewrite Hnil, ?Hassoc.
    + rewrite <- E. cbn [String.append]. now rewrite ?Hassoc.
Qed.

Lemma servo_command_fields (step_delay : string) (servos : list string) :
  servo_command step_delay servos
  = strip step_delay +++ " " +++
    String.concat "" (map (fun line => zero_pad (strip line) +++ " ") servos).
Proof.
  assert (Hassoc : forall a b c : string, (a +++ b) +++ c = a +++ b +++ c)
    by (induction a as [|ch a IH]; intros; cbn; [reflexivity|now rewrite IH]).
  unfold servo_command. now rewrite servo_command_fold, Hassoc.
Qed.

(** X20: the command is the stripped step delay, a space, then for each servo
    its zero-padded stripped line and a space. When no servo line is longer
    than three characters after stripping, the command is
    [len(step_delay.strip()) + 1 + 4 * len(servos)] characters long. *)
Theorem servo_command_layout (step_delay : string) (servos : list string) :
  servo_command step_delay servos
  = strip step_delay +++ " " +++
    String.concat "" (map (fun line => zero_pad (strip line) +++ " ") servos) /\
  (Forall (fun line => (String.length (strip line) <= 3)%nat) servos ->
   String.length (servo_command step_delay servos)
   = (String.length (strip step_delay) + 1 + 4 * List.length servos)%nat).
Proof.
  rewrite servo_command_fields. split; [reflexivity|].
  intros Hall. rewrite !length_append. cbn [String.length].
  assert (Hlen : String.length
                   (String.concat "" (map (fun line => zero_pad (strip line) +++ " ") servos))
                 = (4 * List.length servos)%nat).
  { induction Hall as [|line servos Hline _ IH]; [reflexivity|].
    cbn [map String.concat List.length].
    assert (Hfield : String.length (zero_pad (strip line) +++ " ") = 4%nat).
    { rewrite length_append, zero_pad_length.
      cbn [String.length]. lia. }
    destruct (map _ servos) eqn:E.
    - destruct servos; [|discriminate]. rewrite Hfield. reflexivity.
    - rewrite <- E in *. cbn [String.append]. rewrite length_append, Hfield, IH. lia. }
  rewrite Hlen. lia.
Qed.

Lemma all_ascii_append (a b : string) :
  all_ascii (a +++ b) = all_ascii a && all_ascii b.
Proof.
  induction a as [|c a IH]; cbn [String.append all_ascii]; [reflexivity|].
  now rewrite IH, andb_assoc.
Qed.

Lemma all_ascii_strip (line : string) : all_ascii line = true -> all_ascii (strip line) = true.
Proof.
  assert (Hl : forall s, all_ascii s = true -> all_ascii (lstrip s) = true).
  { induction s as [|c s IH]; cbn [lstrip all_ascii]; [reflexivity|].
    intros H. apply andb_prop in H as [Hc Hs].
    destruct (isspace c); [now apply IH|]. cbn [all_ascii]. now rewrite Hc, Hs. }
  assert (Hr : forall s, all_ascii s = true -> all_ascii (rstrip s) = true).
  { induction s as [|c s IH]; cbn [rstrip all_ascii]; [reflexivity|].
    intros H. apply andb_prop in H as [Hc Hs]. specialize (IH Hs).
    destruct (rstrip s) eqn:E.
    - destruct (isspace c); cbn [all_ascii]; [reflexivity|now rewrite Hc].
    - cbn [all_ascii] in IH |- *. now rewrite Hc, IH. }
  intros H. apply Hr, Hl, H.
Qed.

Lemma all_ascii_zero_pad (sub_command : string) :
  all_ascii sub_command = true -> all_ascii (zero_pad sub_command) = true.
Proof.
  intros H. unfold zero_pad, py_repeat. rewrite all_ascii_append, H, andb_true_r.
  induction (Z.to_nat (3 - Z.of_nat (String.length sub_command))) as [|n IH];
    [reflexivity|].
  cbn [repeat String.concat]. destruct (repeat "0" n) eqn:E; [reflexivity|].
  rewrite <- E in *. now rewrite !all_ascii_append, IH.
Qed.

Lemma encode_ascii_spec (s : string) :
  (all_ascii s = true ->
   exists bs, encode_ascii s = Some bs /\ List.length bs = String.length s) /\
  (all_ascii s = false -> encode_ascii s = None).
Proof.
  induction s as [|c s [IHt IHf]]; cbn [all_ascii encode_ascii String.length].
  - split; [exists []; now split|discriminate].
  - destruct (nat_of_ascii c <? 128)%nat; cbn [andb].
    + split.
      * intros H. destruct (IHt H) as (bs & -> & Hlen). exists (byte_of_ascii c :: bs).
        cbn [List.length]. now rewrite Hlen.
      * intros H. now rewrite (IHf H).
    + split; [discriminate|reflexivity].
Qed.

(** X21: lines typed in ASCII always give a command that [encode('ascii')]
    accepts, one byte per character; a command with a character outside
    ASCII makes [encode] raise, so nothing is written to the port. *)
Theorem ascii_lines_always_encode (step_delay : string) (servos : list string) :
  all_ascii step_delay = true ->
  Forall (fun line => all_ascii line = true) servos ->
  (exists bytes,
     encode_ascii (servo_command step_delay servos) = Some bytes /\
     List.length bytes = String.length (servo_command step_delay servos)) /\
  (forall command, all_ascii command = false -> encode_ascii command = None).
Proof.
  intros Hd Hs. split; [|intros command; apply encode_ascii_spec].
  apply encode_ascii_spec.
  rewrite servo_command_fields, !all_ascii_append.
  rewrite (all_ascii_strip _ Hd). change (all_ascii " ") with true. cbn [andb].
  induction Hs as [|line servos Hline _ IH]; [reflexivity|].
  cbn [map String.concat].
  assert (Hfield : all_ascii (zero_pad (strip line) +++ " ") = true).
  { rewrite all_ascii_append, (all_ascii_zero_pad _ (all_ascii_strip _ Hline)). reflexivity. }
  destruct (map _ servos) eqn:E; [exact Hfield|].
  rewrite <- E in *. cbn [String.append]. now rewrite all_ascii_append, Hfield, IH.
Qed.

(** ** Instances of the further properties *)

Lemma cleanup_deletes_only_over_quota_witness :
  exists names,
    unlinked (snd (cleanup_old_files ex_camera ex_chunks []))
    = unlinked [] ++ map (path_join (storage_dir ex_camera)) names /\
    fst (cleanup_old_files ex_camera ex_chunks []) = remove_names names ex_chunks /\
    forall j, (j < List.length names)%nat ->
      disk_usage (remove_names (firstn j names) ex_chunks) > max_storage_bytes ex_camera.
Proof.
  apply (cleanup_deletes_only_over_quota ex_camera ex_chunks []).
  repeat constructor; simpl; intuition discriminate.
Defined.

Lemma cleanup_within_quota_is_noop_witness :
  cleanup_old_files ex_camera [ex_active_small; regular "notes.txt" 0 (5 * GiB)] []
  = ([ex_active_small; regular "notes.txt" 0 (5 * GiB)], [] ++ [EvCleanup]).
Proof.
  apply (cleanup_within_quota_is_noop ex_camera
           [ex_active_small; regular "notes.txt" 0 (5 * GiB)] []).
  - repeat constructor; simpl; intuition discriminate.
  - intros e [<-|[<-|[]]] _; discriminate.
  - vm_compute. discriminate.
Defined.

Lemma cleanup_unreadable_entry_disables_eviction_witness :
  exists err,
    cleanup_old_files ex_camera (ex_chunks ++ [ex_unreadable]) []
    = (ex_chunks ++ [ex_unreadable],
       [] ++ [EvCleanup;
              EvLog (ERROR, "Camera " +++ camera_id ex_camera
                            +++ ": Error during cleanup: " +++ exn_str err)]).
Proof.
  apply (cleanup_unreadable_entry_disables_eviction ex_camera
           (ex_chunks ++ [ex_unreadable]) [] ex_unreadable).
  - repeat constructor; simpl; intuition discriminate.
  - simpl. tauto.
  - reflexivity.
  - reflexivity.
Defined.

Lemma cleanup_without_quota_deletes_all_witness :
  glob_mp4 (fst (cleanup_old_files ex_no_quota ex_chunks [])) = [].
Proof.
  apply (cleanup_without_quota_deletes_all ex_no_quota ex_chunks []).
  - repeat constructor; simpl; intuition discriminate.
  - intros e [<-|[<-|[<-|[<-|[]]]]] Hmp4; try discriminate Hmp4;
      (split; [discriminate|split; reflexivity]).
  - vm_compute. discriminate.
Defined.

Lemma chunk_file_is_eviction_candidate_witness :
  exists w name,
    writer (self (snd (start_new_chunk
                         (set_self (fresh ex_worker) (set_cap ex_worker (Some ex_capture)))
                         (ex_chunk "2024-01-01_10-00-00" true true 36000)))) = Some w /\
    current_file (self (snd (start_new_chunk
                         (set_self (fresh ex_worker) (set_cap ex_worker (Some ex_capture)))
                         (ex_chunk "2024-01-01_10-00-00" true true 36000))))
    = Some (cv_filename (vw_writer w)) /\
    cv_filename (vw_writer w)
    = path_join (storage_dir (self (set_self (fresh ex_worker)
                                      (set_cap ex_worker (Some ex_capture))))) name /\
    fnmatch_star ".mp4" name = true /\
    storage_dir (self (snd (start_new_chunk
                         (set_self (fresh ex_worker) (set_cap ex_worker (Some ex_capture)))
                         (ex_chunk "2024-01-01_10-00-00" true true 36000))))
    = storage_dir (self (set_self (fresh ex_worker) (set_cap ex_worker (Some ex_capture)))).
Proof.
  apply (chunk_file_is_eviction_candidate
           (set_self (fresh ex_worker) (set_cap ex_worker (Some ex_capture)))
           (ex_chunk "2024-01-01_10-00-00" true true 36000) ex_capture).
  reflexivity.
Defined.

Lemma record_open_failure_witness :
  fst (record (fresh ex_worker) ex_absent (ex_chunk "2024-01-01_10-00-00" true true 36000)
         [ex_frame 1%nat Written 36001; ex_stop])
  = Returned.
Proof.
  rewrite (record_open_failure ex_worker ex_absent
             (ex_chunk "2024-01-01_10-00-00" true true 36000)
             [ex_frame 1%nat Written 36001; ex_stop]).
  - reflexivity.
  - reflexivity.
  - reflexivity.
Defined.

Lemma frames_written_in_read_order_witness :
  map Some (frames_written
              (events (snd (record (fresh ex_worker) ex_capture
                              (ex_chunk "2024-01-01_10-00-00" true true 36000)
                              [ex_frame 1%nat Written 36001; ex_frame 2%nat Dropped 39601;
                               ex_failed_read 39602; ex_frame 3%nat Written 39603]))))
  = firstn (List.length
              (frames_written
                 (events (snd (record (fresh ex_worker) ex_capture
                                 (ex_chunk "2024-01-01_10-00-00" true true 36000)
                                 [ex_frame 1%nat Written 36001; ex_frame 2%nat Dropped 39601;
                                  ex_failed_read 39602; ex_frame 3%nat Written 39603])))))
      (map se_read [ex_frame 1%nat Written 36001; ex_frame 2%nat Dropped 39601;
                    ex_failed_read 39602; ex_frame 3%nat Written 39603]).
Proof.
  apply (frames_written_in_read_order ex_worker ex_capture
           (ex_chunk "2024-01-01_10-00-00" true true 36000)
           [ex_frame 1%nat Written 36001; ex_frame 2%nat Dropped 39601;
            ex_failed_read 39602; ex_frame 3%nat Written 39603]).
  reflexivity.
Defined.

Lemma writes_go_to_the_open_writer_witness :
  exists p1 file ok p2,
    firstn 10 (events (snd (record (fresh ex_worker) ex_capture
                              (ex_chunk "2024-01-01_10-00-00" true true 36000)
                              [ex_frame 1%nat Written 36001; ex_frame 2%nat Written 39601;
                               ex_frame 3%nat Written 39602; ex_stop])))
    = p1 ++ EvCv2Writer 1 file mp4v ok :: p2 /\
    Forall (fun ev => is_writer_change ev = false) p2.
Proof.
  apply (writes_go_to_the_open_writer ex_worker ex_capture
           (ex_chunk "2024-01-01_10-00-00" true true 36000)
           [ex_frame 1%nat Written 36001; ex_frame 2%nat Written 39601;
            ex_frame 3%nat Written 39602; ex_stop]
           eq_refl _ 1%nat 3%nat Written
           (skipn 11 (events (snd (record (fresh ex_worker) ex_capture
                                     (ex_chunk "2024-01-01_10-00-00" true true 36000)
                                     [ex_frame 1%nat Written 36001;
                                      ex_frame 2%nat Written 39601;
                                      ex_frame 3%nat Written 39602; ex_stop]))))).
  vm_compute. reflexivity.
Defined.

Lemma failed_read_is_terminal_witness :
  exists msg id,
    skipn 10 (events (snd (record (fresh ex_worker) ex_capture
                             (ex_chunk "2024-01-01_10-00-00" true true 36000)
                             [ex_frame 1%nat Written 36001; ex_frame 2%nat Dropped 39601;
                              ex_failed_read 39602; ex_frame 3%nat Written 39603])))
    = [EvLog (ERROR, msg); EvWriterRelease id; EvCapRelease].
Proof.
  apply (failed_read_is_terminal ex_worker ex_capture
           (ex_chunk "2024-01-01_10-00-00" true true 36000)
           [ex_frame 1%nat Written 36001; ex_frame 2%nat Dropped 39601;
            ex_failed_read 39602; ex_frame 3%nat Written 39603]
           eq_refl
           (firstn 9 (events (snd (record (fresh ex_worker) ex_capture
                                     (ex_chunk "2024-01-01_10-00-00" true true 36000)
                                     [ex_frame 1%nat Written 36001;
                                      ex_frame 2%nat Dropped 39601;
                                      ex_failed_read 39602;
                                      ex_frame 3%nat Written 39603]))))).
  vm_compute. reflexivity.
Defined.

Lemma record_contains_its_errors_witness :
  fst (record (fresh ex_worker) ex_capture (ex_chunk "2024-01-01_10-00-00" true true 36000)
         [ex_frame 1%nat (WriteRaises "disk full") 36001; ex_stop]) = InLoop \/
  fst (record (fresh ex_worker) ex_capture (ex_chunk "2024-01-01_10-00-00" true true 36000)
         [ex_frame 1%nat (WriteRaises "disk full") 36001; ex_stop]) = Returned.
Proof.
  apply (record_contains_its_errors ex_worker ex_capture
           (ex_chunk "2024-01-01_10-00-00" true true 36000)
           [ex_frame 1%nat (WriteRaises "disk full") 36001; ex_stop]).
  reflexivity.
Defined.

Lemma no_eviction_before_first_rotation_witness :
  count is_cleanup
    (events (snd (record (fresh ex_worker) ex_capture
                    (ex_chunk "2024-01-01_10-00-00" true true 36000)
                    [ex_frame 1%nat Written 36001; ex_frame 2%nat Written 39600; ex_stop])))
  = 0%nat /\
  unlinked
    (events (snd (record (fresh ex_worker) ex_capture
                    (ex_chunk "2024-01-01_10-00-00" true true 36000)
                    [ex_frame 1%nat Written 36001; ex_frame 2%nat Written 39600; ex_stop])))
  = [].
Proof.
  apply (no_eviction_before_first_rotation ex_worker ex_capture
           (ex_chunk "2024-01-01_10-00-00" true true 36000)
           [ex_frame 1%nat Written 36001; ex_frame 2%nat Written 39600; ex_stop]).
  - reflexivity.
  - repeat constructor.
Defined.

Lemma load_config_last_entry_wins_witness :
  NoDup (map fst (cameras (snd (fst (MultiCameraSystem_init "cfg.json" (fun _ => true)
                                       "/Users/u"
                                       (ex_config [ex_entry "cam1" 0; ex_entry "cam2" 1;
                                                   ex_entry "cam1" 2])))))).
Proof.
  refine (proj1 (load_config_last_entry_wins "cfg.json" (fun _ => true) "/Users/u"
                   (Some "/video") [ex_entry "cam1" 0; ex_entry "cam2" 1; ex_entry "cam1" 2]
                   _ (snd (MultiCameraSystem_init "cfg.json" (fun _ => true) "/Users/u"
                             (ex_config [ex_entry "cam1" 0; ex_entry "cam2" 1;
                                         ex_entry "cam1" 2])))
                   _)).
  reflexivity.
Defined.

Lemma loaded_workers_are_idle_witness :
  camera_id (set_running ex_worker false) = "cam1" /\
  storage_dir (set_running ex_worker false)
  = path_join (py_get (Some "/video")
                 (path_join "/Users/u" "Library/Application Support/SecurityCam")) "cam1" /\
  (forall rest, "cam1" = String "/" rest ->
                storage_dir (set_running ex_worker false) = str_path (Path "cam1")) /\
  (forall name,
     path_join (storage_dir (set_running ex_worker false)) name
     = str_path
         (truediv
            (truediv
               (Path (py_get (Some "/video")
                        (path_join "/Users/u" "Library/Application Support/SecurityCam")))
               "cam1")
            name)) /\
  cap (set_running ex_worker false) = None /\
  writer (set_running ex_worker false) = None /\
  current_file (set_running ex_worker false) = None /\
  chunk_start_time (set_running ex_worker false) = None /\
  running (set_running ex_worker false) = false /\
  exists e,
    In e [ex_entry "cam1" 0] /\ cfg_id e = Some "cam1" /\
    cfg_device_id e = Some (device_id (set_running ex_worker false)) /\
    max_storage_bytes (set_running ex_worker false)
    = py_get (cfg_max_storage_gb e) 50 * 1024 * 1024 * 1024 /\
    chunk_duration_mins (set_running ex_worker false)
    = py_get (cfg_chunk_duration_mins e) 60.
Proof.
  apply (loaded_workers_are_idle "cfg.json" (fun _ => true) "/Users/u"
           (Some "/video") [ex_entry "cam1" 0]
           (snd (fst (MultiCameraSystem_init "cfg.json" (fun _ => true) "/Users/u"
                        (ex_config [ex_entry "cam1" 0]))))
           (snd (MultiCameraSystem_init "cfg.json" (fun _ => true) "/Users/u"
                   (ex_config [ex_entry "cam1" 0])))).
  - reflexivity.
  - left. reflexivity.
Defined.

Lemma bad_entry_aborts_startup_witness :
  fst (main "cfg.json" (fun _ => true) "/Users/u"
         (ex_config [ex_entry "cam1" 0; ex_entry_no_device "cam2"; ex_entry "cam3" 2])
         (Some 3%nat))
  = Exited 1 /\
  count is_thread_start
    (snd (main "cfg.json" (fun _ => true) "/Users/u"
            (ex_config [ex_entry "cam1" 0; ex_entry_no_device "cam2"; ex_entry "cam3" 2])
            (Some 3%nat)))
  = 0%nat.
Proof.
  apply (bad_entry_aborts_startup "cfg.json" (fun _ => true) "/Users/u" (Some "/video")
           [ex_entry "cam1" 0; ex_entry_no_device "cam2"; ex_entry "cam3" 2] (Some 3%nat)).
  apply Exists_cons_tl, Exists_cons_hd. left. reflexivity.
Defined.

Lemma list_available_cameras_spec_witness :
  fst (list_available_cameras ex_probe 10) = Some [0] /\
  probed (snd (list_available_cameras ex_probe 10)) = [0; 1; 2] /\
  count is_cap_release (snd (list_available_cameras ex_probe 10)) = 2%nat /\
  main_list_cameras ex_probe 10 = Some (["Available cameras:"; "Camera ID: 0"], 0).
Proof.
  apply (list_available_cameras_spec ex_probe 2 10).
  - intros [|[|i]] H; [reflexivity|reflexivity|lia].
  - reflexivity.
  - lia.
Defined.

Lemma zero_pad_width_witness : zero_pad "120" = "120".
Proof.
  apply (proj1 (proj2 (zero_pad_width "120"))). cbn. lia.
Defined.

Lemma servo_command_layout_witness :
  String.length (servo_command "20" ex_servo_lines)
  = (String.length (strip "20") + 1 + 4 * List.length ex_servo_lines)%nat.
Proof.
  apply (proj2 (servo_command_layout "20" ex_servo_lines)).
  repeat constructor.
Defined.

Lemma ascii_lines_always_encode_witness :
  exists bytes,
    encode_ascii (servo_command "20" ex_servo_lines) = Some bytes /\
    List.length bytes = String.length (servo_command "20" ex_servo_lines).
Proof.
  apply (proj1 (ascii_lines_always_encode "20" ex_servo_lines eq_refl
                  ltac:(repeat constructor))).
Defined.

(** The command of the comment in the script. *)
Example servo_command_of_the_comment :
  servo_command " 20 " ex_servo_lines = "20 090 090 090 090 090 073 ".
Proof. reflexivity. Qed.

(** The rotation test is on the rounded difference: the readings
    [3600 + 2^-41] and [3 * 2^-43] are [3600 + 2^-43] seconds apart, their
    float difference is [3600], and a chunk of 60 minutes is not rotated; at
    the next reading of the clock, [3600 + 2^-40], it is. *)
Example rotation_test_rounds :
  rotation_due (set_chunk_start_time ex_worker (Some 0x1.8p-42%float))
    0x1.c200000000001p+11%float = Ok false /\
  rotation_due (set_chunk_start_time ex_worker (Some 0x1.8p-42%float))
    0x1.c200000000002p+11%float = Ok true.
Proof. split; reflexivity. Qed.

(** A base directory written with a trailing separator, and a camera whose
    id is an absolute path: the first records under [/video/cam1], the
    second under [/tmp/cam], outside the base directory. *)
Example storage_dir_is_a_pathlib_join :
  (let+ c := CameraProcess_init (fun _ => true) "cam1" 0 "/video/" 50 60 in
   Ok (storage_dir c)) = Ok "/video/cam1" /\
  (let+ c := CameraProcess_init (fun _ => true) "/tmp/cam" 0 "/video" 50 60 in
   Ok (storage_dir c)) = Ok "/tmp/cam".
Proof. split; reflexivity. Qed.
